(** * Polymarket copy-trader analyzer: ledger, aggregator and recommender

    A shallow embedding of [polymarket_analyzer.py].  Python floats are read
    as real numbers ([R]): every arithmetic expression of the source is kept
    as written, its rounding error is outside the model.  Strings are Rocq
    strings (byte sequences), dictionaries with a fixed key set are records,
    the process-wide resolution cache is threaded explicitly. *)

From Stdlib Require Import Reals Lra Lia ZArith List String Ascii Bool Permutation Sorted.
Import ListNotations.

Local Open Scope string_scope.
Local Open Scope R_scope.

(** ** Python built-ins used by the source *)

(** [str.upper] on the ASCII range. *)
Definition upper_ascii (c : ascii) : ascii :=
  let n := nat_of_ascii c in
  if ((97 <=? n) && (n <=? 122))%nat then ascii_of_nat (n - 32) else c.

Fixpoint upper (s : string) : string :=
  match s with
  | EmptyString => EmptyString
  | String c r => String (upper_ascii c) (upper r)
  end.

(** Truth value of a string: empty is falsy. *)
Definition truthy (s : string) : bool := negb (s =? "")%string.

(** [x in [a, b, c]] on strings. *)
Definition str_in (s : string) (l : list string) : bool :=
  existsb (String.eqb s) l.

(** [sum(xs)]: left-to-right accumulation from 0. *)
Definition sum (xs : list R) : R := fold_left Rplus xs 0.

Definition Rltb (a b : R) : bool := if Rlt_dec a b then true else false.
Definition Rleb (a b : R) : bool := if Rle_dec a b then true else false.

(** ** Canonical trade records (the dictionaries built by [normalize_trade]) *)

Record Trade := mkTrade {
  timestamp : R;
  market : string;
  asset : string;
  side : string;
  size : R;
  price : R
}.

(** Raw record: each loosely typed field is held as the outcome of the
    conversion the source applies to it.  [None] in a numeric field stands
    for a value on which [float(...)] (or [fromisoformat]) raises, which
    [normalize_trade] turns into a rejection; a missing [size] or [price]
    is [Some 0] (the [.get] default). *)
Record RawTrade := mkRaw {
  raw_timestamp : option R;
  raw_size : option R;
  raw_price : option R;
  raw_side : string;
  raw_market : option string;
  raw_conditionId : option string;
  raw_condition_id : option string;
  raw_marketId : option string;
  raw_asset : option string;
  raw_asset_id : option string;
  raw_assetId : option string;
  raw_outcome : option string
}.

(** [a or b] on optional strings: the first truthy operand, else the last. *)
Definition py_or (a b : option string) : option string :=
  match a with
  | Some s => if truthy s then a else b
  | None => b
  end.

(** [str(x) if x else 'unknown']. *)
Definition str_or_unknown (x : option string) : string :=
  match x with
  | Some s => if truthy s then s else "unknown"
  | None => "unknown"
  end.

Definition normalize_trade (raw : RawTrade) : option Trade :=
  match raw_timestamp raw with
  | None => None
  | Some ts =>
    match raw_size raw, raw_price raw with
    | Some size, Some price =>
      if Rle_dec size 0 then None
      else if Rle_dec price 0 then None
      else if Rlt_dec 1 price then None
      else
        let side := upper (raw_side raw) in
        if negb (str_in side ["BUY"; "SELL"]) then None
        else
          let market :=
            py_or (py_or (py_or (raw_market raw) (raw_conditionId raw))
                         (raw_condition_id raw)) (raw_marketId raw) in
          let asset :=
            py_or (py_or (py_or (raw_asset raw) (raw_asset_id raw))
                         (raw_assetId raw)) (raw_outcome raw) in
          Some {| timestamp := ts;
                  market := str_or_unknown market;
                  asset := str_or_unknown asset;
                  side := side;
                  size := size;
                  price := price |}
    | _, _ => None
    end
  end.

(** ** Resolution resolver: [fetch_market_resolution] and its cache *)

Inductive resolution_status := RESOLVED | UNRESOLVED.

(** The returned tuple [(resolution_status, winning_asset_id)]. *)
Definition resolution := (option resolution_status * option string)%type.

(** [_resolution_cache]: condition id to cached tuple. *)
Definition cache := list (string * resolution).

Fixpoint cache_get (c : cache) (k : string) : option resolution :=
  match c with
  | [] => None
  | (k', r) :: rest => if (k =? k')%string then Some r else cache_get rest k
  end.

(** [gateway] stands for the three exchange lookups (CLOB market, Gamma
    market, Gamma event) tried in turn; every path through them stores its
    answer under the condition id before returning it. *)
Definition fetch_market_resolution (gateway : string -> resolution)
    (c : cache) (condition_id asset_id : string) : resolution * cache :=
  if negb (truthy condition_id) || (condition_id =? "unknown")%string then
    ((None, None), c)
  else
    match cache_get c condition_id with
    | Some r => (r, c)
    | None =>
      let r := gateway condition_id in
      (r, (condition_id, r) :: c)
    end.

(** ** FIFO ledger *)

Definition _determine_token_type (asset_id : string) : string :=
  if negb (truthy asset_id) || (asset_id =? "unknown")%string then "UNKNOWN"
  else
    let asset_upper := upper asset_id in
    if str_in asset_upper ["YES"; "TRUE"; "1"] then "YES"
    else if str_in asset_upper ["NO"; "FALSE"; "0"] then "NO"
    else "UNKNOWN".

(** A lot of the queue: [(shares, cost_per_share)]. *)
Definition lot := (R * R)%type.

Definition lot_sizes (q : list lot) : list R := map fst q.
Definition lot_costs (q : list lot) : list R := map (fun l => fst l * snd l) q.

(** The [while sell_remaining > 0 and position_queue] loop.  Each round
    either pops the head lot or splits it and ends, so the recursion is on
    the queue.  Returns the queue, [sell_remaining] and [sell_cost]. *)
Fixpoint sell_loop (position_queue : list lot) (sell_remaining sell_cost : R)
  : list lot * R * R :=
  match position_queue with
  | [] => (position_queue, sell_remaining, sell_cost)
  | (lot_size, lot_price) :: rest =>
    if Rlt_dec 0 sell_remaining then
      if Rle_dec lot_size sell_remaining then
        sell_loop rest (sell_remaining - lot_size) (sell_cost + lot_size * lot_price)
      else
        ((lot_size - sell_remaining, lot_price) :: rest,
         0,
         sell_cost + sell_remaining * lot_price)
    else (position_queue, sell_remaining, sell_cost)
  end.

(** The loop-carried variables of the replay of one group. *)
Record Replay := mkReplay {
  position_queue : list lot;
  realized_pnl : R;
  total_volume : R
}.

Definition replay_init : Replay :=
  {| position_queue := []; realized_pnl := 0; total_volume := 0 |}.

Definition is_buy (trade : Trade) : bool := (side trade =? "BUY")%string.

(** Body of [for _, trade in trades.iterrows()]. *)
Definition replay_trade (st : Replay) (trade : Trade) : Replay :=
  let size := size trade in
  let price := price trade in
  let total_volume := total_volume st + size * price in
  if is_buy trade then
    {| position_queue := position_queue st ++ [(size, price)];
       realized_pnl := realized_pnl st;
       total_volume := total_volume |}
  else
    let sell_revenue := size * price in
    let '(queue, _, sell_cost) := sell_loop (position_queue st) size 0 in
    {| position_queue := queue;
       realized_pnl := realized_pnl st + (sell_revenue - sell_cost);
       total_volume := total_volume |}.

Definition replay_from (st : Replay) (trades : list Trade) : Replay :=
  fold_left replay_trade trades st.

Definition replay (trades : list Trade) : Replay := replay_from replay_init trades.

Definition remaining_shares (st : Replay) : R := sum (lot_sizes (position_queue st)).
Definition remaining_cost (st : Replay) : R := sum (lot_costs (position_queue st)).

(** [group.sort_values('timestamp')]: ascending timestamps; rows with equal
    timestamps keep their arrival order. *)
Fixpoint insert_by_timestamp (t : Trade) (sorted : list Trade) : list Trade :=
  match sorted with
  | [] => [t]
  | h :: rest =>
    if Rlt_dec (timestamp t) (timestamp h) then t :: sorted
    else h :: insert_by_timestamp t rest
  end.

Definition sort_values (rows : list Trade) : list Trade :=
  fold_left (fun sorted t => insert_by_timestamp t sorted) rows [].

(** [trades.iloc[-1][column]]; the frame of a group is never empty. *)
Definition iloc_last (column : Trade -> R) (trades : list Trade) : R :=
  last (map column trades) 0.

(** [trades_df.groupby(['market', 'asset'])]: one frame per distinct key,
    keys in ascending order, rows of a frame in their original order. *)
Definition group_key := (string * string)%type.

Definition key_of (t : Trade) : group_key := (market t, asset t).

Definition key_eqb (a b : group_key) : bool :=
  ((fst a =? fst b) && (snd a =? snd b))%string.

Definition key_leb (a b : group_key) : bool :=
  match String.compare (fst a) (fst b) with
  | Lt => true
  | Gt => false
  | Eq => String.leb (snd a) (snd b)
  end.

Fixpoint insert_key (k : group_key) (keys : list group_key) : list group_key :=
  match keys with
  | [] => [k]
  | k' :: rest =>
    if key_eqb k k' then keys
    else if key_leb k k' then k :: keys
    else k' :: insert_key k rest
  end.

Definition group_keys (df : list Trade) : list group_key :=
  fold_right insert_key [] (map key_of df).

Definition group_rows (df : list Trade) (k : group_key) : list Trade :=
  filter (fun t => key_eqb (key_of t) k) df.

Definition groupby (df : list Trade) : list (group_key * list Trade) :=
  map (fun k => (k, group_rows df k)) (group_keys df).

(** Entry of [market_results]. *)
Record MarketResult := mkMarketResult {
  mr_market : string;
  mr_asset : string;
  mr_token_type : string;
  mr_realized_pnl : R;
  mr_unrealized_pnl : R;
  mr_total_pnl : R;
  mr_position : R;
  mr_position_cost : R;
  mr_position_status : string;
  mr_volume : R;
  mr_trade_count : nat
}.

(** Entry of [current_positions]. *)
Record CurrentPosition := mkCurrentPosition {
  cp_market : string;
  cp_asset : string;
  cp_token_type : string;
  cp_size : R;
  cp_avg_price : R;
  cp_current_value : R;
  cp_last_trade_ts : R
}.

Record ResolutionStats := mkStats {
  resolved_won : nat;
  resolved_lost : nat;
  unresolved : nat;
  unknown : nat
}.

(** The [position_won] flag of a RESOLVED answer. *)
Definition position_won (asset_id token_type : string)
    (winning_asset : option string) : bool :=
  match winning_asset with
  | None => false
  | Some w =>
    if truthy w then
      if (asset_id =? w)%string then true
      else if (token_type =? "YES")%string && str_in (upper w) ["YES"; "1"; "TRUE"] then true
      else if (token_type =? "NO")%string && str_in (upper w) ["NO"; "0"; "FALSE"] then true
      else false
    else false
  end.

(** What one round of the group loop produces. *)
Record GroupOutcome := mkOutcome {
  go_result : MarketResult;
  go_position : option CurrentPosition;
  go_stats : ResolutionStats;
  go_cache : cache
}.

(** Body of [for idx, ((market_id, asset_id), group) in enumerate(groups)]. *)
Definition process_group (gateway : string -> resolution) (c : cache)
    (stats : ResolutionStats) (market_id asset_id : string)
    (group : list Trade) : GroupOutcome :=
  let trades := sort_values group in
  let token_type := _determine_token_type asset_id in
  let st := replay trades in
  let remaining_shares := remaining_shares st in
  let remaining_cost := remaining_cost st in
  let '(unrealized_pnl, position_status, stats, c, pos) :=
    if Rlt_dec 0.01 remaining_shares then
      let '(r, c) := fetch_market_resolution gateway c market_id asset_id in
      let '(unrealized_pnl, position_status, stats) :=
        match fst r with
        | Some RESOLVED =>
          if position_won asset_id token_type (snd r) then
            (remaining_shares * 1.0 - remaining_cost, "won",
             {| resolved_won := S (resolved_won stats);
                resolved_lost := resolved_lost stats;
                unresolved := unresolved stats;
                unknown := unknown stats |})
          else
            (0 - remaining_cost, "lost",
             {| resolved_won := resolved_won stats;
                resolved_lost := S (resolved_lost stats);
                unresolved := unresolved stats;
                unknown := unknown stats |})
        | Some UNRESOLVED =>
          let last_price := iloc_last price trades in
          (remaining_shares * last_price - remaining_cost, "open",
           {| resolved_won := resolved_won stats;
              resolved_lost := resolved_lost stats;
              unresolved := S (unresolved stats);
              unknown := unknown stats |})
        | None =>
          let last_price := iloc_last price trades in
          (remaining_shares * last_price - remaining_cost, "unknown",
           {| resolved_won := resolved_won stats;
              resolved_lost := resolved_lost stats;
              unresolved := unresolved stats;
              unknown := S (unknown stats) |})
        end in
      let pos :=
        if (position_status =? "open")%string then
          Some {| cp_market := market_id;
                  cp_asset := asset_id;
                  cp_token_type := token_type;
                  cp_size := remaining_shares;
                  cp_avg_price :=
                    if Rlt_dec 0 remaining_shares
                    then remaining_cost / remaining_shares else 0;
                  cp_current_value := unrealized_pnl + remaining_cost;
                  cp_last_trade_ts := iloc_last timestamp trades |}
        else None in
      (unrealized_pnl, position_status, stats, c, pos)
    else (0, "open", stats, c, None) in
  {| go_result :=
       {| mr_market := market_id;
          mr_asset := asset_id;
          mr_token_type := token_type;
          mr_realized_pnl := realized_pnl st;
          mr_unrealized_pnl := unrealized_pnl;
          mr_total_pnl := realized_pnl st + unrealized_pnl;
          mr_position := remaining_shares;
          mr_position_cost := remaining_cost;
          mr_position_status := position_status;
          mr_volume := total_volume st;
          mr_trade_count := List.length trades |};
     go_position := pos;
     go_stats := stats;
     go_cache := c |}.

(** [market_results[result_key] = ...] on an insertion-ordered dictionary:
    a key already present keeps its place and takes the new value. *)
Fixpoint dict_set {A : Type} (d : list (string * A)) (k : string) (v : A)
  : list (string * A) :=
  match d with
  | [] => [(k, v)]
  | (k', v') :: rest =>
    if (k =? k')%string then (k, v) :: rest else (k', v') :: dict_set rest k v
  end.

Definition dict_values {A : Type} (d : list (string * A)) : list A := map snd d.

(** The f-string [f"{market_id}:{asset_id}"]. *)
Definition result_key (market_id asset_id : string) : string :=
  market_id ++ ":" ++ asset_id.

(** The three returned values together with the cache left behind. *)
Record Ledger := mkLedger {
  market_results : list (string * MarketResult);
  resolution_stats : ResolutionStats;
  current_positions : list CurrentPosition;
  resolution_cache : cache
}.

Definition ledger_step (gateway : string -> resolution) (L : Ledger)
    (g : group_key * list Trade) : Ledger :=
  let '((market_id, asset_id), group) := g in
  let o := process_group gateway (resolution_cache L) (resolution_stats L)
                         market_id asset_id group in
  {| market_results :=
       dict_set (market_results L) (result_key market_id asset_id) (go_result o);
     resolution_stats := go_stats o;
     current_positions :=
       match go_position o with
       | Some p => current_positions L ++ [p]
       | None => current_positions L
       end;
     resolution_cache := go_cache o |}.

Definition calculate_fifo_pnl_with_resolution (gateway : string -> resolution)
    (c : cache) (trades_df : list Trade) : Ledger :=
  fold_left (ledger_step gateway) (groupby trades_df)
    {| market_results := [];
       resolution_stats :=
         {| resolved_won := 0; resolved_lost := 0; unresolved := 0; unknown := 0 |};
       current_positions := [];
       resolution_cache := c |}.

(** ** Trader metrics aggregator *)

(** Configuration constants of the source. *)
Definition COPY_PORTFOLIO_BALANCE : R := 150.
Definition MIN_TRADES : nat := 10.
Definition MIN_WIN_RATE : R := 0.50.
Definition MIN_MARKETS : nat := 3.
Definition MAX_AVG_TRADE_SIZE : R := 5000.
Definition MAX_AVG_BUY_PRICE : R := 0.98.
Definition MIN_ROI : R := 0.05.
Definition MIN_SCORE : R := 5.
Definition RECENCY_HALF_LIFE_DAYS : R := 30.

(** pandas / numpy / math operations on columns. *)
Definition len {A : Type} (xs : list A) : R := INR (List.length xs).

Definition mean (xs : list R) : R := sum xs / len xs.

Fixpoint insert_sorted (x : R) (sorted : list R) : list R :=
  match sorted with
  | [] => [x]
  | h :: rest => if Rle_dec x h then x :: sorted else h :: insert_sorted x rest
  end.

Definition sorted_values (xs : list R) : list R := fold_right insert_sorted [] xs.

(** [Series.median] / [np.median]: the middle of the sorted values, or the
    mean of the two middle ones. *)
Definition median (xs : list R) : R :=
  let s := sorted_values xs in
  let n := List.length s in
  if Nat.even n then (nth (n / 2 - 1) s 0 + nth (n / 2) s 0) / 2
  else nth (n / 2) s 0.

(** [np.std]: population standard deviation. *)
Definition np_std (xs : list R) : R :=
  let m := mean xs in
  sqrt (mean (map (fun x => (x - m) * (x - m)) xs)).

Fixpoint np_diff (xs : list R) : list R :=
  match xs with
  | a :: (b :: _) as rest => (b - a) :: np_diff rest
  | _ => []
  end.

Definition nunique (xs : list string) : nat :=
  List.length (nodup string_dec xs).

Definition column_min (xs : list R) : R :=
  match xs with [] => 0 | x :: rest => fold_left Rmin rest x end.

Definition column_max (xs : list R) : R :=
  match xs with [] => 0 | x :: rest => fold_left Rmax rest x end.

Definition count_if (p : R -> bool) (xs : list R) : nat :=
  List.length (filter p xs).

Definition log10 (x : R) : R := ln x / ln 10.

(** [round(x, ndigits)]: to the nearest multiple of [10^-ndigits], ties to
    the even one. *)
Definition py_round (x : R) (ndigits : nat) : R :=
  let y := x * 10 ^ ndigits in
  let f := Int_part y in
  let r := y - IZR f in
  let n := if Rlt_dec r (1 / 2) then f
           else if Rlt_dec (1 / 2) r then (f + 1)%Z
           else if Z.even f then f else (f + 1)%Z in
  IZR n / 10 ^ ndigits.

(** The exit taken by [analyze_trader] when it returns [None] (the message
    it prints under [verbose]). *)
Inductive Filtered :=
| FewTrades | FewMarkets | Scalper | Whale | NoCapitalDeployed
| NoClosedPositions | LowWinRate | LowRoi | LowScore.

(** The local variables of [analyze_trader] at its final [return]. *)
Record Analysis := mkAnalysis {
  a_normalized : list Trade;
  a_unique_markets : nat;
  a_avg_buy_price : R;
  a_avg_trade_size : R;
  a_capital_deployed : R;
  a_market_pnl : list (string * MarketResult);
  a_resolution_stats : ResolutionStats;
  a_current_positions : list CurrentPosition;
  a_profitable_markets : nat;
  a_losing_markets : nat;
  a_win_rate : R;
  a_total_pnl : R;
  a_total_volume : R;
  a_roi : R;
  a_market_returns : list R;
  a_sharpe : R;
  a_active_days : R;
  a_days_since_active : R;
  a_recency : R;
  a_median_gap_seconds : R;
  a_rapid_trade_pct : R;
  a_very_rapid_pct : R;
  a_latency_risk : string;
  a_annualized_roi : R;
  a_median_trade : R;
  a_score : R
}.

(** The returned dictionary. *)
Record TraderMetrics := mkTraderMetrics {
  tm_address : string;
  tm_score : R;
  tm_roi_pct : R;
  tm_annualized_roi_pct : R;
  tm_win_rate : R;
  tm_sharpe : R;
  tm_total_pnl : R;
  tm_capital_deployed : R;
  tm_volume : R;
  tm_trades : nat;
  tm_markets : nat;
  tm_profitable_markets : nat;
  tm_losing_markets : nat;
  tm_avg_buy_price : R;
  tm_median_trade : R;
  tm_avg_trade : R;
  tm_active_days : R;
  tm_days_inactive : R;
  tm_recency : R;
  tm_resolution_stats : ResolutionStats;
  tm_current_positions : list CurrentPosition;
  tm_latency_risk : string;
  tm_median_trade_gap_seconds : R;
  tm_rapid_trade_pct : R;
  tm_very_rapid_trade_pct : R
}.

Definition normalized_trades (trades : list RawTrade) : list Trade :=
  flat_map (fun t => match normalize_trade t with Some n => [n] | None => [] end)
           trades.

Definition trade_value (t : Trade) : R := size t * price t.

(** Sharpe block of [analyze_trader]. *)
Definition sharpe_of (market_returns : list R) : R :=
  if (1 <? List.length market_returns)%nat then
    let avg_return := mean market_returns in
    let std_return := np_std market_returns in
    if Rlt_dec 0 std_return then avg_return / std_return else 0
  else 0.

(** Recency factor of [analyze_trader]. *)
Definition recency_of (days_since_active : R) : R :=
  Rmax (exp (- 0.693 * days_since_active / RECENCY_HALF_LIFE_DAYS)) 0.05.

(** Composite score of [analyze_trader]. *)
Definition score_of (roi win_rate sharpe : R) (n_trades : nat)
    (median_trade recency : R) : R :=
  (Rmin (roi * 100) 200 * 0.25 +
   win_rate * 100 * 0.25 +
   Rmax sharpe (-2) * 15 * 0.20 +
   log10 (INR n_trades + 1) * 15 * 0.15 +
   (100 / (median_trade + 50)) * 20 * 0.15) * recency.

(** [analyze_trader] up to its exits.  [now] is the value of [time.time()];
    the cache left behind by the ledger is returned along. *)
Definition analyze_trader_locals (gateway : string -> resolution) (c : cache)
    (now : R) (trades : list RawTrade) : (Filtered + Analysis) * cache :=
  let normalized := normalized_trades trades in
  if (List.length normalized <? MIN_TRADES)%nat then (inl FewTrades, c) else
  let df := normalized in
  let unique_markets := nunique (map market df) in
  if (unique_markets <? MIN_MARKETS)%nat then (inl FewMarkets, c) else
  let buys := filter is_buy df in
  let avg_buy_price :=
    match buys with [] => 1.0 | _ => mean (map price buys) end in
  if Rlt_dec MAX_AVG_BUY_PRICE avg_buy_price then (inl Scalper, c) else
  let trade_values := map trade_value df in
  let avg_trade_size := mean trade_values in
  if Rlt_dec MAX_AVG_TRADE_SIZE avg_trade_size then (inl Whale, c) else
  let capital_deployed := sum (map trade_value buys) in
  if Rle_dec capital_deployed 0 then (inl NoCapitalDeployed, c) else
  let L := calculate_fifo_pnl_with_resolution gateway c df in
  let market_pnl := market_results L in
  let c := resolution_cache L in
  let totals := map mr_total_pnl (dict_values market_pnl) in
  let profitable_markets := count_if (fun x => Rltb 0 x) totals in
  let losing_markets := count_if (fun x => Rltb x 0) totals in
  let total_decided := (profitable_markets + losing_markets)%nat in
  if (total_decided =? 0)%nat then (inl NoClosedPositions, c) else
  let win_rate := INR profitable_markets / INR total_decided in
  if Rlt_dec win_rate MIN_WIN_RATE then (inl LowWinRate, c) else
  let total_pnl := sum totals in
  let total_volume := sum (map mr_volume (dict_values market_pnl)) in
  let roi := if Rlt_dec 0 capital_deployed then total_pnl / capital_deployed else 0 in
  let effective_min_roi :=
    if Rle_dec 0.90 win_rate then 0.0
    else if Rle_dec 0.80 win_rate then MIN_ROI * 0.25
    else if Rle_dec 0.70 win_rate then MIN_ROI * 0.5
    else MIN_ROI in
  if Rlt_dec roi effective_min_roi then (inl LowRoi, c) else
  let market_returns :=
    map mr_total_pnl
        (filter (fun m => (0 <? mr_trade_count m)%nat) (dict_values market_pnl)) in
  let sharpe := sharpe_of market_returns in
  let first_ts := column_min (map timestamp df) in
  let last_ts := column_max (map timestamp df) in
  let active_days := Rmax ((last_ts - first_ts) / 86400) 1 in
  let days_since_active := (now - last_ts) / 86400 in
  let recency := recency_of days_since_active in
  let sorted_timestamps := sorted_values (map timestamp df) in
  let '(median_gap_seconds, rapid_trade_pct, very_rapid_pct) :=
    if (1 <? List.length sorted_timestamps)%nat then
      let time_gaps := np_diff sorted_timestamps in
      let rapid_trades := count_if (fun g => Rltb g 60) time_gaps in
      let very_rapid_trades := count_if (fun g => Rltb g 10) time_gaps in
      (median time_gaps,
       if (0 <? List.length time_gaps)%nat then INR rapid_trades / len time_gaps else 0,
       if (0 <? List.length time_gaps)%nat then INR very_rapid_trades / len time_gaps else 0)
    else (86400.0, 0.0, 0.0) in
  let latency_risk :=
    if Rltb 0.10 very_rapid_pct || Rltb 0.30 rapid_trade_pct then "HIGH"
    else if Rltb 0.10 rapid_trade_pct then "MEDIUM"
    else "LOW" in
  let annualized_roi :=
    if Rltb 0 roi && Rleb 7 active_days
    then Rmin (Rpower (1 + roi) (365 / active_days) - 1) 20
    else roi in
  let median_trade := median trade_values in
  let score :=
    score_of roi win_rate sharpe (List.length df) median_trade recency in
  if Rlt_dec score MIN_SCORE then (inl LowScore, c) else
  (inr {| a_normalized := normalized;
          a_unique_markets := unique_markets;
          a_avg_buy_price := avg_buy_price;
          a_avg_trade_size := avg_trade_size;
          a_capital_deployed := capital_deployed;
          a_market_pnl := market_pnl;
          a_resolution_stats := resolution_stats L;
          a_current_positions := current_positions L;
          a_profitable_markets := profitable_markets;
          a_losing_markets := losing_markets;
          a_win_rate := win_rate;
          a_total_pnl := total_pnl;
          a_total_volume := total_volume;
          a_roi := roi;
          a_market_returns := market_returns;
          a_sharpe := sharpe;
          a_active_days := active_days;
          a_days_since_active := days_since_active;
          a_recency := recency;
          a_median_gap_seconds := median_gap_seconds;
          a_rapid_trade_pct := rapid_trade_pct;
          a_very_rapid_pct := very_rapid_pct;
          a_latency_risk := latency_risk;
          a_annualized_roi := annualized_roi;
          a_median_trade := median_trade;
          a_score := score |}, c).

(** The dictionary literal of the final [return]. *)
Definition metrics_dict (address : string) (a : Analysis) : TraderMetrics :=
  {| tm_address := address;
     tm_score := py_round (a_score a) 2;
     tm_roi_pct := py_round (a_roi a * 100) 2;
     tm_annualized_roi_pct := py_round (a_annualized_roi a * 100) 1;
     tm_win_rate := py_round (a_win_rate a) 3;
     tm_sharpe := py_round (a_sharpe a) 3;
     tm_total_pnl := py_round (a_total_pnl a) 2;
     tm_capital_deployed := py_round (a_capital_deployed a) 2;
     tm_volume := py_round (a_total_volume a) 2;
     tm_trades := List.length (a_normalized a);
     tm_markets := a_unique_markets a;
     tm_profitable_markets := a_profitable_markets a;
     tm_losing_markets := a_losing_markets a;
     tm_avg_buy_price := py_round (a_avg_buy_price a) 3;
     tm_median_trade := py_round (a_median_trade a) 2;
     tm_avg_trade := py_round (a_avg_trade_size a) 2;
     tm_active_days := py_round (a_active_days a) 1;
     tm_days_inactive := py_round (a_days_since_active a) 1;
     tm_recency := py_round (a_recency a) 3;
     tm_resolution_stats := a_resolution_stats a;
     tm_current_positions := a_current_positions a;
     tm_latency_risk := a_latency_risk a;
     tm_median_trade_gap_seconds := py_round (a_median_gap_seconds a) 1;
     tm_rapid_trade_pct := py_round (a_rapid_trade_pct a * 100) 1;
     tm_very_rapid_trade_pct := py_round (a_very_rapid_pct a * 100) 1 |}.

Definition analyze_trader (gateway : string -> resolution) (c : cache)
    (now : R) (address : string) (trades : list RawTrade)
  : option TraderMetrics * cache :=
  match analyze_trader_locals gateway c now trades with
  | (inl _, c) => (None, c)
  | (inr a, c) => (Some (metrics_dict address a), c)
  end.

(** ** Strategy recommender *)

(** The keys of [metrics] that [recommend_copy_strategy] reads; [None] is a
    missing key, for which [.get] supplies the default. *)
Record Metrics := mkMetrics {
  m_latency_risk : option string;
  m_avg_trade : option R;
  m_median_trade : option R;
  m_win_rate : option R;
  m_sharpe : option R;
  m_roi_pct : option R;
  m_trades : option R;
  m_capital_deployed : option R;
  m_active_days : option R
}.

Definition get {A : Type} (v : option A) (default : A) : A :=
  match v with Some x => x | None => default end.

(** The dictionary returned by [analyze_trader], as read by the recommender. *)
Definition metrics_of (tm : TraderMetrics) : Metrics :=
  {| m_latency_risk := Some (tm_latency_risk tm);
     m_avg_trade := Some (tm_avg_trade tm);
     m_median_trade := Some (tm_median_trade tm);
     m_win_rate := Some (tm_win_rate tm);
     m_sharpe := Some (tm_sharpe tm);
     m_roi_pct := Some (tm_roi_pct tm);
     m_trades := Some (INR (tm_trades tm));
     m_capital_deployed := Some (tm_capital_deployed tm);
     m_active_days := Some (tm_active_days tm) |}.

(** The texts appended to [reasons] and [warnings], with the numbers they
    interpolate. *)
Inductive Message :=
| MsgHighLatency | MsgMayNotFill | MsgMediumLatency | MsgLowLatency
| MsgAvgTradeLarge (avg_trade : R)
| MsgSimilarCapital (suggested_size : R)
| MsgTooSmall (est_trade_val : R)
| MsgScaleDown (our_vs_trader_ratio : R)
| MsgMoreCapital
| MsgLimitMinimum | MsgMarketMinimum
| MsgElite | MsgWinRate70 | MsgConservative
| MsgHighDailyUsage (daily_capital : R)
| MsgAdaptive
| MsgCompounding (win_rate : R)
| MsgCompoundingStart (base_size reinvestment_rate max_multiplier : R).

Record CompoundingParams := mkCompounding {
  base_size : R;
  reinvestment_rate : R;
  profit_tier_increment : R;
  size_increase_per_tier : R;
  max_size_multiplier : R;
  drawdown_halve_threshold : R;
  drawdown_reset_threshold : R;
  drawdown_pause_threshold : R
}.

(** The dictionary [rec]; an empty [compounding_params] is [None]. *)
Record Recommendation := mkRecommendation {
  primary_strategy : option string;
  order_type : string;
  sizing_method : string;
  suggested_size : R;
  max_position_pct : R;
  reasons : list Message;
  warnings : list Message;
  expected_trades_per_day : R;
  expected_capital_usage : R;
  compounding_recommended : bool;
  compounding_params : option CompoundingParams
}.

(** The fixed-size percentage shared by the two fixed-amount branches. *)
Definition fixed_size_pct (win_rate : R) : R :=
  let base_pct := 0.05 in
  if Rlt_dec 0.5 win_rate then base_pct + (win_rate - 0.5) * 0.4 else base_pct.

(** Step 1: order type, with the reasons and warnings it appends. *)
Definition step_order_type (latency_risk : string)
  : string * list Message * list Message :=
  if (latency_risk =? "HIGH")%string then ("limit", [MsgHighLatency], [MsgMayNotFill])
  else if (latency_risk =? "MEDIUM")%string then ("hybrid", [MsgMediumLatency], [])
  else ("market", [MsgLowLatency], []).

(** Step 2: sizing method, suggested size and the reason appended. *)
Definition step_sizing (avg_trade win_rate trader_capital portfolio_balance : R)
  : string * R * list Message :=
  let our_vs_trader_ratio :=
    if Rlt_dec 0 trader_capital then portfolio_balance / trader_capital else 0.01 in
  if Rlt_dec (portfolio_balance * 0.4) avg_trade then
    let size_pct := fixed_size_pct win_rate in
    ("fixed_amount", Rmax 1.0 (portfolio_balance * size_pct),
     [MsgAvgTradeLarge avg_trade])
  else if Rltb 0.5 our_vs_trader_ratio && Rltb our_vs_trader_ratio 2.0 then
    let suggested_size := Rmin 1.0 our_vs_trader_ratio in
    ("pct_of_trade", suggested_size, [MsgSimilarCapital suggested_size])
  else if Rlt_dec our_vs_trader_ratio 0.5 then
    let suggested_size := our_vs_trader_ratio in
    let est_trade_val := avg_trade * suggested_size in
    if Rlt_dec est_trade_val 2.0 then
      let size_pct := fixed_size_pct win_rate in
      ("fixed_amount", Rmax 2.0 (portfolio_balance * size_pct),
       [MsgTooSmall est_trade_val])
    else ("pct_of_trade", suggested_size, [MsgScaleDown our_vs_trader_ratio])
  else
    ("fixed_amount", Rmin avg_trade (portfolio_balance * 0.05), [MsgMoreCapital]).

(** Step 3: order-type minimums. *)
Definition step_minimum (order_type sizing_method : string) (suggested_size : R)
  : R * list Message * list Message :=
  if (order_type =? "limit")%string then
    (if (sizing_method =? "fixed_amount")%string && Rltb suggested_size 0.01
     then 0.01 else suggested_size,
     [MsgLimitMinimum], [])
  else
    if (sizing_method =? "fixed_amount")%string && Rltb suggested_size 1.0
    then (1.0, [], [MsgMarketMinimum])
    else (suggested_size, [], []).

(** Step 4: maximum position percentage. *)
Definition step_max_position (sharpe win_rate : R)
  : R * list Message * list Message :=
  if Rltb 1.0 sharpe && Rltb 0.6 win_rate then (25.0, [MsgElite], [])
  else if Rltb 0.7 win_rate then (30.0, [MsgWinRate70], [])
  else if Rltb 0.5 sharpe && Rltb 0.55 win_rate then (15.0, [], [])
  else if Rltb 0 sharpe && Rltb 0.52 win_rate then (10.0, [], [])
  else (5.0, [], [MsgConservative]).

(** Step 5: trading frequency and capital usage. *)
Definition step_usage (active_days trades_count avg_trade portfolio_balance : R)
    (sizing_method : string) (suggested_size : R) : R * R * list Message :=
  if Rlt_dec 0 active_days then
    let trades_per_day := trades_count / active_days in
    let daily_capital :=
      if (sizing_method =? "fixed_amount")%string
      then trades_per_day * suggested_size
      else trades_per_day * avg_trade * suggested_size in
    (py_round trades_per_day 1, py_round daily_capital 2,
     if Rlt_dec (portfolio_balance * 0.5) daily_capital
     then [MsgHighDailyUsage daily_capital] else [])
  else (0, 0, []).

(** Step 6: primary strategy label. *)
Definition step_primary (order_type sizing_method : string)
  : option string * list Message :=
  if ((order_type =? "limit") && (sizing_method =? "fixed_amount"))%string
  then (Some "limit_fixed", [])
  else if ((order_type =? "limit") && (sizing_method =? "pct_of_trade"))%string
  then (Some "limit_proportional", [])
  else if ((order_type =? "market") && (sizing_method =? "fixed_amount"))%string
  then (Some "market_fixed", [])
  else if ((order_type =? "market") && (sizing_method =? "pct_of_trade"))%string
  then (Some "market_proportional", [])
  else if (order_type =? "hybrid")%string then (Some "adaptive", [MsgAdaptive])
  else (None, []).

(** Step 7, inner choice: [(base_size_pct, reinvestment_rate,
    tier_increment, size_increase, max_multiplier)] by win rate. *)
Definition compounding_tier (win_rate : R) : R * R * R * R * R :=
  if Rle_dec 0.75 win_rate then (0.05, 0.60, 15.0, 0.30, 5.0)
  else if Rle_dec 0.65 win_rate then (0.04, 0.50, 20.0, 0.25, 4.0)
  else (0.03, 0.40, 25.0, 0.20, 3.0).

(** Step 7: compounding overlay. *)
Definition step_compounding (win_rate sharpe portfolio_balance : R)
  : bool * option CompoundingParams * list Message :=
  if Rleb 0.60 win_rate && Rltb 0 sharpe then
    let '(base_size_pct, reinvestment_rate, tier_increment, size_increase,
          max_multiplier) := compounding_tier win_rate in
    let base_size := portfolio_balance * base_size_pct in
    (true,
     Some {| base_size := py_round base_size 2;
             reinvestment_rate := reinvestment_rate;
             profit_tier_increment := tier_increment;
             size_increase_per_tier := size_increase;
             max_size_multiplier := max_multiplier;
             drawdown_halve_threshold := 0.20;
             drawdown_reset_threshold := 0.40;
             drawdown_pause_threshold := 0.60 |},
     [MsgCompounding win_rate;
      MsgCompoundingStart base_size reinvestment_rate max_multiplier])
  else (false, None, []).

Definition recommend_copy_strategy (metrics : Metrics) (portfolio_balance : R)
  : Recommendation :=
  let latency_risk := get (m_latency_risk metrics) "LOW" in
  let avg_trade := get (m_avg_trade metrics) 50 in
  let win_rate := get (m_win_rate metrics) 0.5 in
  let sharpe := get (m_sharpe metrics) 0 in
  let trades_count := get (m_trades metrics) 0 in
  let '(order_type, reasons1, warnings1) := step_order_type latency_risk in
  let trader_capital := get (m_capital_deployed metrics) 1000 in
  let '(sizing_method, suggested_size, reasons2) :=
    step_sizing avg_trade win_rate trader_capital portfolio_balance in
  let '(suggested_size, reasons3, warnings3) :=
    step_minimum order_type sizing_method suggested_size in
  let '(max_position_pct, reasons4, warnings4) :=
    step_max_position sharpe win_rate in
  let active_days := get (m_active_days metrics) 30 in
  let '(expected_trades_per_day, expected_capital_usage, warnings5) :=
    step_usage active_days trades_count avg_trade portfolio_balance
               sizing_method suggested_size in
  let '(primary_strategy, reasons6) := step_primary order_type sizing_method in
  let '(compounding_recommended, compounding_params, reasons7) :=
    step_compounding win_rate sharpe portfolio_balance in
  {| primary_strategy := primary_strategy;
     order_type := order_type;
     sizing_method := sizing_method;
     suggested_size := suggested_size;
     max_position_pct := max_position_pct;
     reasons := reasons1 ++ reasons2 ++ reasons3 ++ reasons4 ++ reasons6 ++ reasons7;
     warnings := warnings1 ++ warnings3 ++ warnings4 ++ warnings5;
     expected_trades_per_day := expected_trades_per_day;
     expected_capital_usage := expected_capital_usage;
     compounding_recommended := compounding_recommended;
     compounding_params := compounding_params |}.

(** ** Vocabulary of the specification *)

(** A trade as the normalizer lets it through. *)
Definition valid_trade (t : Trade) : Prop :=
  0 < size t /\ 0 < price t /\ price t <= 1.

Definition is_sell (t : Trade) : bool := negb (is_buy t).

Definition buy_sizes (trades : list Trade) : list R := map size (filter is_buy trades).
Definition sell_sizes (trades : list Trade) : list R := map size (filter is_sell trades).
Definition buy_costs (trades : list Trade) : list R :=
  map trade_value (filter is_buy trades).
Definition sell_revenues (trades : list Trade) : list R :=
  map trade_value (filter is_sell trades).

(** What the matching loop leaves of a sell of [t] met in state [st]. *)
Definition sell_queue (st : Replay) (t : Trade) : list lot :=
  fst (fst (sell_loop (position_queue st) (size t) 0)).
Definition sell_unmatched (st : Replay) (t : Trade) : R :=
  snd (fst (sell_loop (position_queue st) (size t) 0)).
Definition sell_cost (st : Replay) (t : Trade) : R :=
  snd (sell_loop (position_queue st) (size t) 0).

(** Sell volume actually matched against lots while replaying [trades]
    from [st]. *)
Fixpoint matched_volume (st : Replay) (trades : list Trade) : R :=
  match trades with
  | [] => 0
  | t :: rest =>
    (if is_buy t then 0 else size t - sell_unmatched st t)
    + matched_volume (replay_trade st t) rest
  end.

(** No sell asks for more than the shares held when it is replayed. *)
Fixpoint never_oversold (st : Replay) (trades : list Trade) : Prop :=
  match trades with
  | [] => True
  | t :: rest =>
    (is_buy t = false -> size t <= remaining_shares st)
    /\ never_oversold (replay_trade st t) rest
  end.

Definition lot_positive (l : lot) : Prop := 0 < fst l.
Definition lot_priced (l : lot) : Prop := 0 < fst l /\ 0 < snd l.

(** The winner carried by a RESOLVED answer, if any: the source takes a
    missing or empty [winning_asset] for "no winner". *)
Definition winner_of (r : resolution) : option string :=
  match snd r with
  | Some w => if truthy w then Some w else None
  | None => None
  end.

Definition yes_label (w : string) : Prop := In (upper w) ["YES"; "1"; "TRUE"].
Definition no_label (w : string) : Prop := In (upper w) ["NO"; "0"; "FALSE"].

(** The winning rule in the words of the specification. *)
Definition spec_won (asset_id token_class : string) (r : resolution) : Prop :=
  exists w, winner_of r = Some w /\
    (asset_id = w
     \/ (token_class = "YES" /\ yes_label w)
     \/ (token_class = "NO" /\ no_label w)).

(** The composite score in the words of the specification. *)
Definition spec_score (recencyWeight ROI winRate sharpe : R) (tradeCount : nat)
    (medianTradeValue : R) : R :=
  recencyWeight *
  (0.25 * Rmin (ROI * 100) 200 + 0.25 * winRate * 100
   + 0.20 * Rmax sharpe (-2) * 15
   + 0.15 * log10 (INR tradeCount + 1) * 15
   + 0.15 * (100 / (medianTradeValue + 50)) * 20).

(** The recency weight in the words of the specification. *)
Definition spec_recency (daysInactive halfLifeDays : R) : R :=
  Rmax (exp (- ln 2 * daysInactive / halfLifeDays)) 0.05.

(** The four cheap eligibility filters that run before the ledger. *)
Definition prefilters_pass (df : list Trade) : Prop :=
  (MIN_TRADES <= List.length df)%nat
  /\ (MIN_MARKETS <= nunique (map market df))%nat
  /\ match filter is_buy df with
     | [] => 1.0
     | b :: buys => mean (map price (b :: buys))
     end <= MAX_AVG_BUY_PRICE
  /\ mean (map trade_value df) <= MAX_AVG_TRADE_SIZE.

(** Decided groups: total PnL different from zero. *)
Definition decided (totals : list R) : list R :=
  filter (fun x => Rltb 0 x || Rltb x 0) totals.

(** ** Trade history: [fetch_trade_history] *)

(** [api_get] on the trades endpoint for one address, as a function of the
    requested [limit] and [offset]: [None] stands for a request that failed
    after its retries. *)
Definition page_api := nat -> nat -> option (list RawTrade).

(** The [while len(all_trades) < limit] loop of [fetch_trade_history].  Every
    round that goes on has added at least one trade, so [limit] rounds are
    enough; [rounds] bounds the recursion. *)
Fixpoint fetch_loop (api : page_api) (limit rounds : nat)
    (all_trades : list RawTrade) (offset : nat) : list RawTrade :=
  match rounds with
  | O => all_trades
  | S rounds =>
    if (List.length all_trades <? limit)%nat then
      let batch_size := Nat.min 100 (limit - List.length all_trades) in
      match api batch_size offset with
      | None => all_trades
      | Some [] => all_trades
      | Some data =>
        let all_trades := (all_trades ++ data)%list in
        if (List.length data <? batch_size)%nat then all_trades
        else fetch_loop api limit rounds all_trades (offset + List.length data)
      end
    else all_trades
  end.

Definition fetch_trade_history (api : page_api) (limit : nat) : list RawTrade :=
  fetch_loop api limit limit [] 0.

(** ** Verdict of [print_trader_detail] *)

(** The verdict printed by [print_trader_detail]. *)
Definition VERDICT_STRONG_MIN_SCORE : R := 40.
Definition VERDICT_STRONG_MIN_WIN_RATE : R := 0.55.
Definition VERDICT_STRONG_MIN_SHARPE : R := 0.0.
Definition VERDICT_MODERATE_MIN_SCORE : R := 25.
Definition VERDICT_MODERATE_MIN_WIN_RATE : R := 0.52.

Inductive Verdict := STRONG | MODERATE | NOT_RECOMMENDED.

Definition verdict (metrics : TraderMetrics) : Verdict :=
  if Rleb VERDICT_STRONG_MIN_SCORE (tm_score metrics)
     && Rleb VERDICT_STRONG_MIN_WIN_RATE (tm_win_rate metrics)
     && Rltb VERDICT_STRONG_MIN_SHARPE (tm_sharpe metrics)
  then STRONG
  else if Rleb VERDICT_MODERATE_MIN_SCORE (tm_score metrics)
          && Rleb VERDICT_MODERATE_MIN_WIN_RATE (tm_win_rate metrics)
  then MODERATE
  else NOT_RECOMMENDED.

(** ** Candidate loop of [run_leaderboard_analysis] *)

(** [results.sort(key=lambda x: x['score'], reverse=True)]: descending
    scores, equal scores in their order of arrival. *)
Fixpoint insert_by_score (m : TraderMetrics) (sorted : list TraderMetrics)
  : list TraderMetrics :=
  match sorted with
  | [] => [m]
  | h :: rest =>
    if Rlt_dec (tm_score h) (tm_score m) then m :: sorted
    else h :: insert_by_score m rest
  end.

Definition sort_by_score (results : list TraderMetrics) : list TraderMetrics :=
  fold_left (fun sorted m => insert_by_score m sorted) results [].

(** The state of the candidate loop of [run_leaderboard_analysis]. *)
Record Board := mkBoard {
  results : list TraderMetrics;
  filtered_count : nat;
  no_data_count : nat;
  board_cache : cache
}.

(** Body of [for i, candidate in enumerate(candidates, 1)]: [api addr] is
    the trades endpoint for [addr], [clock i] the value of [time.time()]
    when candidate [i] is analysed. *)
Definition board_step (gateway : string -> resolution)
    (api : string -> page_api) (clock : nat -> R) (b : Board)
    (candidate : nat * string) : Board :=
  let '(i, addr) := candidate in
  let trades := fetch_trade_history (api addr) 500 in
  match trades with
  | [] =>
    {| results := results b;
       filtered_count := filtered_count b;
       no_data_count := S (no_data_count b);
       board_cache := board_cache b |}
  | _ :: _ =>
    match analyze_trader gateway (board_cache b) (clock i) addr trades with
    | (Some metrics, c) =>
      {| results := results b ++ [metrics];
         filtered_count := filtered_count b;
         no_data_count := no_data_count b;
         board_cache := c |}
    | (None, c) =>
      {| results := results b;
         filtered_count := S (filtered_count b);
         no_data_count := no_data_count b;
         board_cache := c |}
    end
  end.

(** [enumerate(candidates, 1)]. *)
Definition enumerate {A : Type} (l : list A) : list (nat * A) :=
  combine (seq 1 (List.length l)) l.

(** [run_leaderboard_analysis] up to the sort: the ranked results, the two
    counters and the cache left behind; [candidates] are the addresses
    returned by [fetch_top_traders]. *)
Definition run_leaderboard_analysis (gateway : string -> resolution)
    (api : string -> page_api) (clock : nat -> R) (c : cache)
    (candidates : list string) : Board :=
  let b := fold_left (board_step gateway api clock) (enumerate candidates)
             {| results := []; filtered_count := 0; no_data_count := 0;
                board_cache := c |} in
  {| results := sort_by_score (results b);
     filtered_count := filtered_count b;
     no_data_count := no_data_count b;
     board_cache := board_cache b |}.

(** ** Further vocabulary for the properties *)

Definition timestamp_le (a b : Trade) : Prop := timestamp a <= timestamp b.

(** Number of groups the resolver was asked about. *)
Definition stats_total (s : ResolutionStats) : nat :=
  (resolved_won s + resolved_lost s + unresolved s + unknown s)%nat.

(** A group that keeps a material position. *)
Definition holds_position (g : group_key * list Trade) : bool :=
  Rltb 0.01 (remaining_shares (replay (sort_values (snd g)))).

Definition emitted (p : option CurrentPosition) : nat :=
  match p with Some _ => 1%nat | None => 0%nat end.

(** An exchange that pages faithfully through the history [h]. *)
Definition paged (h : list RawTrade) : page_api :=
  fun batch_size offset => Some (firstn batch_size (skipn offset h)).

(** Strict order of the group keys: by market, then by asset. *)
Definition key_lt (a b : group_key) : Prop :=
  key_leb a b = true /\ a <> b.

(** Descending by score. *)
Definition score_ge (a b : TraderMetrics) : Prop := tm_score b <= tm_score a.

(** ** Sample inputs *)

Definition T (ts : R) (sd : string) (sz pr : R) : Trade :=
  mkTrade ts "m" "a" sd sz pr.

Definition scenario1 : list Trade :=
  [T 1 "BUY" 10 0.40; T 2 "BUY" 10 0.60; T 3 "SELL" 15 0.70].

Definition oversell : list Trade := [T 1 "BUY" 10 0.40; T 2 "SELL" 15 0.70].

Definition held_wins (k : string) : resolution := (Some RESOLVED, Some "a").
Definition stats0 : ResolutionStats := mkStats 0 0 0 0.

Definition closed_group : list Trade := [T 1 "BUY" 10 0.40; T 2 "SELL" 10 0.70].

Definition scenario3 : Metrics :=
  {| m_latency_risk := Some "LOW"; m_avg_trade := Some 2000;
     m_median_trade := Some 2000; m_win_rate := Some 0.65;
     m_sharpe := Some 0.5; m_roi_pct := Some 10; m_trades := Some 40;
     m_capital_deployed := Some 80000; m_active_days := Some 30 |}.

Definition raw (ts : R) (m sd : string) (sz pr : R) : RawTrade :=
  mkRaw (Some ts) (Some sz) (Some pr) sd (Some m) None None None
        None None None (Some "Yes").

Definition example_raw : list RawTrade :=
  [raw 0 "A" "buy" 1 0.5; raw 100 "A" "sell" 1 0.9;
   raw 200 "B" "buy" 1 0.5; raw 300 "B" "sell" 1 0.5;
   raw 400 "B" "buy" 1 0.5; raw 500 "B" "sell" 1 0.5;
   raw 600 "C" "buy" 1 0.5; raw 700 "C" "sell" 1 0.5;
   raw 800 "C" "buy" 1 0.5; raw 900 "C" "sell" 1 0.5].

Definition row (ts : R) (m sd : string) (sz pr : R) : Trade :=
  mkTrade ts m "Yes" sd sz pr.

Definition example_df : list Trade :=
  [row 0 "A" "BUY" 1 0.5; row 100 "A" "SELL" 1 0.9;
   row 200 "B" "BUY" 1 0.5; row 300 "B" "SELL" 1 0.5;
   row 400 "B" "BUY" 1 0.5; row 500 "B" "SELL" 1 0.5;
   row 600 "C" "BUY" 1 0.5; row 700 "C" "SELL" 1 0.5;
   row 800 "C" "BUY" 1 0.5; row 900 "C" "SELL" 1 0.5].

Definition no_answer (k : string) : resolution := (None, None).

(** A buy of one share at 0.5 sold at [p], and the same done twice. *)
Definition once (m : string) (t0 t1 p : R) : list Trade :=
  [row t0 m "BUY" 1 0.5; row t1 m "SELL" 1 p].

Definition twice (m : string) (t0 t1 t2 t3 : R) : list Trade :=
  [row t0 m "BUY" 1 0.5; row t1 m "SELL" 1 0.5;
   row t2 m "BUY" 1 0.5; row t3 m "SELL" 1 0.5].

Definition closed_result (m : string) (realized volume : R) (n : nat) : MarketResult :=
  {| mr_market := m; mr_asset := "Yes"; mr_token_type := "YES";
     mr_realized_pnl := realized; mr_unrealized_pnl := 0;
     mr_total_pnl := realized + 0;
     mr_position := 0; mr_position_cost := 0; mr_position_status := "open";
     mr_volume := volume; mr_trade_count := n |}.

Definition stats_zero : ResolutionStats :=
  {| resolved_won := 0; resolved_lost := 0; unresolved := 0; unknown := 0 |}.

Definition example_buys : list Trade :=
  [row 0 "A" "BUY" 1 0.5; row 200 "B" "BUY" 1 0.5; row 400 "B" "BUY" 1 0.5;
   row 600 "C" "BUY" 1 0.5; row 800 "C" "BUY" 1 0.5].

(** A trader who only ever sells at the price paid. *)
Definition flat_raw : list RawTrade :=
  [raw 0 "A" "buy" 1 0.5; raw 100 "A" "sell" 1 0.5;
   raw 200 "B" "buy" 1 0.5; raw 300 "B" "sell" 1 0.5;
   raw 400 "B" "buy" 1 0.5; raw 500 "B" "sell" 1 0.5;
   raw 600 "C" "buy" 1 0.5; raw 700 "C" "sell" 1 0.5;
   raw 800 "C" "buy" 1 0.5; raw 900 "C" "sell" 1 0.5].

Definition flat_df : list Trade :=
  [row 0 "A" "BUY" 1 0.5; row 100 "A" "SELL" 1 0.5;
   row 200 "B" "BUY" 1 0.5; row 300 "B" "SELL" 1 0.5;
   row 400 "B" "BUY" 1 0.5; row 500 "B" "SELL" 1 0.5;
   row 600 "C" "BUY" 1 0.5; row 700 "C" "SELL" 1 0.5;
   row 800 "C" "BUY" 1 0.5; row 900 "C" "SELL" 1 0.5].

Definition unknown_buy : list Trade := [mkTrade 1 "unknown" "a" "BUY" 10 0.40].

Definition peer : Metrics :=
  {| m_latency_risk := Some "LOW"; m_avg_trade := Some 10;
     m_median_trade := Some 10; m_win_rate := Some 0.6;
     m_sharpe := Some 0.5; m_roi_pct := Some 10; m_trades := Some 40;
     m_capital_deployed := Some 150; m_active_days := Some 30 |}.

(** ** Proof automation *)

Ltac rcase d :=
  destruct d as [?H|?H];
  [ first [ exfalso; lra | idtac ] | first [ exfalso; lra | idtac ] ].

Ltac rdecide :=
  repeat (simpl;
    match goal with
    | |- context [Rlt_dec ?a ?b] => rcase (Rlt_dec a b)
    | |- context [Rle_dec ?a ?b] => rcase (Rle_dec a b)
    end); simpl.

Ltac group_cases :=
  unfold process_group;
  destruct (Rlt_dec 0.01 _) as [Hbig|Hsmall];
  [ destruct (fetch_market_resolution _ _ _ _) as [r c'];
    destruct (fst r) as [[|]|]; [destruct (position_won _ _ _)| |] | ];
  simpl.

Ltac list_eq := repeat (apply (f_equal2 (@cons R)); [lra|]); try reflexivity.

(** * Verification *)

Lemma fold_left_Rplus_acc (xs : list R) (a : R) :
  fold_left Rplus xs a = a + fold_left Rplus xs 0.
Proof.
  revert a; induction xs as [|x xs IH]; intros a; simpl.
  - lra.
  - rewrite IH, (IH (0 + x)). lra.
Qed.

Lemma sum_nil : sum [] = 0.
Proof. reflexivity. Qed.

Lemma sum_cons (x : R) (xs : list R) : sum (x :: xs) = x + sum xs.
Proof. unfold sum; simpl. rewrite fold_left_Rplus_acc. lra. Qed.

Lemma sum_app (xs ys : list R) : sum (xs ++ ys) = sum xs + sum ys.
Proof.
  induction xs as [|x xs IH]; simpl.
  - rewrite sum_nil; lra.
  - rewrite !sum_cons, IH; lra.
Qed.

Lemma sum_positive (xs : list R) :
  Forall (fun x => 0 < x) xs -> xs <> [] -> 0 < sum xs.
Proof.
  induction 1 as [|x xs Hx Hxs IH]; intros Hne; [congruence|].
  rewrite sum_cons. destruct xs as [|y ys].
  - rewrite sum_nil; lra.
  - assert (0 < sum (y :: ys)) by (apply IH; discriminate). lra.
Qed.

Lemma sum_nonneg (xs : list R) : Forall (fun x => 0 <= x) xs -> 0 <= sum xs.
Proof.
  induction 1 as [|x xs Hx Hxs IH]; [rewrite sum_nil; lra|].
  rewrite sum_cons; lra.
Qed.

Lemma sum_Permutation (xs ys : list R) : Permutation xs ys -> sum xs = sum ys.
Proof.
  induction 1; rewrite ?sum_cons in *; lra.
Qed.

(** The matching loop, one statement for all it guarantees. *)
Lemma sell_loop_spec (q : list lot) :
  forall rem cost, Forall lot_positive q -> 0 <= rem ->
  let q' := fst (fst (sell_loop q rem cost)) in
  let rem' := snd (fst (sell_loop q rem cost)) in
  let cost' := snd (sell_loop q rem cost) in
  Forall lot_positive q'
  /\ 0 <= rem' <= rem
  /\ sum (lot_sizes q') = sum (lot_sizes q) - (rem - rem')
  /\ cost' = cost + (sum (lot_costs q) - sum (lot_costs q'))
  /\ (rem <= sum (lot_sizes q) -> rem' = 0)
  /\ (sum (lot_sizes q) <= rem -> q' = [] /\ rem' = rem - sum (lot_sizes q)).
Proof.
  induction q as [|[lot_size lot_price] rest IH]; intros rem cost Hq Hrem; simpl.
  - rewrite !sum_nil. repeat split; try lra; auto.
  - inversion Hq as [|? ? Hl Hrest]; subst. unfold lot_positive in Hl; simpl in Hl.
    unfold lot_sizes, lot_costs in *; simpl.
    destruct (Rlt_dec 0 rem) as [Hpos|Hzero].
    + destruct (Rle_dec lot_size rem) as [Hle|Hgt].
      * specialize (IH (rem - lot_size) (cost + lot_size * lot_price) Hrest ltac:(lra)).
        simpl in IH. destruct IH as (H1 & H2 & H3 & H4 & H5 & H6).
        rewrite !sum_cons. simpl.
        repeat split; try assumption; try lra;
          try (apply H5; lra);
          try (destruct H6 as [Ha Hb]; [lra | first [exact Ha | lra]]).
      * simpl. rewrite !sum_cons; simpl.
        assert (Hs : 0 <= sum (map fst rest)).
        { apply sum_nonneg. rewrite Forall_map.
          eapply Forall_impl; [|exact Hrest]. unfold lot_positive; intros; lra. }
        repeat split; try lra.
        constructor; [unfold lot_positive; simpl; lra | assumption].
    + simpl. assert (rem = 0) by lra. subst rem.
      assert (Hs : 0 <= sum (map fst rest)).
      { apply sum_nonneg. rewrite Forall_map.
        eapply Forall_impl; [|exact Hrest]. unfold lot_positive; intros; lra. }
      rewrite !sum_cons; simpl.
      repeat split; try lra; try assumption.
Qed.

Lemma replay_trade_buy (st : Replay) (t : Trade) :
  is_buy t = true ->
  replay_trade st t =
  {| position_queue := position_queue st ++ [(size t, price t)];
     realized_pnl := realized_pnl st;
     total_volume := total_volume st + size t * price t |}.
Proof. intros H; unfold replay_trade; rewrite H; reflexivity. Qed.

Lemma replay_trade_sell (st : Replay) (t : Trade) :
  is_buy t = false ->
  replay_trade st t =
  {| position_queue := sell_queue st t;
     realized_pnl := realized_pnl st + (size t * price t - sell_cost st t);
     total_volume := total_volume st + size t * price t |}.
Proof.
  intros H; unfold replay_trade, sell_queue, sell_cost; rewrite H.
  destruct (sell_loop (position_queue st) (size t) 0) as [[q r] c]; reflexivity.
Qed.

(** One trade: lots stay positive, shares and cost move by what the trade
    adds or what the loop matched. *)
Lemma replay_trade_inv (st : Replay) (t : Trade) :
  Forall lot_positive (position_queue st) -> 0 < size t ->
  Forall lot_positive (position_queue (replay_trade st t))
  /\ remaining_shares (replay_trade st t) =
     remaining_shares st
     + (if is_buy t then size t else - (size t - sell_unmatched st t))
  /\ remaining_cost (replay_trade st t) =
     remaining_cost st
     + (if is_buy t then size t * price t else - sell_cost st t)
  /\ realized_pnl (replay_trade st t) =
     realized_pnl st
     + (if is_buy t then 0 else size t * price t - sell_cost st t).
Proof.
  intros Hq Hsz. destruct (is_buy t) eqn:Hb.
  - rewrite replay_trade_buy by assumption.
    unfold remaining_shares, remaining_cost, lot_sizes, lot_costs; simpl.
    rewrite !map_app, !sum_app; simpl. rewrite !sum_cons, !sum_nil.
    unfold lot in *.
    repeat split; try lra.
    apply Forall_app; split; [assumption|].
    constructor; [exact Hsz | constructor].
  - rewrite replay_trade_sell by assumption.
    pose proof (sell_loop_spec (position_queue st) (size t) 0 Hq ltac:(lra)) as H.
    simpl in H. destruct H as (H1 & H2 & H3 & H4 & _ & _).
    unfold remaining_shares, remaining_cost, sell_queue, sell_unmatched, sell_cost; simpl.
    repeat split; try assumption; lra.
Qed.

Lemma replay_from_cons (st : Replay) (t : Trade) (trades : list Trade) :
  replay_from st (t :: trades) = replay_from (replay_trade st t) trades.
Proof. reflexivity. Qed.

Lemma replay_from_app (st : Replay) (pre suf : list Trade) :
  replay_from st (pre ++ suf) = replay_from (replay_from st pre) suf.
Proof. unfold replay_from; apply fold_left_app. Qed.

Lemma filter_is_sell_cons (t : Trade) (trades : list Trade) :
  filter is_sell (t :: trades) =
  if is_buy t then filter is_sell trades else t :: filter is_sell trades.
Proof. unfold is_sell; simpl. destruct (is_buy t); reflexivity. Qed.

(** The books of a whole replay, from any state with positive lots. *)
Lemma replay_from_inv (trades : list Trade) :
  forall st, Forall lot_positive (position_queue st) ->
  Forall valid_trade trades ->
  Forall lot_positive (position_queue (replay_from st trades))
  /\ remaining_shares (replay_from st trades) =
     remaining_shares st + sum (buy_sizes trades) - matched_volume st trades
  /\ realized_pnl (replay_from st trades) + remaining_cost st + sum (buy_costs trades) =
     realized_pnl st + sum (sell_revenues trades)
     + remaining_cost (replay_from st trades).
Proof.
  induction trades as [|t trades IH]; intros st Hq Hv.
  - unfold buy_sizes, buy_costs, sell_revenues; simpl. rewrite !sum_nil.
    repeat split; try assumption; lra.
  - inversion Hv as [|? ? Ht Hrest]; subst. destruct Ht as (Hsz & Hpr & _).
    destruct (replay_trade_inv st t Hq Hsz) as (I1 & I2 & I3 & I4).
    destruct (IH (replay_trade st t) I1 Hrest) as (J1 & J2 & J3).
    rewrite replay_from_cons.
    split; [exact J1|].
    unfold buy_sizes, buy_costs, sell_revenues in *.
    rewrite filter_is_sell_cons. simpl.
    destruct (is_buy t) eqn:Hb; simpl; rewrite ?sum_cons;
      change (trade_value t) with (size t * price t); split; lra.
Qed.

Lemma never_oversold_matched (trades : list Trade) :
  forall st, Forall lot_positive (position_queue st) ->
  Forall valid_trade trades -> never_oversold st trades ->
  matched_volume st trades = sum (sell_sizes trades).
Proof.
  induction trades as [|t trades IH]; intros st Hq Hv Hn.
  - reflexivity.
  - inversion Hv as [|? ? Ht Hrest]; subst. destruct Ht as (Hsz & _).
    destruct Hn as [Hhere Hlater].
    destruct (replay_trade_inv st t Hq Hsz) as (I1 & _).
    unfold sell_sizes in *. rewrite filter_is_sell_cons. simpl.
    rewrite (IH _ I1 Hrest Hlater).
    destruct (is_buy t) eqn:Hb; simpl; [lra|].
    rewrite sum_cons.
    pose proof (sell_loop_spec (position_queue st) (size t) 0 Hq ltac:(lra)) as H.
    simpl in H. destruct H as (_ & _ & _ & _ & H5 & _).
    unfold sell_unmatched. rewrite H5 by (apply Hhere; reflexivity). lra.
Qed.

Lemma Forall_firstn {A : Type} (P : A -> Prop) (k : nat) (l : list A) :
  Forall P l -> Forall P (firstn k l).
Proof.
  revert l; induction k as [|k IH]; intros [|x l] H; simpl; auto.
  inversion H; subst. constructor; auto.
Qed.

Lemma lot_costs_nonneg (q : list lot) :
  Forall lot_priced q -> 0 <= sum (lot_costs q).
Proof.
  intros H. apply sum_nonneg. unfold lot_costs. rewrite Forall_map.
  eapply Forall_impl; [|exact H]. intros [s p] [Hs Hp]; simpl in *. nra.
Qed.

Lemma sell_loop_priced (q : list lot) :
  forall rem cost, Forall lot_priced q ->
  Forall lot_priced (fst (fst (sell_loop q rem cost))).
Proof.
  induction q as [|[s p] rest IH]; intros rem cost Hq; simpl; [constructor|].
  inversion Hq as [|? ? [Hs Hp] Hrest]; subst; simpl in *.
  destruct (Rlt_dec 0 rem); [|assumption].
  destruct (Rle_dec s rem); [apply IH; assumption|].
  simpl. constructor; [split; simpl; lra | assumption].
Qed.

Lemma replay_from_priced (trades : list Trade) :
  forall st, Forall lot_priced (position_queue st) ->
  Forall valid_trade trades ->
  Forall lot_priced (position_queue (replay_from st trades)).
Proof.
  induction trades as [|t trades IH]; intros st Hq Hv; [assumption|].
  inversion Hv as [|? ? (Hsz & Hpr & _) Hrest]; subst.
  rewrite replay_from_cons. apply IH; [|assumption].
  destruct (is_buy t) eqn:Hb.
  - rewrite replay_trade_buy by assumption; simpl.
    apply Forall_app; split; [assumption|].
    constructor; [split; assumption | constructor].
  - rewrite replay_trade_sell by assumption; simpl.
    apply sell_loop_priced; assumption.
Qed.

Lemma lot_priced_positive (q : list lot) :
  Forall lot_priced q -> Forall lot_positive q.
Proof. apply Forall_impl; intros l [H _]; exact H. Qed.

Lemma scenario1_replay :
  replay scenario1 =
  {| position_queue := [(10 - (15 - 10), 0.60)];
     realized_pnl := 0 + (15 * 0.70 - (0 + 10 * 0.40 + (15 - 10) * 0.60));
     total_volume := 0 + 10 * 0.40 + 10 * 0.60 + 15 * 0.70 |}.
Proof.
  unfold replay, replay_from, scenario1, replay_trade; simpl.
  rdecide. reflexivity.
Qed.

Lemma sorted1 : sort_values scenario1 = scenario1.
Proof. unfold sort_values, scenario1; simpl. rdecide. reflexivity. Qed.

Lemma sell_loop_cost_mono (q : list lot) :
  forall rem cost, Forall lot_priced q -> 0 <= rem ->
  cost <= snd (sell_loop q rem cost).
Proof.
  induction q as [|[s p] rest IH]; intros rem cost Hq Hrem; simpl; [lra|].
  inversion Hq as [|? ? [Hs Hp] Hrest]; subst; simpl in *.
  destruct (Rlt_dec 0 rem); [|simpl; lra].
  destruct (Rle_dec s rem).
  - specialize (IH (rem - s) (cost + s * p) Hrest ltac:(lra)). nra.
  - simpl. nra.
Qed.

Lemma replay_firstn_priced (trades : list Trade) (k : nat) :
  Forall valid_trade trades ->
  Forall lot_priced (position_queue (replay (firstn k trades))).
Proof.
  intros Hv. apply replay_from_priced; [constructor | apply Forall_firstn; exact Hv].
Qed.

Lemma remaining_shares_init : remaining_shares replay_init = 0.
Proof. reflexivity. Qed.

(** C1 (FIFO conservation).  For a group of valid trades replayed by the
    ledger: after every prefix of the replay each lot has a strictly positive
    size, the lot sizes sum to the buy volume minus the sell volume matched
    against lots, and the shares held are not negative; when no sell asks
    for more than the shares held at that moment, the final remaining shares
    are the sum of the buy sizes minus the sum of the sell sizes; a sell
    never deducts a negative cost nor leaves negative shares, and a sell
    larger than the lots held empties the queue, deducts exactly the cost of
    those lots and books its whole revenue. *)
Theorem fifo_conservation (trades : list Trade)
    (Hvalid : Forall valid_trade trades) :
  (forall k,
     let st := replay (firstn k trades) in
     Forall lot_positive (position_queue st)
     /\ remaining_shares st =
        sum (buy_sizes (firstn k trades))
        - matched_volume replay_init (firstn k trades)
     /\ 0 <= remaining_shares st)
  /\ (never_oversold replay_init trades ->
      remaining_shares (replay trades) =
      sum (buy_sizes trades) - sum (sell_sizes trades))
  /\ (forall k t, nth_error trades k = Some t -> is_buy t = false ->
      let st := replay (firstn k trades) in
      0 <= sell_cost st t
      /\ 0 <= remaining_shares (replay_trade st t)
      /\ (remaining_shares st < size t ->
          position_queue (replay_trade st t) = []
          /\ sell_cost st t = remaining_cost st
          /\ realized_pnl (replay_trade st t) =
             realized_pnl st + (size t * price t - remaining_cost st))).
Proof.
  assert (Hinit : Forall lot_positive (position_queue replay_init)) by constructor.
  split; [|split].
  - intros k st.
    destruct (replay_from_inv (firstn k trades) replay_init Hinit
                (Forall_firstn _ k _ Hvalid)) as (H1 & H2 & _).
    fold (replay (firstn k trades)) in H1, H2. fold st in H1, H2.
    rewrite remaining_shares_init in H2.
    repeat split; [exact H1 | lra |].
    apply sum_nonneg. unfold lot_sizes. rewrite Forall_map.
    eapply Forall_impl; [|exact H1]. unfold lot_positive; intros; lra.
  - intros Hn.
    destruct (replay_from_inv trades replay_init Hinit Hvalid) as (_ & H2 & _).
    fold (replay trades) in H2. rewrite remaining_shares_init in H2.
    rewrite (never_oversold_matched trades replay_init Hinit Hvalid Hn) in H2. lra.
  - intros k t Hnth Hsell st.
    assert (Ht : valid_trade t).
    { rewrite Forall_forall in Hvalid. apply Hvalid.
      eapply nth_error_In; exact Hnth. }
    destruct Ht as (Hsz & _).
    pose proof (replay_firstn_priced trades k Hvalid) as Hpr. fold st in Hpr.
    pose proof (lot_priced_positive _ Hpr) as Hpos.
    pose proof (sell_loop_spec (position_queue st) (size t) 0 Hpos ltac:(lra)) as H.
    simpl in H. destruct H as (H1 & H2 & H3 & H4 & _ & H6).
    pose proof (sell_loop_cost_mono (position_queue st) (size t) 0 Hpr ltac:(lra)) as Hc.
    rewrite (replay_trade_sell st t Hsell).
    unfold sell_cost, sell_queue, remaining_shares, remaining_cost in *; simpl.
    split; [exact Hc|]. split.
    + apply sum_nonneg. unfold lot_sizes. rewrite Forall_map.
      eapply Forall_impl; [|exact H1]. unfold lot_positive; intros; lra.
    + intros Hover. destruct H6 as [Hq _]; [lra|].
      rewrite Hq in H4. unfold lot_costs in H4 at 2. simpl in H4.
      rewrite sum_nil in H4.
      repeat split; [exact Hq | lra | lra].
Qed.

Lemma scenario1_valid : Forall valid_trade scenario1.
Proof. repeat constructor; simpl; lra. Qed.

Lemma oversell_valid : Forall valid_trade oversell.
Proof. repeat constructor; simpl; lra. Qed.

Lemma fifo_conservation_witness :
  remaining_shares (replay scenario1) =
    sum (buy_sizes scenario1) - sum (sell_sizes scenario1)
  /\ (let st := replay (firstn 1 oversell) in
      let t := T 2 "SELL" 15 0.70 in
      position_queue (replay_trade st t) = []
      /\ sell_cost st t = remaining_cost st
      /\ realized_pnl (replay_trade st t) =
         realized_pnl st + (size t * price t - remaining_cost st)).
Proof.
  split.
  - apply (fifo_conservation scenario1 scenario1_valid).
    unfold scenario1, never_oversold, replay_trade, remaining_shares, sum; simpl.
    repeat split; try discriminate. intros _. lra.
  - destruct (fifo_conservation oversell oversell_valid) as (_ & _ & H).
    apply (H 1%nat (T 2 "SELL" 15 0.70)); [reflexivity | reflexivity |].
    unfold replay, replay_from, replay_trade, remaining_shares, sum; simpl. lra.
Defined.

Lemma str_in_In (s : string) (l : list string) : str_in s l = true <-> In s l.
Proof.
  unfold str_in. rewrite existsb_exists. split.
  - intros (x & Hx & He). apply String.eqb_eq in He. subst; exact Hx.
  - intros H. exists s. split; [exact H | apply String.eqb_refl].
Qed.

(** The flag computed by the source is the winning rule of the
    specification. *)
Lemma position_won_spec (asset_id token_type : string) (r : resolution) :
  position_won asset_id token_type (snd r) = true <-> spec_won asset_id token_type r.
Proof.
  unfold position_won, spec_won, winner_of, yes_label, no_label.
  destruct (snd r) as [w|]; [|split; [discriminate | intros (w & H & _); discriminate]].
  destruct (truthy w); [|split; [discriminate | intros (w' & H & _); discriminate]].
  split.
  - intros H. exists w. split; [reflexivity|].
    destruct (asset_id =? w) eqn:He; [left; apply String.eqb_eq; exact He|].
    destruct ((token_type =? "YES") && str_in (upper w) ["YES"; "1"; "TRUE"]) eqn:Hy.
    { apply andb_true_iff in Hy as [H1 H2]. right; left.
      split; [apply String.eqb_eq; exact H1 | apply str_in_In; exact H2]. }
    destruct ((token_type =? "NO") && str_in (upper w) ["NO"; "0"; "FALSE"]) eqn:Hn.
    { apply andb_true_iff in Hn as [H1 H2]. right; right.
      split; [apply String.eqb_eq; exact H1 | apply str_in_In; exact H2]. }
    discriminate.
  - intros (w' & Hw & Hcase). injection Hw as <-.
    destruct Hcase as [He | [[H1 H2] | [H1 H2]]].
    + subst. rewrite String.eqb_refl. reflexivity.
    + destruct (asset_id =? w); [reflexivity|].
      apply String.eqb_eq in H1. apply str_in_In in H2. rewrite H1, H2. reflexivity.
    + destruct (asset_id =? w); [reflexivity|].
      apply String.eqb_eq in H1. apply str_in_In in H2. rewrite H1, H2.
      destruct ((token_type =? "YES") && str_in (upper w) ["YES"; "1"; "TRUE"]);
        reflexivity.
Qed.

(** C2 (valuation follows the resolver).  For a group left with more than
    0.01 shares: on a RESOLVED answer the position is won exactly under the
    specification's rule (asset equal to the winner verbatim, or a YES token
    with a YES-equivalent winner, or a NO token with a NO-equivalent winner),
    valued at [shares * 1 - cost] with status won, and otherwise (an absent
    or empty winner included) at [- cost] with status lost; on UNRESOLVED it
    is marked to the last trade price with status open; on a failed lookup it
    is marked the same way with status unknown. *)
Theorem valuation_follows_resolution (gateway : string -> resolution)
    (c : cache) (stats : ResolutionStats) (market_id asset_id : string)
    (group : list Trade) :
  let trades := sort_values group in
  let st := replay trades in
  let r := fst (fetch_market_resolution gateway c market_id asset_id) in
  let res := go_result (process_group gateway c stats market_id asset_id group) in
  0.01 < remaining_shares st ->
  mr_token_type res = _determine_token_type asset_id
  /\ mr_position res = remaining_shares st
  /\ mr_position_cost res = remaining_cost st
  /\ match fst r with
     | Some RESOLVED =>
       (spec_won asset_id (mr_token_type res) r ->
        mr_unrealized_pnl res = remaining_shares st * 1 - remaining_cost st
        /\ mr_position_status res = "won")
       /\ (~ spec_won asset_id (mr_token_type res) r ->
           mr_unrealized_pnl res = - remaining_cost st
           /\ mr_position_status res = "lost")
     | Some UNRESOLVED =>
       mr_unrealized_pnl res =
         remaining_shares st * iloc_last price trades - remaining_cost st
       /\ mr_position_status res = "open"
     | None =>
       mr_unrealized_pnl res =
         remaining_shares st * iloc_last price trades - remaining_cost st
       /\ mr_position_status res = "unknown"
     end.
Proof.
  intros trades st r res Hheld.
  subst res r. unfold process_group. fold trades. fold st.
  destruct (Rlt_dec 0.01 (remaining_shares st)) as [_|Hn]; [|contradiction].
  destruct (fetch_market_resolution gateway c market_id asset_id) as [r c'].
  simpl fst.
  destruct (fst r) as [[|]|] eqn:Hr.
  - pose proof (position_won_spec asset_id (_determine_token_type asset_id) r) as Hw.
    destruct (position_won asset_id (_determine_token_type asset_id) (snd r)); simpl.
    + repeat split; try reflexivity; try lra;
        exfalso; match goal with H : ~ _ |- _ => apply H, Hw; reflexivity end.
    + repeat split; try reflexivity; try lra;
        match goal with H : spec_won _ _ _ |- _ => apply Hw in H; discriminate end.
  - simpl. repeat split; reflexivity.
  - simpl. repeat split; reflexivity.
Qed.

Lemma valuation_follows_resolution_witness :
  let res := go_result (process_group held_wins [] stats0 "m" "a" scenario1) in
  mr_unrealized_pnl res = remaining_shares (replay (sort_values scenario1)) * 1
                          - remaining_cost (replay (sort_values scenario1))
  /\ mr_position_status res = "won".
Proof.
  assert (Hheld : 0.01 < remaining_shares (replay (sort_values scenario1))).
  { rewrite sorted1, scenario1_replay. unfold remaining_shares, sum; simpl. lra. }
  pose proof (valuation_follows_resolution held_wins [] stats0 "m" "a" scenario1 Hheld)
    as (_ & _ & _ & H).
  simpl in H. apply H. exists "a". split; [reflexivity | left; reflexivity].
Defined.

Lemma insert_by_timestamp_perm (t : Trade) (l : list Trade) :
  Permutation (insert_by_timestamp t l) (t :: l).
Proof.
  induction l as [|h l IH]; simpl; [reflexivity|].
  destruct (Rlt_dec (timestamp t) (timestamp h)); [reflexivity|].
  rewrite IH. apply perm_swap.
Qed.

Lemma sort_values_perm (rows : list Trade) : Permutation (sort_values rows) rows.
Proof.
  unfold sort_values.
  assert (H : forall acc, Permutation
            (fold_left (fun sorted t => insert_by_timestamp t sorted) rows acc)
            (rows ++ acc)).
  { induction rows as [|t rows IH]; intros acc; simpl; [reflexivity|].
    rewrite IH, insert_by_timestamp_perm. symmetry; apply Permutation_middle. }
  rewrite H, app_nil_r. reflexivity.
Qed.

Lemma sum_map_filter_perm (f : Trade -> R) (p : Trade -> bool) (l l' : list Trade) :
  Permutation l l' -> sum (map f (filter p l)) = sum (map f (filter p l')).
Proof.
  induction 1 as [|x l l' _ IH|x y l|l l' l'' _ IH1 _ IH2]; simpl.
  - reflexivity.
  - destruct (p x); simpl; rewrite ?sum_cons, IH; reflexivity.
  - destruct (p x), (p y); simpl; rewrite ?sum_cons; lra.
  - lra.
Qed.

Lemma positive_lots_empty (q : list lot) :
  Forall lot_positive q -> sum (lot_sizes q) = 0 -> q = [].
Proof.
  intros Hq Hs. destruct q as [|l q]; [reflexivity|]. exfalso.
  assert (0 < sum (lot_sizes (l :: q))).
  { apply sum_positive; [|discriminate].
    unfold lot_sizes. rewrite Forall_map. exact Hq. }
  lra.
Qed.

Lemma process_group_total (gateway : string -> resolution) (c : cache)
    (stats : ResolutionStats) (market_id asset_id : string) (group : list Trade) :
  let res := go_result (process_group gateway c stats market_id asset_id group) in
  mr_total_pnl res = mr_realized_pnl res + mr_unrealized_pnl res.
Proof.
  unfold process_group.
  destruct (Rlt_dec 0.01 _) as [Hbig|Hsmall]; [|reflexivity].
  destruct (fetch_market_resolution _ _ _ _) as [r c'].
  destruct (fst r) as [[|]|]; [destruct (position_won _ _ _)| |]; reflexivity.
Qed.

Lemma process_group_books (gateway : string -> resolution) (c : cache)
    (stats : ResolutionStats) (market_id asset_id : string) (group : list Trade) :
  let res := go_result (process_group gateway c stats market_id asset_id group) in
  let st := replay (sort_values group) in
  mr_position res = remaining_shares st
  /\ mr_position_cost res = remaining_cost st
  /\ mr_realized_pnl res = realized_pnl st
  /\ (remaining_shares st <= 0.01 -> mr_unrealized_pnl res = 0).
Proof.
  unfold process_group.
  destruct (Rlt_dec 0.01 _) as [Hbig|Hsmall]; [|repeat split].
  destruct (fetch_market_resolution _ _ _ _) as [r c'].
  destruct (fst r) as [[|]|]; [destruct (position_won _ _ _)| |]; simpl;
    repeat split; lra.
Qed.

Lemma dict_set_values {A : Type} (P : A -> Prop) (d : list (string * A))
    (k : string) (v : A) :
  Forall P (dict_values d) -> P v -> Forall P (dict_values (dict_set d k v)).
Proof.
  unfold dict_values. induction d as [|[k' v'] d IH]; intros Hd Hv; simpl.
  - constructor; [exact Hv | constructor].
  - inversion Hd; subst. destruct (k =? k'); simpl; constructor; auto.
Qed.

(** Whatever holds of every round of the group loop holds of every entry of
    [market_results]. *)
Lemma market_results_invariant (P : MarketResult -> Prop)
    (gateway : string -> resolution) :
  (forall c stats market_id asset_id group,
     P (go_result (process_group gateway c stats market_id asset_id group))) ->
  forall c df,
    Forall P (dict_values (market_results
                (calculate_fifo_pnl_with_resolution gateway c df))).
Proof.
  intros HP c df. unfold calculate_fifo_pnl_with_resolution.
  generalize (groupby df).
  set (L0 := {| market_results := []; resolution_stats := _;
                current_positions := []; resolution_cache := c |}).
  assert (H0 : Forall P (dict_values (market_results L0))) by constructor.
  clearbody L0. intros groups. revert L0 H0.
  induction groups as [|[[m a] g] groups IH]; intros L0 H0; simpl; [exact H0|].
  apply IH. simpl. apply dict_set_values; [exact H0 | apply HP].
Qed.

(** C3 (PnL identity).  Every entry the ledger returns, and the result of
    every round of its loop, has [total_pnl = realized_pnl + unrealized_pnl];
    a group of valid trades left with no shares has a total PnL equal to the
    sum of its sell revenues minus the sum of its buy costs. *)
Theorem pnl_identity (gateway : string -> resolution) :
  (forall c df m,
     In m (dict_values (market_results
             (calculate_fifo_pnl_with_resolution gateway c df))) ->
     mr_total_pnl m = mr_realized_pnl m + mr_unrealized_pnl m)
  /\ (forall c stats market_id asset_id group,
      let res := go_result (process_group gateway c stats market_id asset_id group) in
      mr_total_pnl res = mr_realized_pnl res + mr_unrealized_pnl res
      /\ (Forall valid_trade group -> mr_position res = 0 ->
          mr_total_pnl res = sum (sell_revenues group) - sum (buy_costs group))).
Proof.
  split.
  - intros c df m Hin.
    pose proof (market_results_invariant
      (fun m => mr_total_pnl m = mr_realized_pnl m + mr_unrealized_pnl m)
      gateway (process_group_total gateway) c df) as H.
    rewrite Forall_forall in H. apply H, Hin.
  - intros c stats market_id asset_id group res.
    split; [apply process_group_total|].
    intros Hvalid Hclosed.
    assert (Hv : Forall valid_trade (sort_values group)).
    { eapply Permutation_Forall; [|exact Hvalid].
      symmetry; apply sort_values_perm. }
    destruct (replay_from_inv (sort_values group) replay_init
                ltac:(constructor) Hv) as (H1 & _ & H3).
    fold (replay (sort_values group)) in H1, H3.
    destruct (process_group_books gateway c stats market_id asset_id group)
      as (B1 & B2 & B3 & B4).
    pose proof (process_group_total gateway c stats market_id asset_id group) as Ht.
    subst res. simpl in Ht. rewrite Ht. rewrite B1 in Hclosed.
    assert (Hq : position_queue (replay (sort_values group)) = []).
    { apply positive_lots_empty; [exact H1 | exact Hclosed]. }
    rewrite B3, B4 by lra.
    unfold remaining_cost in H3. rewrite Hq in H3. simpl in H3.
    unfold sell_revenues, buy_costs in *.
    rewrite (sum_map_filter_perm trade_value is_sell _ _ (sort_values_perm group)) in H3.
    rewrite (sum_map_filter_perm trade_value is_buy _ _ (sort_values_perm group)) in H3.
    unfold lot_costs in H3; simpl in H3. rewrite !sum_nil in H3. lra.
Qed.

Lemma closed_group_valid : Forall valid_trade closed_group.
Proof. repeat constructor; simpl; lra. Qed.

Lemma closed_group_sorted : sort_values closed_group = closed_group.
Proof. unfold sort_values, closed_group; simpl. rdecide. reflexivity. Qed.

Lemma closed_group_replay :
  replay closed_group =
  {| position_queue := [];
     realized_pnl := 0 + (10 * 0.70 - (0 + 10 * 0.40));
     total_volume := 0 + 10 * 0.40 + 10 * 0.70 |}.
Proof.
  unfold replay, replay_from, closed_group, replay_trade; simpl.
  rdecide. reflexivity.
Qed.

Lemma closed_group_position (gateway : string -> resolution) :
  mr_position (go_result (process_group gateway [] stats0 "m" "a" closed_group)) = 0.
Proof.
  destruct (process_group_books gateway [] stats0 "m" "a" closed_group) as (H & _).
  rewrite H, closed_group_sorted, closed_group_replay. reflexivity.
Qed.

Lemma pnl_identity_witness :
  let res := go_result (process_group held_wins [] stats0 "m" "a" closed_group) in
  mr_total_pnl res = sum (sell_revenues closed_group) - sum (buy_costs closed_group).
Proof.
  destruct (pnl_identity held_wins) as [_ H].
  apply (H [] stats0 "m" "a" closed_group);
    [exact closed_group_valid | apply closed_group_position].
Defined.

(** C6 as stated fails: a group bought and sold in full keeps status open
    and emits no CurrentPosition. *)
Lemma open_status_without_position :
  let o := process_group held_wins [] stats0 "m" "a" closed_group in
  mr_position_status (go_result o) = "open" /\ go_position o = None.
Proof.
  cbv zeta. unfold process_group.
  rewrite closed_group_sorted, closed_group_replay.
  unfold remaining_shares, sum; simpl. rcase (Rlt_dec 0.01 0).
  split; reflexivity.
Qed.

(** C6, amended (current positions).  A round of the ledger loop emits a
    CurrentPosition exactly when the group keeps more than 0.01 shares and
    its status is open; the entry carries the remaining shares, their average
    price, the unrealized PnL plus the remaining cost, and the timestamp of
    the last trade.  A group with at most 0.01 shares keeps status open, is
    valued at zero and emits nothing.  The ledger appends what a round emits
    to the list it returns. *)
Theorem current_position_emission (gateway : string -> resolution) (c : cache)
    (stats : ResolutionStats) (market_id asset_id : string) (group : list Trade) :
  let o := process_group gateway c stats market_id asset_id group in
  let res := go_result o in
  (0.01 < mr_position res -> mr_position_status res = "open" ->
   go_position o =
   Some {| cp_market := market_id;
           cp_asset := asset_id;
           cp_token_type := mr_token_type res;
           cp_size := mr_position res;
           cp_avg_price := mr_position_cost res / mr_position res;
           cp_current_value := mr_unrealized_pnl res + mr_position_cost res;
           cp_last_trade_ts := iloc_last timestamp (sort_values group) |})
  /\ (go_position o <> None ->
      0.01 < mr_position res /\ mr_position_status res = "open")
  /\ (mr_position res <= 0.01 ->
      go_position o = None /\ mr_position_status res = "open"
      /\ mr_unrealized_pnl res = 0)
  /\ (forall L,
      current_positions (ledger_step gateway L ((market_id, asset_id), group)) =
      (current_positions L ++
       match go_position (process_group gateway (resolution_cache L)
                            (resolution_stats L) market_id asset_id group) with
       | Some p => [p]
       | None => []
       end)%list).
Proof.
  split; [|split; [|split]].
  - group_cases; intros Hheld Hst; try discriminate; try (exfalso; lra).
    destruct (Rlt_dec 0 _) as [Hp|Hp]; [reflexivity | exfalso; lra].
  - group_cases; intros H; try congruence.
    split; [exact Hbig | reflexivity].
  - group_cases; intros H; try (exfalso; lra). repeat split.
  - intros L. unfold ledger_step.
    destruct (go_position _); simpl; [reflexivity | rewrite app_nil_r; reflexivity].
Qed.

Lemma Rltb_true (a b : R) : Rltb a b = true <-> a < b.
Proof. unfold Rltb; destruct (Rlt_dec a b); split; intros; try discriminate; auto; lra. Qed.

Lemma Rleb_true (a b : R) : Rleb a b = true <-> a <= b.
Proof. unfold Rleb; destruct (Rle_dec a b); split; intros; try discriminate; auto; lra. Qed.

Lemma Rltb_false (a b : R) : Rltb a b = false <-> b <= a.
Proof. unfold Rltb; destruct (Rlt_dec a b); split; intros; try discriminate; auto; lra. Qed.

Lemma Rleb_false (a b : R) : Rleb a b = false <-> b < a.
Proof. unfold Rleb; destruct (Rle_dec a b); split; intros; try discriminate; auto; lra. Qed.

(** [round] moves its argument by at most half a unit of the last digit. *)
Lemma py_round_error (x : R) (ndigits : nat) :
  Rabs (py_round x ndigits - x) <= / 2 / 10 ^ ndigits.
Proof.
  unfold py_round.
  assert (Hp : 0 < 10 ^ ndigits) by (apply pow_lt; lra).
  set (y := x * 10 ^ ndigits).
  destruct (base_Int_part y) as [Hlo Hhi].
  set (f := Int_part y) in *.
  assert (Hx : x = y / 10 ^ ndigits) by (unfold y; field; lra).
  assert (Hgoal : forall n : Z, Rabs (IZR n - y) <= / 2 ->
            Rabs (IZR n / 10 ^ ndigits - x) <= / 2 / 10 ^ ndigits).
  { intros n Hn. rewrite Hx at 1.
    replace (IZR n / 10 ^ ndigits - y / 10 ^ ndigits)
      with ((IZR n - y) * / 10 ^ ndigits) by (field; lra).
    rewrite Rabs_mult, (Rabs_pos_eq (/ 10 ^ ndigits))
      by (left; apply Rinv_0_lt_compat; exact Hp).
    unfold Rdiv. apply Rmult_le_compat_r; [left; apply Rinv_0_lt_compat; exact Hp|].
    exact Hn. }
  apply Hgoal.
  destruct (Rlt_dec (y - IZR f) (1 / 2)) as [H1|H1].
  - apply Rabs_le; lra.
  - destruct (Rlt_dec (1 / 2) (y - IZR f)) as [H2|H2].
    + rewrite plus_IZR. apply Rabs_le; lra.
    + destruct (Z.even f); [|rewrite plus_IZR]; apply Rabs_le; lra.
Qed.

(** What the seven steps leave in the fields the claims read. *)
Lemma recommend_fields (metrics : Metrics) (portfolio_balance : R) :
  let avg_trade := get (m_avg_trade metrics) 50 in
  let win_rate := get (m_win_rate metrics) 0.5 in
  let sharpe := get (m_sharpe metrics) 0 in
  let order := fst (fst (step_order_type (get (m_latency_risk metrics) "LOW"))) in
  let sizing := step_sizing avg_trade win_rate
                  (get (m_capital_deployed metrics) 1000) portfolio_balance in
  let rec := recommend_copy_strategy metrics portfolio_balance in
  order_type rec = order
  /\ sizing_method rec = fst (fst sizing)
  /\ suggested_size rec =
     fst (fst (step_minimum order (fst (fst sizing)) (snd (fst sizing))))
  /\ compounding_recommended rec =
     fst (fst (step_compounding win_rate sharpe portfolio_balance))
  /\ compounding_params rec =
     snd (fst (step_compounding win_rate sharpe portfolio_balance)).
Proof.
  intros avg_trade win_rate sharpe order sizing rec.
  subst rec order sizing. unfold recommend_copy_strategy.
  fold avg_trade win_rate sharpe.
  destruct (step_order_type _) as [[ot r1] w1].
  destruct (step_sizing _ _ _ _) as [[sm sz] r2].
  cbn [fst snd].
  destruct (step_minimum _ _ _) as [[sz' r3] w3].
  destruct (step_max_position _ _) as [[mp r4] w4].
  destruct (step_usage _ _ _ _ _ _) as [[e1 e2] w5].
  destruct (step_primary _ _) as [ps r6].
  destruct (step_compounding _ _ _) as [[cr cp] r7].
  cbn [fst snd order_type sizing_method suggested_size
       compounding_recommended compounding_params].
  repeat split.
Qed.

Lemma fixed_size_pct_spec (win_rate : R) :
  fixed_size_pct win_rate = 0.05 + Rmax 0 (win_rate - 0.5) * 0.4.
Proof.
  unfold fixed_size_pct, Rmax.
  destruct (Rlt_dec 0.5 win_rate), (Rle_dec 0 (win_rate - 0.5)); lra.
Qed.

(** C8 (fixed amount sizing).  When the average trade exceeds 0.4 times the
    portfolio balance the recommender sizes by fixed amount, the suggested
    size being [max 1 (balance * (0.05 + max 0 (winRate - 0.5) * 0.4))]; for
    an average trade of 2000, a balance of 150 and a win rate of 0.65 that
    is 16.5. *)
Theorem fixed_amount_sizing (metrics : Metrics) (portfolioBalance : R) :
  let avgTrade := get (m_avg_trade metrics) 50 in
  let winRate := get (m_win_rate metrics) 0.5 in
  let rec := recommend_copy_strategy metrics portfolioBalance in
  0.4 * portfolioBalance < avgTrade ->
  sizing_method rec = "fixed_amount"
  /\ suggested_size rec =
     Rmax 1 (portfolioBalance * (0.05 + Rmax 0 (winRate - 0.5) * 0.4))
  /\ (avgTrade = 2000 -> portfolioBalance = 150 -> winRate = 0.65 ->
      suggested_size rec = 16.5).
Proof.
  intros avgTrade winRate rec Hbig.
  destruct (recommend_fields metrics portfolioBalance) as (_ & Hm & Hs & _).
  fold rec in Hm, Hs. fold avgTrade winRate in Hm, Hs.
  assert (Hsz : step_sizing avgTrade winRate
                  (get (m_capital_deployed metrics) 1000) portfolioBalance =
                ("fixed_amount",
                 Rmax 1.0 (portfolioBalance * fixed_size_pct winRate),
                 [MsgAvgTradeLarge avgTrade])).
  { unfold step_sizing.
    destruct (Rlt_dec (portfolioBalance * 0.4) avgTrade) as [_|Hn]; [reflexivity|].
    exfalso; lra. }
  rewrite Hsz in Hm, Hs. simpl in Hm, Hs.
  assert (Hone : 1 <= Rmax 1.0 (portfolioBalance * fixed_size_pct winRate)).
  { pose proof (Rmax_l 1.0 (portfolioBalance * fixed_size_pct winRate)). lra. }
  assert (Hfinal : suggested_size rec =
                   Rmax 1 (portfolioBalance * (0.05 + Rmax 0 (winRate - 0.5) * 0.4))).
  { rewrite Hs, <- fixed_size_pct_spec. unfold step_minimum.
    replace 1.0 with 1 in * by lra.
    destruct (fst (fst (step_order_type _)) =? "limit"); simpl.
    - destruct (Rltb _ 0.01) eqn:Hlt; [|reflexivity].
      apply Rltb_true in Hlt. exfalso; lra.
    - destruct (Rltb _ 1) eqn:Hlt; [|reflexivity].
      apply Rltb_true in Hlt. exfalso; lra. }
  split; [exact Hm|]. split; [exact Hfinal|].
  intros Ha Hp Hw. rewrite Hfinal, Hp, Hw.
  unfold Rmax.
  destruct (Rle_dec 0 (0.65 - 0.5)) as [_|Hn]; [|exfalso; lra].
  destruct (Rle_dec 1 _) as [_|Hn]; [lra | exfalso; lra].
Qed.

Lemma fixed_amount_sizing_witness :
  sizing_method (recommend_copy_strategy scenario3 150) = "fixed_amount"
  /\ suggested_size (recommend_copy_strategy scenario3 150) = 16.5.
Proof.
  assert (H : 0.4 * 150 < get (m_avg_trade scenario3) 50) by (simpl; lra).
  destruct (fixed_amount_sizing scenario3 150 H) as (H1 & _ & H3).
  split; [exact H1 | apply H3; reflexivity].
Defined.

(** C9 (compounding overlay).  Compounding is recommended exactly when the
    win rate is at least 0.60 and Sharpe is positive; the parameters then
    follow the win-rate tier (0.75: 5%, 60%, 15, +30%, 5x; 0.65: 4%, 50%, 20,
    +25%, 4x; else 3%, 40%, 25, +20%, 3x), the base size being the share of
    the portfolio rounded to cents, with drawdown thresholds 0.20, 0.40 and
    0.60 in every tier; otherwise no parameters are produced. *)
Theorem compounding_overlay (metrics : Metrics) (portfolioBalance : R) :
  let winRate := get (m_win_rate metrics) 0.5 in
  let sharpe := get (m_sharpe metrics) 0 in
  let rec := recommend_copy_strategy metrics portfolioBalance in
  let tier := fun pct reinvest increment increase cap p =>
    base_size p = py_round (portfolioBalance * pct) 2
    /\ Rabs (base_size p - portfolioBalance * pct) <= 0.005
    /\ reinvestment_rate p = reinvest
    /\ profit_tier_increment p = increment
    /\ size_increase_per_tier p = increase
    /\ max_size_multiplier p = cap in
  (compounding_recommended rec = true <-> 0.60 <= winRate /\ 0 < sharpe)
  /\ (0.60 <= winRate -> 0 < sharpe ->
      exists p, compounding_params rec = Some p
        /\ drawdown_halve_threshold p = 0.20
        /\ drawdown_reset_threshold p = 0.40
        /\ drawdown_pause_threshold p = 0.60
        /\ (0.75 <= winRate -> tier 0.05 0.60 15 0.30 5 p)
        /\ (0.65 <= winRate < 0.75 -> tier 0.04 0.50 20 0.25 4 p)
        /\ (winRate < 0.65 -> tier 0.03 0.40 25 0.20 3 p))
  /\ (~ (0.60 <= winRate /\ 0 < sharpe) ->
      compounding_recommended rec = false /\ compounding_params rec = None).
Proof.
  intros winRate sharpe rec tier.
  destruct (recommend_fields metrics portfolioBalance) as (_ & _ & _ & Hr & Hp).
  fold rec winRate sharpe in Hr, Hp. rewrite Hr, Hp. clear Hr Hp.
  assert (Hround : forall pct,
            Rabs (py_round (portfolioBalance * pct) 2 - portfolioBalance * pct)
            <= 0.005).
  { intros pct. pose proof (py_round_error (portfolioBalance * pct) 2) as H.
    simpl in H. lra. }
  unfold step_compounding, compounding_tier, tier.
  destruct (Rleb 0.60 winRate) eqn:Hw; simpl.
  - apply Rleb_true in Hw. destruct (Rltb 0 sharpe) eqn:Hs; simpl.
    + apply Rltb_true in Hs.
      destruct (Rle_dec 0.75 winRate) as [H75|H75];
        [|destruct (Rle_dec 0.65 winRate) as [H65|H65]]; simpl;
        (split; [split; [intros _; split; assumption | reflexivity]|];
         split; [|intros Hn; exfalso; apply Hn; split; assumption];
         intros _ _; eexists; split; [reflexivity|]; simpl;
         repeat split; intros; try lra; try apply Hround).
    + apply Rltb_false in Hs.
      split; [split; [discriminate | intros [_ H]; exfalso; lra]|].
      split; [intros _ H; exfalso; lra | intros _; split; reflexivity].
  - apply Rleb_false in Hw.
    split; [split; [discriminate | intros [H _]; exfalso; lra]|].
    split; [intros H; exfalso; lra | intros _; split; reflexivity].
Qed.

Lemma example_normalized : normalized_trades example_raw = example_df.
Proof.
  unfold normalized_trades, example_raw, normalize_trade, raw. simpl.
  rdecide. reflexivity.
Qed.

(** A group left with no material position: no resolver call, nothing valued. *)
Lemma process_group_dust (gateway : string -> resolution) (c : cache)
    (stats : ResolutionStats) (market_id asset_id : string) (group : list Trade) :
  remaining_shares (replay (sort_values group)) <= 0.01 ->
  process_group gateway c stats market_id asset_id group =
  let st := replay (sort_values group) in
  {| go_result :=
       {| mr_market := market_id;
          mr_asset := asset_id;
          mr_token_type := _determine_token_type asset_id;
          mr_realized_pnl := realized_pnl st;
          mr_unrealized_pnl := 0;
          mr_total_pnl := realized_pnl st + 0;
          mr_position := remaining_shares st;
          mr_position_cost := remaining_cost st;
          mr_position_status := "open";
          mr_volume := total_volume st;
          mr_trade_count := List.length (sort_values group) |};
     go_position := None;
     go_stats := stats;
     go_cache := c |}.
Proof.
  intros Hsmall. unfold process_group.
  destruct (Rlt_dec 0.01 _) as [Hbig|_]; [exfalso; lra | reflexivity].
Qed.

Lemma once_sorted (m : string) (t0 t1 p : R) :
  t0 < t1 -> sort_values (once m t0 t1 p) = once m t0 t1 p.
Proof. intros H. unfold sort_values, once; simpl. rdecide. reflexivity. Qed.

Lemma twice_sorted (m : string) (t0 t1 t2 t3 : R) :
  t0 < t1 -> t1 < t2 -> t2 < t3 ->
  sort_values (twice m t0 t1 t2 t3) = twice m t0 t1 t2 t3.
Proof. intros H1 H2 H3. unfold sort_values, twice; simpl. rdecide. reflexivity. Qed.

Lemma once_replay (m : string) (t0 t1 p : R) :
  replay (once m t0 t1 p) =
  {| position_queue := [];
     realized_pnl := 0 + (1 * p - (0 + 1 * 0.5));
     total_volume := 0 + 1 * 0.5 + 1 * p |}.
Proof.
  unfold replay, replay_from, once, replay_trade; simpl. rdecide. reflexivity.
Qed.

Lemma twice_replay (m : string) (t0 t1 t2 t3 : R) :
  replay (twice m t0 t1 t2 t3) =
  {| position_queue := [];
     realized_pnl := 0 + (1 * 0.5 - (0 + 1 * 0.5)) + (1 * 0.5 - (0 + 1 * 0.5));
     total_volume := 0 + 1 * 0.5 + 1 * 0.5 + 1 * 0.5 + 1 * 0.5 |}.
Proof.
  unfold replay, replay_from, twice, replay_trade; simpl. rdecide. reflexivity.
Qed.

Lemma once_outcome gateway c stats (m : string) (t0 t1 p : R) :
  t0 < t1 ->
  process_group gateway c stats m "Yes" (once m t0 t1 p) =
  {| go_result := closed_result m (0 + (1 * p - (0 + 1 * 0.5)))
                                (0 + 1 * 0.5 + 1 * p) 2;
     go_position := None; go_stats := stats; go_cache := c |}.
Proof.
  intros H. rewrite process_group_dust; rewrite (once_sorted m t0 t1 p H), once_replay.
  - reflexivity.
  - unfold remaining_shares, sum; simpl. lra.
Qed.

Lemma twice_outcome gateway c stats (m : string) (t0 t1 t2 t3 : R) :
  t0 < t1 -> t1 < t2 -> t2 < t3 ->
  process_group gateway c stats m "Yes" (twice m t0 t1 t2 t3) =
  {| go_result :=
       closed_result m (0 + (1 * 0.5 - (0 + 1 * 0.5)) + (1 * 0.5 - (0 + 1 * 0.5)))
                     (0 + 1 * 0.5 + 1 * 0.5 + 1 * 0.5 + 1 * 0.5) 4;
     go_position := None; go_stats := stats; go_cache := c |}.
Proof.
  intros H1 H2 H3.
  rewrite process_group_dust;
    rewrite (twice_sorted m t0 t1 t2 t3 H1 H2 H3), twice_replay.
  - reflexivity.
  - unfold remaining_shares, sum; simpl. lra.
Qed.

Lemma example_groups :
  groupby example_df =
  [(("A", "Yes"), once "A" 0 100 0.9);
   (("B", "Yes"), twice "B" 200 300 400 500);
   (("C", "Yes"), twice "C" 600 700 800 900)].
Proof. reflexivity. Qed.

Lemma example_ledger (gateway : string -> resolution) (c : cache) :
  calculate_fifo_pnl_with_resolution gateway c example_df =
  {| market_results :=
       [("A:Yes", closed_result "A" (0 + (1 * 0.9 - (0 + 1 * 0.5)))
                                (0 + 1 * 0.5 + 1 * 0.9) 2);
        ("B:Yes", closed_result "B"
                    (0 + (1 * 0.5 - (0 + 1 * 0.5)) + (1 * 0.5 - (0 + 1 * 0.5)))
                    (0 + 1 * 0.5 + 1 * 0.5 + 1 * 0.5 + 1 * 0.5) 4);
        ("C:Yes", closed_result "C"
                    (0 + (1 * 0.5 - (0 + 1 * 0.5)) + (1 * 0.5 - (0 + 1 * 0.5)))
                    (0 + 1 * 0.5 + 1 * 0.5 + 1 * 0.5 + 1 * 0.5) 4)];
     resolution_stats := stats_zero;
     current_positions := [];
     resolution_cache := c |}.
Proof.
  unfold calculate_fifo_pnl_with_resolution. rewrite example_groups.
  cbn [fold_left ledger_step resolution_cache resolution_stats].
  rewrite once_outcome by lra.
  cbn [go_cache go_stats go_result go_position market_results current_positions
       resolution_cache resolution_stats].
  rewrite twice_outcome by lra.
  cbn [go_cache go_stats go_result go_position market_results current_positions
       resolution_cache resolution_stats].
  rewrite twice_outcome by lra.
  reflexivity.
Qed.

(** What an accepted trader's locals are, read off the code path that
    reaches the final [return]. *)
Lemma analyze_trader_locals_inr (gateway : string -> resolution) (c : cache)
    (now : R) (trades : list RawTrade) (a : Analysis) (c' : cache) :
  analyze_trader_locals gateway c now trades = (inr a, c') ->
  let df := normalized_trades trades in
  let L := calculate_fifo_pnl_with_resolution gateway c df in
  let totals := map mr_total_pnl (dict_values (market_results L)) in
  a_normalized a = df
  /\ a_market_pnl a = market_results L
  /\ a_profitable_markets a = count_if (fun x => Rltb 0 x) totals
  /\ a_losing_markets a = count_if (fun x => Rltb x 0) totals
  /\ a_win_rate a =
     INR (a_profitable_markets a)
     / INR (a_profitable_markets a + a_losing_markets a)
  /\ a_roi a = sum totals / sum (map trade_value (filter is_buy df))
  /\ a_market_returns a =
     map mr_total_pnl
       (filter (fun m => (0 <? mr_trade_count m)%nat)
               (dict_values (market_results L)))
  /\ a_sharpe a = sharpe_of (a_market_returns a)
  /\ a_days_since_active a = (now - column_max (map timestamp df)) / 86400
  /\ a_recency a = recency_of (a_days_since_active a)
  /\ a_median_trade a = median (map trade_value df)
  /\ a_score a =
     score_of (a_roi a) (a_win_rate a) (a_sharpe a) (List.length df)
              (a_median_trade a) (a_recency a)
  /\ MIN_SCORE <= a_score a.
Proof.
  unfold analyze_trader_locals. cbv zeta.
  destruct (_ <? MIN_TRADES)%nat; [discriminate|].
  destruct (_ <? MIN_MARKETS)%nat; [discriminate|].
  destruct (Rlt_dec MAX_AVG_BUY_PRICE _) as [?|Hbuy]; [discriminate|].
  destruct (Rlt_dec MAX_AVG_TRADE_SIZE _) as [?|Havg]; [discriminate|].
  destruct (Rle_dec _ 0) as [?|Hcap]; [discriminate|].
  destruct (_ =? 0)%nat; [discriminate|].
  destruct (Rlt_dec _ MIN_WIN_RATE) as [?|Hwin]; [discriminate|].
  destruct (Rlt_dec 0 _) as [Hcap'|?]; [|exfalso; lra].
  destruct (Rlt_dec _ _) as [?|Hroi]; [discriminate|].
  destruct (1 <? List.length (sorted_values _))%nat; cbv beta iota.
  all: destruct (Rlt_dec _ MIN_SCORE) as [?|Hscore]; [discriminate|].
  all: intros H; injection H as <- <-;
    cbn [a_normalized a_market_pnl a_profitable_markets a_losing_markets
         a_win_rate a_roi a_market_returns a_sharpe a_days_since_active
         a_recency a_median_trade a_score].
  all: repeat split; try reflexivity; apply Rnot_lt_le; exact Hscore.
Qed.

Lemma example_totals gateway c :
  map mr_total_pnl (dict_values (market_results
    (calculate_fifo_pnl_with_resolution gateway c example_df))) = [0.4; 0; 0].
Proof. rewrite example_ledger. unfold closed_result. cbn. list_eq. Qed.

Lemma example_returns gateway c :
  map mr_total_pnl
    (filter (fun m => (0 <? mr_trade_count m)%nat)
       (dict_values (market_results
          (calculate_fifo_pnl_with_resolution gateway c example_df)))) =
  [0.4; 0; 0].
Proof. rewrite example_ledger. unfold closed_result. cbn. list_eq. Qed.

Lemma example_profitable : count_if (fun x => Rltb 0 x) [0.4; 0; 0] = 1%nat.
Proof. unfold count_if, Rltb; simpl. rdecide. reflexivity. Qed.

Lemma example_losing : count_if (fun x => Rltb x 0) [0.4; 0; 0] = 0%nat.
Proof. unfold count_if, Rltb; simpl. rdecide. reflexivity. Qed.

Lemma insert_sorted_length (x : R) (l : list R) :
  List.length (insert_sorted x l) = S (List.length l).
Proof.
  induction l as [|h l IH]; simpl; [reflexivity|].
  destruct (Rle_dec x h); simpl; [reflexivity | rewrite IH; reflexivity].
Qed.

Lemma sorted_values_length (l : list R) :
  List.length (sorted_values l) = List.length l.
Proof.
  induction l as [|x l IH]; simpl; [reflexivity|].
  rewrite insert_sorted_length, IH. reflexivity.
Qed.

Lemma example_avg_buy_price : mean (map price example_buys) = 0.5.
Proof. unfold mean, sum, len; simpl. lra. Qed.

Lemma example_avg_trade : mean (map trade_value example_df) = 0.54.
Proof. unfold mean, sum, len, trade_value; simpl. lra. Qed.

Lemma example_capital : sum (map trade_value example_buys) = 2.5.
Proof. unfold sum, trade_value; simpl. lra. Qed.

Lemma example_total : sum [0.4; 0; 0] = 0.4.
Proof. unfold sum; simpl. lra. Qed.

Lemma example_last_ts : column_max (map timestamp example_df) = 900.
Proof.
  unfold column_max, example_df.
  cbn [map timestamp row fold_left].
  rewrite (Rmax_right 0 100), (Rmax_right 100 200), (Rmax_right 200 300),
    (Rmax_right 300 400), (Rmax_right 400 500), (Rmax_right 500 600),
    (Rmax_right 600 700), (Rmax_right 700 800), (Rmax_right 800 900) by lra.
  reflexivity.
Qed.

Lemma insert_sorted_Forall (P : R -> Prop) (x : R) (l : list R) :
  P x -> Forall P l -> Forall P (insert_sorted x l).
Proof.
  intros Hx Hl. induction Hl as [|h l Hh Hl IH]; simpl.
  - constructor; [exact Hx | constructor].
  - destruct (Rle_dec x h); repeat constructor; assumption.
Qed.

Lemma sorted_values_Forall (P : R -> Prop) (l : list R) :
  Forall P l -> Forall P (sorted_values l).
Proof.
  induction 1 as [|x l Hx Hl IH]; simpl; [constructor|].
  apply insert_sorted_Forall; assumption.
Qed.

Lemma nth_nonneg (l : list R) (n : nat) :
  Forall (fun x => 0 <= x) l -> 0 <= nth n l 0.
Proof.
  intros Hl. revert n. induction Hl as [|x l Hx Hl IH]; intros [|n]; simpl;
    try lra; auto.
Qed.

(** The median of non-negative values is non-negative. *)
Lemma median_nonneg (xs : list R) :
  Forall (fun x => 0 <= x) xs -> 0 <= median xs.
Proof.
  intros H. unfold median.
  pose proof (sorted_values_Forall _ _ H) as Hs.
  destruct (Nat.even _).
  - pose proof (nth_nonneg _ (List.length (sorted_values xs) / 2 - 1) Hs).
    pose proof (nth_nonneg _ (List.length (sorted_values xs) / 2) Hs). lra.
  - apply nth_nonneg; exact Hs.
Qed.

Lemma example_median : 0 <= median (map trade_value example_df).
Proof.
  apply median_nonneg. unfold example_df, trade_value; simpl.
  repeat constructor; simpl; lra.
Qed.

Lemma recency_now : recency_of ((900 - 900) / 86400) = 1.
Proof.
  unfold recency_of, RECENCY_HALF_LIFE_DAYS.
  replace (- 0.693 * ((900 - 900) / 86400) / 30) with 0 by lra.
  rewrite exp_0. unfold Rmax. destruct (Rle_dec 1 0.05); lra.
Qed.

Lemma log10_nonneg (x : R) : 1 <= x -> 0 <= log10 x.
Proof.
  intros Hx. unfold log10.
  assert (H10 : 0 < ln 10) by (rewrite <- ln_1; apply ln_increasing; lra).
  assert (Hl : 0 <= ln x).
  { destruct Hx as [Hx|<-]; [|rewrite ln_1; lra].
    left. rewrite <- ln_1. apply ln_increasing; lra. }
  apply Rmult_le_pos; [exact Hl | left; apply Rinv_0_lt_compat; exact H10].
Qed.

Lemma square_lower (c c' y : R) :
  0 <= c -> c <= y -> c' <= c * c -> c' <= y ^ 2.
Proof. intros Hc Hy Hc'. simpl. nra. Qed.

(** The constant of the source lies strictly below [ln 2]: with
    [q = 1 - 0.693 / 2048], eleven squarings keep [q ^ 2048] above one half,
    and [ln q <= q - 1]. *)
Lemma ln2_above_constant : 0.693 < ln 2.
Proof.
  set (q := IZR 2047307 / IZR 2048000).
  assert (Hq : 0 < q) by (unfold q; lra).
  assert (Hpow : / 2 < q ^ 2048).
  { replace (q ^ 2048) with (((((((((((q ^ 2) ^ 2) ^ 2) ^ 2) ^ 2) ^ 2) ^ 2) ^ 2) ^ 2) ^ 2) ^ 2)
      by (rewrite <- !pow_mult; reflexivity).
    assert (H0 : 0.99966162109375 <= q) by (unfold q; lra).
    pose proof (square_lower 0.99966162109375 0.999323356687784 _ ltac:(lra) H0 ltac:(lra)) as H1.
    pose proof (square_lower 0.999323356687784 0.998647171221739 _ ltac:(lra) H1 ltac:(lra)) as H2.
    pose proof (square_lower 0.998647171221739 0.997296172589181 _ ltac:(lra) H2 ltac:(lra)) as H3.
    pose proof (square_lower 0.997296172589181 0.994599655861029 _ ltac:(lra) H3 ltac:(lra)) as H4.
    pose proof (square_lower 0.994599655861029 0.989228475438877 _ ltac:(lra) H4 ltac:(lra)) as H5.
    pose proof (square_lower 0.989228475438877 0.978572976619124 _ ltac:(lra) H5 ltac:(lra)) as H6.
    pose proof (square_lower 0.978572976619124 0.957605070569212 _ ltac:(lra) H6 ltac:(lra)) as H7.
    pose proof (square_lower 0.957605070569212 0.917007471179865 _ ltac:(lra) H7 ltac:(lra)) as H8.
    pose proof (square_lower 0.917007471179865 0.84090270219969 _ ltac:(lra) H8 ltac:(lra)) as H9.
    pose proof (square_lower 0.84090270219969 0.70711735456674 _ ltac:(lra) H9 ltac:(lra)) as H10.
    pose proof (square_lower 0.70711735456674 0.500014953129464 _ ltac:(lra) H10 ltac:(lra)) as H11.
    lra. }
  assert (Hln : ln (/ 2) < ln (q ^ 2048)).
  { apply ln_increasing; [lra | exact Hpow]. }
  rewrite ln_Rinv in Hln by lra.
  rewrite ln_pow in Hln by exact Hq.
  assert (Hn : INR 2048 = 2048).
  { rewrite INR_IZR_INZ. apply f_equal. vm_compute. reflexivity. }
  rewrite Hn in Hln.
  pose proof (exp_ineq1_le (ln q)) as Hexp.
  rewrite exp_ln in Hexp by exact Hq.
  clear Hpow. unfold q in *. lra.
Qed.

Lemma key_eqb_refl (k : group_key) : key_eqb k k = true.
Proof. unfold key_eqb. rewrite !String.eqb_refl. reflexivity. Qed.

Lemma insert_key_In (k k' : group_key) (keys : list group_key) :
  In k' (insert_key k keys) -> k' = k \/ In k' keys.
Proof.
  induction keys as [|h keys IH]; simpl.
  - intros [<-|[]]. left; reflexivity.
  - destruct (key_eqb k h); [intros H; right; exact H|].
    destruct (key_leb k h); simpl.
    + intros [<-|H]; [left; reflexivity | right; exact H].
    + intros [<-|H]; [right; left; reflexivity|].
      destruct (IH H) as [->|H']; [left; reflexivity | right; right; exact H'].
Qed.

Lemma group_keys_In (df : list Trade) (k : group_key) :
  In k (group_keys df) -> exists t, In t df /\ key_of t = k.
Proof.
  unfold group_keys. induction df as [|t df IH]; simpl; [intros []|].
  intros H. apply insert_key_In in H. destruct H as [->|H].
  - exists t. split; [left; reflexivity | reflexivity].
  - destruct (IH H) as (t' & Ht' & Hk). exists t'. split; [right; exact Ht' | exact Hk].
Qed.

Lemma groupby_nonempty (df : list Trade) (k : group_key) (g : list Trade) :
  In (k, g) (groupby df) -> g <> [].
Proof.
  unfold groupby. rewrite in_map_iff. intros (k' & Heq & Hin).
  injection Heq as <- <-.
  destruct (group_keys_In _ _ Hin) as (t & Ht & Hk).
  intros Hnil.
  assert (Hf : In t (group_rows df k')).
  { unfold group_rows. apply filter_In. split; [exact Ht|].
    rewrite Hk. apply key_eqb_refl. }
  rewrite Hnil in Hf. exact Hf.
Qed.

Lemma process_group_trade_count (gateway : string -> resolution) (c : cache)
    (stats : ResolutionStats) (market_id asset_id : string) (group : list Trade) :
  mr_trade_count (go_result (process_group gateway c stats market_id asset_id group))
  = List.length group.
Proof.
  rewrite <- (Permutation_length (sort_values_perm group)).
  group_cases; reflexivity.
Qed.

(** What holds of every round of the loop over the groups of [df] holds of
    every entry of [market_results]. *)
Lemma groups_invariant (P : MarketResult -> Prop)
    (gateway : string -> resolution) (groups : list (group_key * list Trade)) :
  (forall c stats market_id asset_id group,
     In ((market_id, asset_id), group) groups ->
     P (go_result (process_group gateway c stats market_id asset_id group))) ->
  forall L0, Forall P (dict_values (market_results L0)) ->
    Forall P (dict_values (market_results (fold_left (ledger_step gateway) groups L0))).
Proof.
  induction groups as [|[[m a] g] groups IH]; intros HP L0 H0; simpl; [exact H0|].
  apply IH.
  - intros c stats m' a' g' Hin. apply HP. right. exact Hin.
  - simpl. apply dict_set_values; [exact H0 | apply HP; left; reflexivity].
Qed.

Lemma trade_count_positive (gateway : string -> resolution) (c : cache)
    (df : list Trade) :
  Forall (fun m => (0 <? mr_trade_count m)%nat = true)
         (dict_values (market_results
            (calculate_fifo_pnl_with_resolution gateway c df))).
Proof.
  unfold calculate_fifo_pnl_with_resolution. apply groups_invariant.
  - intros c0 stats m a g Hin. rewrite process_group_trade_count.
    apply Nat.ltb_lt. apply groupby_nonempty in Hin.
    destruct g; [congruence | simpl; lia].
  - constructor.
Qed.

Lemma filter_all {A : Type} (p : A -> bool) (l : list A) :
  Forall (fun x => p x = true) l -> filter p l = l.
Proof.
  induction 1 as [|x l Hx _ IH]; simpl; [reflexivity|].
  rewrite Hx, IH. reflexivity.
Qed.

(** Every group enters the Sharpe sample. *)
Lemma market_returns_all (gateway : string -> resolution) (c : cache)
    (df : list Trade) :
  let values := dict_values (market_results
                  (calculate_fifo_pnl_with_resolution gateway c df)) in
  filter (fun m => (0 <? mr_trade_count m)%nat) values = values.
Proof. apply filter_all, trade_count_positive. Qed.

Lemma recency_of_floor (d : R) : 0.05 <= recency_of d.
Proof. unfold recency_of. apply Rmax_r. Qed.

Lemma score_lower_bound (roi win_rate sharpe m recency : R) (n : nat) :
  0 <= roi -> 0 <= m -> 0 <= recency ->
  (win_rate * 25 - 6) * recency
  <= score_of roi win_rate sharpe n m recency.
Proof.
  intros Hroi Hm Hrec. unfold score_of.
  assert (Hlog : 0 <= log10 (INR n + 1)).
  { apply log10_nonneg. pose proof (pos_INR n). lra. }
  assert (Hs : -2 <= Rmax sharpe (-2)) by apply Rmax_r.
  assert (Hmin : 0 <= Rmin (roi * 100) 200).
  { apply Rmin_glb; lra. }
  assert (Hf : 0 <= 100 / (m + 50)).
  { apply Rmult_le_pos; [lra | left; apply Rinv_0_lt_compat; lra]. }
  apply Rmult_le_compat_r; [exact Hrec | lra].
Qed.

Lemma example_accepted_at gateway c (now : R) :
  5 / 19 <= recency_of ((now - 900) / 86400) ->
  exists a, analyze_trader_locals gateway c now example_raw = (inr a, c).
Proof.
  intros Hrec.
  unfold analyze_trader_locals. cbv zeta.
  rewrite example_normalized.
  change (List.length example_df <? MIN_TRADES)%nat with false.
  change (nunique (map market example_df) <? MIN_MARKETS)%nat with false.
  change (filter is_buy example_df) with example_buys.
  cbv beta iota.
  change (match example_buys with [] => 1.0 | _ :: _ => mean (map price example_buys) end)
    with (mean (map price example_buys)).
  rewrite example_avg_buy_price, example_avg_trade, example_capital.
  rewrite example_totals, example_returns, example_profitable, example_losing.
  rewrite example_total, example_last_ts.
  change (1 + 0 =? 0)%nat with false.
  replace (INR 1 / INR (1 + 0)) with 1 by (simpl; lra).
  rewrite sorted_values_length.
  change (1 <? List.length (map timestamp example_df))%nat with true.
  cbv beta iota.
  unfold MAX_AVG_BUY_PRICE, MAX_AVG_TRADE_SIZE, MIN_WIN_RATE, MIN_ROI.
  rcase (Rlt_dec 0.98 0.5). rcase (Rlt_dec 5000 0.54). rcase (Rle_dec 2.5 0).
  rcase (Rlt_dec 1 0.50). rcase (Rlt_dec 0 2.5). rcase (Rle_dec 0.90 1).
  rcase (Rlt_dec (0.4 / 2.5) 0.0).
  destruct (Rlt_dec _ MIN_SCORE) as [Hlow|_].
  - exfalso.
    pose proof (score_lower_bound (0.4 / 2.5) 1 (sharpe_of [0.4; 0; 0])
                  (median (map trade_value example_df))
                  (recency_of ((now - 900) / 86400)) (List.length example_df)
                  ltac:(lra) example_median ltac:(lra)) as Hb.
    unfold MIN_SCORE in Hlow. lra.
  - rewrite example_ledger. cbn [resolution_cache]. eexists. reflexivity.
Qed.

Lemma example_accepted_now gateway c :
  exists a, analyze_trader_locals gateway c 900 example_raw = (inr a, c).
Proof. apply example_accepted_at. rewrite recency_now. lra. Qed.

(** C4 (composite score).  For a trader that passes every filter the score
    is the recency weight times the weighted sum of ROI, win rate, Sharpe,
    trade count and median trade value given in the specification, the trade
    count being the number of normalized trades and the median being taken
    over size times price of all of them; the returned dictionary carries
    that value rounded to two decimals. *)
Theorem composite_score (gateway : string -> resolution) (c : cache) (now : R)
    (trades : list RawTrade) (a : Analysis) (c' : cache) :
  analyze_trader_locals gateway c now trades = (inr a, c') ->
  let df := normalized_trades trades in
  let formula :=
    spec_score (a_recency a) (a_roi a) (a_win_rate a) (a_sharpe a)
               (List.length df) (median (map trade_value df)) in
  a_score a = formula
  /\ forall address,
       tm_score (metrics_dict address a) = py_round formula 2
       /\ Rabs (tm_score (metrics_dict address a) - formula) <= 0.005.
Proof.
  intros H. apply analyze_trader_locals_inr in H. cbv zeta in H.
  destruct H as (_ & _ & _ & _ & _ & _ & _ & _ & _ & _ & Hmed & Hscore & _).
  cbv zeta.
  assert (Heq : a_score a =
    spec_score (a_recency a) (a_roi a) (a_win_rate a) (a_sharpe a)
      (List.length (normalized_trades trades))
      (median (map trade_value (normalized_trades trades)))).
  { rewrite Hscore, Hmed. unfold score_of, spec_score. ring. }
  split; [exact Heq|].
  intros address. cbn [tm_score metrics_dict]. rewrite <- Heq.
  split; [reflexivity|].
  pose proof (py_round_error (a_score a) 2) as Hr.
  replace (/ 2 / 10 ^ 2) with 0.005 in Hr by (simpl; lra). exact Hr.
Qed.

Lemma composite_score_witness :
  exists a,
    analyze_trader_locals no_answer [] 900 example_raw = (inr a, [])
    /\ a_score a =
       spec_score (a_recency a) (a_roi a) (a_win_rate a) (a_sharpe a)
         (List.length (normalized_trades example_raw))
         (median (map trade_value (normalized_trades example_raw))).
Proof.
  destruct (example_accepted_now no_answer []) as [a Ha].
  exists a. split; [exact Ha|].
  exact (proj1 (composite_score no_answer [] 900 example_raw a [] Ha)).
Defined.

Lemma example_sharpe_positive : 0 < sharpe_of [0.4; 0; 0].
Proof.
  unfold sharpe_of.
  change (1 <? List.length [0.4; 0; 0]%R)%nat with true. cbv beta iota zeta.
  assert (Hm : mean [0.4; 0; 0] = 0.4 / 3).
  { unfold mean, sum, len; simpl. lra. }
  assert (Hstd : 0 < np_std [0.4; 0; 0]).
  { unfold np_std. cbv zeta. rewrite Hm. apply sqrt_lt_R0.
    unfold mean, sum, len; simpl. lra. }
  destruct (Rlt_dec 0 (np_std [0.4; 0; 0])) as [_|Hn]; [|exfalso; lra].
  rewrite Hm. apply Rmult_lt_0_compat; [lra | apply Rinv_0_lt_compat; exact Hstd].
Qed.

Lemma example_decided : decided [0.4; 0; 0] = [0.4].
Proof. unfold decided, Rltb; simpl. rdecide. reflexivity. Qed.

(** C5 as stated fails: an accepted trader with a single decided market
    (the two others closed at exactly zero) has a Sharpe score different
    from zero. *)
Lemma sharpe_counts_undecided_markets :
  exists a,
    analyze_trader_locals no_answer [] 900 example_raw = (inr a, [])
    /\ (List.length (decided (map mr_total_pnl (dict_values (a_market_pnl a)))) < 2)%nat
    /\ a_sharpe a <> 0.
Proof.
  destruct (example_accepted_now no_answer []) as [a Ha].
  exists a. split; [exact Ha|].
  apply analyze_trader_locals_inr in Ha. cbv zeta in Ha.
  destruct Ha as (_ & Hpnl & _ & _ & _ & _ & Hret & Hsh & _).
  rewrite example_normalized in Hpnl, Hret.
  rewrite Hpnl, example_totals, example_decided.
  split; [simpl; lia|].
  rewrite Hsh, Hret, example_returns.
  pose proof example_sharpe_positive. lra.
Qed.

(** C5, amended (Sharpe sample).  For an accepted trader the Sharpe score is
    computed over the total PnL of every group of the ledger, decided or
    not: it is the mean over the population standard deviation of those
    values when there are at least two groups and the deviation is positive,
    and 0 when there are fewer than two groups or the deviation is zero. *)
Theorem sharpe_over_all_groups (gateway : string -> resolution) (c : cache)
    (now : R) (trades : list RawTrade) (a : Analysis) (c' : cache) :
  analyze_trader_locals gateway c now trades = (inr a, c') ->
  let totals := map mr_total_pnl (dict_values (a_market_pnl a)) in
  a_market_returns a = totals
  /\ ((List.length totals < 2)%nat -> a_sharpe a = 0)
  /\ (np_std totals <= 0 -> a_sharpe a = 0)
  /\ ((2 <= List.length totals)%nat -> 0 < np_std totals ->
      a_sharpe a = mean totals / np_std totals).
Proof.
  intros H. apply analyze_trader_locals_inr in H. cbv zeta in H.
  destruct H as (_ & Hpnl & _ & _ & _ & _ & Hret & Hsh & _).
  cbv zeta. rewrite market_returns_all in Hret. rewrite <- Hpnl in Hret.
  rewrite Hsh, Hret. unfold sharpe_of.
  split; [reflexivity|].
  destruct (1 <? _)%nat eqn:Hn.
  - apply Nat.ltb_lt in Hn. cbv zeta.
    destruct (Rlt_dec 0 _) as [Hp|Hp].
    + repeat split; intros; try reflexivity; try lia; lra.
    + repeat split; intros; try reflexivity; try lia; lra.
  - apply Nat.ltb_ge in Hn. repeat split; intros; try reflexivity; lia.
Qed.

Lemma sharpe_over_all_groups_witness :
  exists a,
    analyze_trader_locals no_answer [] 900 example_raw = (inr a, [])
    /\ a_market_returns a = map mr_total_pnl (dict_values (a_market_pnl a)).
Proof.
  destruct (example_accepted_now no_answer []) as [a Ha].
  exists a. split; [exact Ha|].
  exact (proj1 (sharpe_over_all_groups no_answer [] 900 example_raw a [] Ha)).
Defined.

Lemma spec_recency_half : spec_recency 30 RECENCY_HALF_LIFE_DAYS = 1 / 2.
Proof.
  unfold spec_recency, RECENCY_HALF_LIFE_DAYS.
  replace (- ln 2 * 30 / 30) with (- ln 2) by lra.
  rewrite exp_Ropp, exp_ln by lra.
  unfold Rmax. destruct (Rle_dec (/ 2) 0.05); lra.
Qed.

Lemma recency_of_half_life : 1 / 2 < recency_of 30.
Proof.
  unfold recency_of, RECENCY_HALF_LIFE_DAYS.
  replace (- 0.693 * 30 / 30) with (- 0.693) by lra.
  assert (H : exp (- ln 2) < exp (- 0.693)).
  { apply exp_increasing. pose proof ln2_above_constant. lra. }
  rewrite exp_Ropp, exp_ln in H by lra.
  pose proof (Rmax_l (exp (- 0.693)) 0.05). lra.
Qed.

(** C7 as stated fails: thirty days after the last trade the accepted
    example has a recency weight above the one half that a half-life of
    thirty days gives. *)
Lemma recency_is_not_the_half_life_decay :
  exists a,
    analyze_trader_locals no_answer [] 2592900 example_raw = (inr a, [])
    /\ a_days_since_active a = 30
    /\ a_recency a <> spec_recency (a_days_since_active a) RECENCY_HALF_LIFE_DAYS.
Proof.
  assert (Hd : (2592900 - 900) / 86400 = 30) by lra.
  destruct (example_accepted_at no_answer [] 2592900) as [a Ha].
  { rewrite Hd. pose proof recency_of_half_life. lra. }
  exists a. split; [exact Ha|].
  apply analyze_trader_locals_inr in Ha. cbv zeta in Ha.
  destruct Ha as (_ & _ & _ & _ & _ & _ & _ & _ & Hdays & Hrec & _).
  rewrite example_normalized, example_last_ts, Hd in Hdays.
  split; [exact Hdays|].
  rewrite Hrec, Hdays, spec_recency_half.
  pose proof recency_of_half_life. lra.
Qed.

(** C7, amended (recency weight).  For an accepted trader the recency weight
    is [max (exp (- 0.693 * days / 30)) 0.05], [days] being the time from the
    last trade to now in days: the decay constant is the literal 0.693, not
    [ln 2].  The weight is at least 0.05, and for a last trade in the past it
    lies between the specification's value and 1; the dictionary carries it
    rounded to three decimals. *)
Theorem recency_weight (gateway : string -> resolution) (c : cache) (now : R)
    (trades : list RawTrade) (a : Analysis) (c' : cache) :
  analyze_trader_locals gateway c now trades = (inr a, c') ->
  let days :=
    (now - column_max (map timestamp (normalized_trades trades))) / 86400 in
  a_days_since_active a = days
  /\ a_recency a = Rmax (exp (- 0.693 * days / 30)) 0.05
  /\ 0.05 <= a_recency a
  /\ (0 <= days -> spec_recency days 30 <= a_recency a <= 1)
  /\ forall address,
       tm_recency (metrics_dict address a) = py_round (a_recency a) 3.
Proof.
  intros H. apply analyze_trader_locals_inr in H. cbv zeta in H.
  destruct H as (_ & _ & _ & _ & _ & _ & _ & _ & Hdays & Hrec & _).
  cbv zeta. rewrite <- Hdays. rewrite Hrec.
  unfold recency_of, spec_recency, RECENCY_HALF_LIFE_DAYS.
  split; [reflexivity|]. split; [reflexivity|].
  split; [apply Rmax_r|].
  split; [|intros address; cbn [tm_recency metrics_dict]; rewrite Hrec; reflexivity].
  intros Hpos. split.
  - apply Rle_max_compat_r.
    destruct Hpos as [Hpos|<-].
    + left. apply exp_increasing. pose proof ln2_above_constant.
      assert (0.693 * (a_days_since_active a / 30)
              < ln 2 * (a_days_since_active a / 30)).
      { apply Rmult_lt_compat_r; lra. }
      lra.
    + right. f_equal. lra.
  - apply Rmax_lub; [|lra].
    rewrite <- exp_0. 
    destruct Hpos as [Hpos|<-].
    + left. apply exp_increasing. lra.
    + right. f_equal. lra.
Qed.

Lemma recency_weight_witness :
  exists a,
    analyze_trader_locals no_answer [] 900 example_raw = (inr a, [])
    /\ a_recency a =
       Rmax (exp (- 0.693 *
          ((900 - column_max (map timestamp (normalized_trades example_raw)))
           / 86400) / 30)) 0.05.
Proof.
  destruct (example_accepted_now no_answer []) as [a Ha].
  exists a. split; [exact Ha|].
  exact (proj1 (proj2 (recency_weight no_answer [] 900 example_raw a [] Ha))).
Defined.

Lemma flat_normalized : normalized_trades flat_raw = flat_df.
Proof.
  unfold normalized_trades, flat_raw, normalize_trade, raw. simpl.
  rdecide. reflexivity.
Qed.

Lemma flat_groups :
  groupby flat_df =
  [(("A", "Yes"), once "A" 0 100 0.5);
   (("B", "Yes"), twice "B" 200 300 400 500);
   (("C", "Yes"), twice "C" 600 700 800 900)].
Proof. reflexivity. Qed.

Lemma flat_totals (gateway : string -> resolution) (c : cache) :
  Forall (fun m => mr_total_pnl m = 0)
    (dict_values (market_results
       (calculate_fifo_pnl_with_resolution gateway c flat_df))).
Proof.
  unfold calculate_fifo_pnl_with_resolution. rewrite flat_groups.
  cbn [fold_left ledger_step resolution_cache resolution_stats].
  rewrite once_outcome by lra.
  cbn [go_cache go_stats go_result go_position market_results current_positions
       resolution_cache resolution_stats].
  rewrite twice_outcome by lra.
  cbn [go_cache go_stats go_result go_position market_results current_positions
       resolution_cache resolution_stats].
  rewrite twice_outcome by lra.
  unfold closed_result. cbn.
  repeat constructor; cbn; lra.
Qed.

Lemma flat_prefilters : prefilters_pass flat_df.
Proof.
  unfold prefilters_pass.
  change (List.length flat_df) with 10%nat.
  change (nunique (map market flat_df)) with 3%nat.
  change (filter is_buy flat_df) with example_buys.
  unfold MIN_TRADES, MIN_MARKETS, MAX_AVG_BUY_PRICE, MAX_AVG_TRADE_SIZE.
  split; [lia|]. split; [lia|]. split.
  - change (match example_buys with [] => 1.0 | b :: buys => mean (map price (b :: buys)) end)
      with (mean (map price example_buys)).
    rewrite example_avg_buy_price. lra.
  - unfold mean, sum, len, trade_value; simpl. lra.
Qed.

Lemma flat_capital : 0 < sum (map trade_value (filter is_buy flat_df)).
Proof.
  change (filter is_buy flat_df) with example_buys.
  rewrite example_capital. lra.
Qed.

Lemma count_if_none (p : R -> bool) (xs : list R) :
  Forall (fun x => p x = false) xs -> count_if p xs = 0%nat.
Proof.
  unfold count_if. induction 1 as [|x xs Hx _ IH]; simpl; [reflexivity|].
  rewrite Hx. exact IH.
Qed.

Lemma no_decided_counts (values : list MarketResult) :
  Forall (fun m => mr_total_pnl m = 0) values ->
  count_if (fun x => Rltb 0 x) (map mr_total_pnl values) = 0%nat
  /\ count_if (fun x => Rltb x 0) (map mr_total_pnl values) = 0%nat.
Proof.
  intros H. split; apply count_if_none; rewrite Forall_map;
    eapply Forall_impl; [|exact H| |exact H]; simpl; intros m ->;
    unfold Rltb; destruct (Rlt_dec 0 0); try reflexivity; exfalso; lra.
Qed.

(** C10 (no decided group).  A trader all of whose groups have a total PnL
    of exactly zero gets no metrics; when the trade count, market count,
    buy price and trade size filters pass and capital was deployed, the exit
    taken is the one for no closed positions, before any win rate is
    computed. *)
Theorem no_decided_group_is_rejected (gateway : string -> resolution)
    (c : cache) (now : R) (address : string) (trades : list RawTrade) :
  Forall (fun m => mr_total_pnl m = 0)
    (dict_values (market_results
       (calculate_fifo_pnl_with_resolution gateway c (normalized_trades trades)))) ->
  fst (analyze_trader gateway c now address trades) = None
  /\ (prefilters_pass (normalized_trades trades) ->
      0 < sum (map trade_value (filter is_buy (normalized_trades trades))) ->
      analyze_trader_locals gateway c now trades =
      (inl NoClosedPositions,
       resolution_cache
         (calculate_fifo_pnl_with_resolution gateway c (normalized_trades trades)))).
Proof.
  intros Hzero. destruct (no_decided_counts _ Hzero) as [Hp Hl].
  assert (Hexit : forall f, analyze_trader_locals gateway c now trades = f ->
            (exists x c', f = (inl x, c'))
            /\ (prefilters_pass (normalized_trades trades) ->
                0 < sum (map trade_value (filter is_buy (normalized_trades trades))) ->
                f = (inl NoClosedPositions,
                     resolution_cache
                       (calculate_fifo_pnl_with_resolution gateway c
                          (normalized_trades trades))))).
  { intros f <-. unfold analyze_trader_locals, prefilters_pass. cbv zeta.
    destruct (_ <? MIN_TRADES)%nat eqn:H1.
    { split; [eauto|]. apply Nat.ltb_lt in H1. intros (? & _). lia. }
    destruct (_ <? MIN_MARKETS)%nat eqn:H2.
    { split; [eauto|]. apply Nat.ltb_lt in H2. intros (_ & ? & _). lia. }
    destruct (Rlt_dec MAX_AVG_BUY_PRICE _) as [H3|H3].
    { split; [eauto|]. intros (_ & _ & H & _) _. exfalso.
      destruct (filter is_buy (normalized_trades trades)); lra. }
    destruct (Rlt_dec MAX_AVG_TRADE_SIZE _) as [H4|H4].
    { split; [eauto|]. intros (_ & _ & _ & H) _. exfalso. lra. }
    destruct (Rle_dec _ 0) as [H5|H5].
    { split; [eauto|]. intros _ H. exfalso. lra. }
    rewrite Hp, Hl. change (0 + 0 =? 0)%nat with true. cbv beta iota.
    split; [eauto | reflexivity]. }
  destruct (Hexit _ eq_refl) as [(x & c' & Hx) Hpre].
  split; [|exact Hpre].
  unfold analyze_trader. rewrite Hx. reflexivity.
Qed.

Lemma no_decided_group_is_rejected_witness :
  fst (analyze_trader no_answer [] 900 "0xflat" flat_raw) = None
  /\ analyze_trader_locals no_answer [] 900 flat_raw
     = (inl NoClosedPositions,
        resolution_cache
          (calculate_fifo_pnl_with_resolution no_answer []
             (normalized_trades flat_raw))).
Proof.
  assert (H : Forall (fun m => mr_total_pnl m = 0)
    (dict_values (market_results
       (calculate_fifo_pnl_with_resolution no_answer []
          (normalized_trades flat_raw))))).
  { rewrite flat_normalized. apply flat_totals. }
  destruct (no_decided_group_is_rejected no_answer [] 900 "0xflat" flat_raw H)
    as [Hnone Hexit].
  split; [exact Hnone|].
  apply Hexit; rewrite flat_normalized; [apply flat_prefilters | apply flat_capital].
Defined.







(** The market id is the first non-empty one of [market], [conditionId],
    [condition_id], [marketId]; an empty string counts as missing, and with
    none of them the trade is filed under 'unknown'. *)
Theorem normalize_trade_market_fallback (raw : RawTrade) (t : Trade) :
  normalize_trade raw = Some t ->
  market t =
  match find (fun x => match x with Some s => truthy s | None => false end)
             [raw_market raw; raw_conditionId raw; raw_condition_id raw;
              raw_marketId raw] with
  | Some (Some s) => s
  | _ => "unknown"
  end.
Proof.
  unfold normalize_trade.
  destruct (raw_timestamp raw) as [ts|]; [|discriminate].
  destruct (raw_size raw) as [sz|]; [|discriminate].
  destruct (raw_price raw) as [pr|]; [|discriminate].
  destruct (Rle_dec sz 0) as [|Hsz]; [discriminate|].
  destruct (Rle_dec pr 0) as [|Hpr]; [discriminate|].
  destruct (Rlt_dec 1 pr) as [|Hpr1]; [discriminate|].
  cbv zeta.
  destruct (negb _); [discriminate|].
  intros H. injection H as <-. cbn [market].
  unfold py_or, str_or_unknown; simpl.
  destruct (raw_market raw) as [a|]; [destruct (truthy a) eqn:Ha|];
    rewrite ?Ha; try reflexivity;
  (destruct (raw_conditionId raw) as [b|]; [destruct (truthy b) eqn:Hb|];
    rewrite ?Hb; try reflexivity;
   (destruct (raw_condition_id raw) as [d|]; [destruct (truthy d) eqn:Hd|];
     rewrite ?Hd; try reflexivity;
    (destruct (raw_marketId raw) as [e|]; [destruct (truthy e) eqn:He|];
      rewrite ?He; reflexivity))).
Qed.

Lemma normalize_trade_market_fallback_witness :
  market (mkTrade 5 "unknown" "unknown" "SELL" 2 1) = "unknown".
Proof.
  assert (H : normalize_trade
                (mkRaw (Some 5) (Some 2) (Some 1) "Sell" (Some "") None None None
                       None None None None)
              = Some (mkTrade 5 "unknown" "unknown" "SELL" 2 1)).
  { unfold normalize_trade; simpl. rdecide. reflexivity. }
  exact (normalize_trade_market_fallback _ _ H).
Defined.


Lemma cache_get_head (c : cache) (k : string) (r : resolution) :
  cache_get ((k, r) :: c) k = Some r.
Proof. simpl. rewrite String.eqb_refl. reflexivity. Qed.

Lemma fetch_market_resolution_keeps (gateway : string -> resolution) (c : cache)
    (condition_id asset_id k : string) (r : resolution) :
  cache_get c k = Some r ->
  cache_get (snd (fetch_market_resolution gateway c condition_id asset_id)) k
  = Some r.
Proof.
  intros H. unfold fetch_market_resolution.
  destruct (negb (truthy condition_id) || (condition_id =? "unknown")); [exact H|].
  destruct (cache_get c condition_id) eqn:Hc; [exact H|].
  simpl. destruct (k =? condition_id) eqn:Hk; [|exact H].
  apply String.eqb_eq in Hk. subst. congruence.
Qed.

(** A condition id is looked up at most once: after a first call for a real
    id, a later call for it returns the same answer and leaves the cache as
    it is, whatever the exchange would answer by then; and the first answer
    is the cached one if there was one, else the exchange's. *)
Theorem resolution_is_looked_up_once (gateway gateway' : string -> resolution)
    (c : cache) (condition_id asset_id asset_id' : string) :
  condition_id <> "" -> condition_id <> "unknown" ->
  let first := fetch_market_resolution gateway c condition_id asset_id in
  fetch_market_resolution gateway' (snd first) condition_id asset_id' = first
  /\ fst first = match cache_get c condition_id with
                 | Some r => r
                 | None => gateway condition_id
                 end.
Proof.
  intros Hne Hunk. cbv zeta. unfold fetch_market_resolution.
  assert (H1 : truthy condition_id = true).
  { unfold truthy. destruct (condition_id =? "") eqn:H; [|reflexivity].
    apply String.eqb_eq in H. contradiction. }
  assert (H2 : (condition_id =? "unknown") = false).
  { apply String.eqb_neq. exact Hunk. }
  rewrite H1, H2. simpl.
  destruct (cache_get c condition_id) as [r|] eqn:Hc; simpl.
  - rewrite Hc. split; reflexivity.
  - rewrite String.eqb_refl. split; reflexivity.
Qed.

Lemma resolution_is_looked_up_once_witness :
  fetch_market_resolution no_answer
    (snd (fetch_market_resolution held_wins [] "m" "a")) "m" "b"
  = fetch_market_resolution held_wins [] "m" "a".
Proof.
  refine (proj1 (resolution_is_looked_up_once held_wins no_answer [] "m" "a" "b" _ _));
    discriminate.
Defined.

Lemma total_volume_from (trades : list Trade) :
  forall st, total_volume (replay_from st trades)
             = total_volume st + sum (map trade_value trades).
Proof.
  induction trades as [|t trades IH]; intros st.
  - simpl. rewrite sum_nil. unfold replay_from; simpl. lra.
  - rewrite replay_from_cons, IH. cbn [map]. rewrite sum_cons.
    assert (H : total_volume (replay_trade st t) = total_volume st + trade_value t).
    { unfold replay_trade, trade_value. destruct (is_buy t); [reflexivity|].
      destruct (sell_loop _ _ _) as [[q r] k]. reflexivity. }
    rewrite H. lra.
Qed.

Lemma process_group_volume (gateway : string -> resolution) (c : cache)
    (stats : ResolutionStats) (market_id asset_id : string) (group : list Trade) :
  mr_volume (go_result (process_group gateway c stats market_id asset_id group))
  = total_volume (replay (sort_values group)).
Proof. group_cases; reflexivity. Qed.

(** The volume of a group counts every trade, buys and sells alike, at size
    times price, in whatever order the trades arrive. *)
Theorem group_volume_counts_both_sides (gateway : string -> resolution)
    (c : cache) (stats : ResolutionStats) (market_id asset_id : string)
    (group : list Trade) :
  mr_volume (go_result (process_group gateway c stats market_id asset_id group))
  = sum (map trade_value group)
  /\ sum (map trade_value group) = sum (buy_costs group) + sum (sell_revenues group).
Proof.
  split.
  - rewrite process_group_volume. unfold replay.
    rewrite total_volume_from. simpl.
    rewrite (sum_Permutation _ _ (Permutation_map trade_value (sort_values_perm group))).
    lra.
  - unfold buy_costs, sell_revenues, is_sell.
    induction group as [|t group IH]; simpl; [rewrite !sum_nil; lra|].
    destruct (is_buy t); simpl; rewrite !sum_cons; lra.
Qed.

(** For a group of valid trades the realized PnL is the sell revenue minus
    the buy cost plus the cost basis of the shares still held, oversold or
    not. *)
Theorem realized_pnl_is_revenue_minus_consumed_cost
    (gateway : string -> resolution) (c : cache) (stats : ResolutionStats)
    (market_id asset_id : string) (group : list Trade) :
  Forall valid_trade group ->
  let res := go_result (process_group gateway c stats market_id asset_id group) in
  mr_realized_pnl res =
  sum (sell_revenues group) - sum (buy_costs group) + mr_position_cost res
  /\ 0 <= mr_position_cost res.
Proof.
  intros Hv res.
  destruct (process_group_books gateway c stats market_id asset_id group)
    as (_ & Hcost & Hreal & _).
  fold res in Hcost, Hreal. rewrite Hcost, Hreal.
  assert (Hs : Forall valid_trade (sort_values group)).
  { eapply Permutation_Forall; [symmetry; apply sort_values_perm | exact Hv]. }
  destruct (replay_from_inv (sort_values group) replay_init
              ltac:(constructor) Hs) as (_ & _ & H).
  fold (replay (sort_values group)) in H.
  unfold buy_costs, sell_revenues in *.
  rewrite (sum_map_filter_perm trade_value is_buy _ _ (sort_values_perm group)) in H.
  rewrite (sum_map_filter_perm trade_value is_sell _ _ (sort_values_perm group)) in H.
  assert (H0 : remaining_cost replay_init = 0) by reflexivity.
  assert (H1 : realized_pnl replay_init = 0) by reflexivity.
  split; [lra|].
  apply lot_costs_nonneg.
  apply replay_from_priced; [constructor | exact Hs].
Qed.

Lemma realized_pnl_is_revenue_minus_consumed_cost_witness :
  let res := go_result (process_group no_answer [] stats0 "m" "a" scenario1) in
  mr_realized_pnl res =
  sum (sell_revenues scenario1) - sum (buy_costs scenario1) + mr_position_cost res.
Proof.
  exact (proj1 (realized_pnl_is_revenue_minus_consumed_cost no_answer [] stats0
                  "m" "a" scenario1 scenario1_valid)).
Defined.

Lemma insert_by_timestamp_sorted (t : Trade) (l : list Trade) :
  StronglySorted timestamp_le l ->
  StronglySorted timestamp_le (insert_by_timestamp t l).
Proof.
  induction 1 as [|h l Hl IH Hh]; simpl.
  - constructor; constructor.
  - destruct (Rlt_dec (timestamp t) (timestamp h)) as [Hlt|Hge].
    + constructor; [constructor; assumption|].
      constructor; [unfold timestamp_le; lra|].
      eapply Forall_impl; [|exact Hh]. unfold timestamp_le; intros; lra.
    + constructor; [exact IH|].
      eapply Permutation_Forall;
        [symmetry; apply insert_by_timestamp_perm|].
      constructor; [unfold timestamp_le; lra | exact Hh].
Qed.

(** The replay order of a group is a rearrangement of its trades in
    ascending timestamp order. *)
Theorem sort_values_sorts (rows : list Trade) :
  StronglySorted timestamp_le (sort_values rows)
  /\ Permutation (sort_values rows) rows.
Proof.
  split; [|apply sort_values_perm].
  unfold sort_values.
  assert (H : forall acc, StronglySorted timestamp_le acc ->
            StronglySorted timestamp_le
              (fold_left (fun sorted t => insert_by_timestamp t sorted) rows acc)).
  { induction rows as [|t rows IH]; intros acc Hacc; simpl; [exact Hacc|].
    apply IH, insert_by_timestamp_sorted, Hacc. }
  apply H. constructor.
Qed.

Lemma process_group_counts (gateway : string -> resolution) (c : cache)
    (stats : ResolutionStats) (market_id asset_id : string) (group : list Trade) :
  let o := process_group gateway c stats market_id asset_id group in
  unresolved (go_stats o) = (unresolved stats + emitted (go_position o))%nat
  /\ stats_total (go_stats o) =
     (stats_total stats
      + if holds_position ((market_id, asset_id), group) then 1 else 0)%nat.
Proof.
  unfold holds_position, Rltb, stats_total. cbn [snd].
  unfold process_group.
  destruct (Rlt_dec 0.01 _) as [Hbig|Hsmall].
  - destruct (fetch_market_resolution _ _ _ _) as [r c'].
    destruct (fst r) as [[|]|]; [destruct (position_won _ _ _)| |]; simpl; lia.
  - simpl. lia.
Qed.

Lemma ledger_counts (gateway : string -> resolution)
    (groups : list (group_key * list Trade)) :
  forall L,
    let L' := fold_left (ledger_step gateway) groups L in
    (unresolved (resolution_stats L') + List.length (current_positions L)
     = unresolved (resolution_stats L) + List.length (current_positions L'))%nat
    /\ stats_total (resolution_stats L') =
       (stats_total (resolution_stats L)
        + List.length (filter holds_position groups))%nat.
Proof.
  induction groups as [|[[m a] g] groups IH]; intros L.
  - simpl. split; lia.
  - cbv zeta.
    change (fold_left (ledger_step gateway) (((m, a), g) :: groups) L)
      with (fold_left (ledger_step gateway) groups
              (ledger_step gateway L ((m, a), g))).
    destruct (IH (ledger_step gateway L ((m, a), g))) as [I1 I2].
    cbv zeta in I1, I2.
    destruct (process_group_counts gateway (resolution_cache L)
                (resolution_stats L) m a g) as [P1 P2].
    cbv zeta in P1, P2.
    set (L1 := ledger_step gateway L ((m, a), g)) in *.
    assert (E1 : resolution_stats L1 =
                 go_stats (process_group gateway (resolution_cache L)
                             (resolution_stats L) m a g)) by reflexivity.
    assert (E2 : List.length (current_positions L1) =
                 (List.length (current_positions L)
                  + emitted (go_position (process_group gateway (resolution_cache L)
                                            (resolution_stats L) m a g)))%nat).
    { unfold L1, ledger_step. cbn [current_positions].
      destruct (go_position _); simpl; [rewrite length_app; simpl; lia | lia]. }
    rewrite E1 in I1, I2. clearbody L1.
    cbn [filter]. split.
    + lia.
    + rewrite I2, P2. unfold group_key in *.
      destruct (holds_position ((m, a), g)); simpl; lia.
Qed.

(** The four counters of the resolution statistics add up to the number of
    groups left with more than 0.01 shares, and the list of current
    positions has exactly one entry per group counted as unresolved. *)
Theorem resolution_stats_account (gateway : string -> resolution) (c : cache)
    (df : list Trade) :
  let L := calculate_fifo_pnl_with_resolution gateway c df in
  stats_total (resolution_stats L)
  = List.length (filter holds_position (groupby df))
  /\ List.length (current_positions L) = unresolved (resolution_stats L).
Proof.
  cbv zeta. unfold calculate_fifo_pnl_with_resolution.
  match goal with
  | |- context [fold_left _ _ ?L0] =>
    destruct (ledger_counts gateway (groupby df) L0) as [H1 H2]
  end.
  cbv zeta in H1, H2. simpl in H1, H2.
  split; [rewrite H2; reflexivity | lia].
Qed.

Lemma process_group_keeps (gateway : string -> resolution) (c : cache)
    (stats : ResolutionStats) (market_id asset_id : string) (group : list Trade)
    (k : string) (r : resolution) :
  cache_get c k = Some r ->
  cache_get (go_cache (process_group gateway c stats market_id asset_id group)) k
  = Some r.
Proof.
  intros H. unfold process_group.
  destruct (Rlt_dec 0.01 _) as [Hbig|Hsmall]; [|exact H].
  pose proof (fetch_market_resolution_keeps gateway c market_id asset_id k r H) as Hk.
  destruct (fetch_market_resolution _ _ _ _) as [r' c'].
  destruct (fst r') as [[|]|]; [destruct (position_won _ _ _)| |]; exact Hk.
Qed.

Lemma fold_ledger_keeps (gateway : string -> resolution)
    (groups : list (group_key * list Trade)) (k : string) (r : resolution) :
  forall L, cache_get (resolution_cache L) k = Some r ->
  cache_get (resolution_cache (fold_left (ledger_step gateway) groups L)) k = Some r.
Proof.
  induction groups as [|[[m a] g] groups IH]; intros L H; simpl; [exact H|].
  apply IH. unfold ledger_step. cbn [resolution_cache].
  apply process_group_keeps. exact H.
Qed.

(** An answer already in the cache survives the ledger: entries are added,
    never replaced or dropped. *)
Theorem ledger_keeps_cached_answers (gateway : string -> resolution) (c : cache)
    (df : list Trade) (k : string) (r : resolution) :
  cache_get c k = Some r ->
  cache_get (resolution_cache (calculate_fifo_pnl_with_resolution gateway c df)) k
  = Some r.
Proof.
  intros H. unfold calculate_fifo_pnl_with_resolution.
  apply fold_ledger_keeps. exact H.
Qed.

Lemma ledger_keeps_cached_answers_witness :
  cache_get
    (resolution_cache
       (calculate_fifo_pnl_with_resolution no_answer
          [("m", (Some RESOLVED, Some "a"))] example_df)) "m"
  = Some (Some RESOLVED, Some "a").
Proof.
  apply ledger_keeps_cached_answers. reflexivity.
Defined.

(** A position in a market whose id is missing ('' or 'unknown') is never
    looked up: it is marked to the last trade price with status unknown, the
    cache stays as it is and only the [unknown] counter moves. *)
Theorem unknown_market_is_not_looked_up (gateway : string -> resolution)
    (c : cache) (stats : ResolutionStats) (market_id asset_id : string)
    (group : list Trade) :
  market_id = "" \/ market_id = "unknown" ->
  0.01 < remaining_shares (replay (sort_values group)) ->
  let o := process_group gateway c stats market_id asset_id group in
  let st := replay (sort_values group) in
  go_cache o = c
  /\ mr_position_status (go_result o) = "unknown"
  /\ mr_unrealized_pnl (go_result o) =
     remaining_shares st * iloc_last price (sort_values group) - remaining_cost st
  /\ go_position o = None
  /\ go_stats o =
     {| resolved_won := resolved_won stats;
        resolved_lost := resolved_lost stats;
        unresolved := unresolved stats;
        unknown := S (unknown stats) |}.
Proof.
  intros Hid Hheld. cbv zeta. unfold process_group.
  destruct (Rlt_dec 0.01 _) as [_|Hn]; [|contradiction].
  assert (Hf : fetch_market_resolution gateway c market_id asset_id
               = ((None, None), c)).
  { unfold fetch_market_resolution. destruct Hid as [-> | ->]; reflexivity. }
  rewrite Hf. simpl. repeat split.
Qed.

Lemma unknown_market_is_not_looked_up_witness :
  mr_position_status
    (go_result (process_group held_wins [] stats0 "unknown" "a" unknown_buy))
  = "unknown".
Proof.
  refine (proj1 (proj2 (unknown_market_is_not_looked_up held_wins [] stats0
                          "unknown" "a" unknown_buy _ _))).
  - right. reflexivity.
  - unfold unknown_buy, sort_values, replay, replay_from, replay_trade,
      remaining_shares, sum; simpl. lra.
Defined.

Lemma ledger_without_positions (gateway : string -> resolution)
    (groups : list (group_key * list Trade)) :
  Forall (fun g => holds_position g = false) groups ->
  forall L,
    let L' := fold_left (ledger_step gateway) groups L in
    resolution_cache L' = resolution_cache L
    /\ resolution_stats L' = resolution_stats L
    /\ current_positions L' = current_positions L.
Proof.
  induction 1 as [|[[m a] g] groups Hg _ IH]; intros L; [repeat split|].
  cbv zeta.
  change (fold_left (ledger_step gateway) (((m, a), g) :: groups) L)
    with (fold_left (ledger_step gateway) groups
            (ledger_step gateway L ((m, a), g))).
  destruct (IH (ledger_step gateway L ((m, a), g))) as (I1 & I2 & I3).
  cbv zeta in I1, I2, I3. rewrite I1, I2, I3.
  unfold ledger_step.
  unfold holds_position, Rltb in Hg. cbn [snd] in Hg.
  destruct (Rlt_dec 0.01 (remaining_shares (replay (sort_values g))))
    as [|Hsmall]; [discriminate|].
  rewrite process_group_dust by lra.
  cbn. repeat split.
Qed.

(** A trader who has closed every position costs no lookup: the ledger
    returns the cache it was given, all four counters at zero and no current
    position. *)
Theorem closed_books_need_no_lookup (gateway : string -> resolution) (c : cache)
    (df : list Trade) :
  Forall (fun g => holds_position g = false) (groupby df) ->
  let L := calculate_fifo_pnl_with_resolution gateway c df in
  resolution_cache L = c
  /\ resolution_stats L = stats_zero
  /\ current_positions L = [].
Proof.
  intros H. cbv zeta. unfold calculate_fifo_pnl_with_resolution.
  match goal with
  | |- context [fold_left _ _ ?L0] =>
    destruct (ledger_without_positions gateway (groupby df) H L0) as (H1 & H2 & H3)
  end.
  cbv zeta in H1, H2, H3. rewrite H1, H2, H3. repeat split.
Qed.

Lemma once_closed (k : group_key) (m : string) (t0 t1 p : R) :
  t0 < t1 -> holds_position (k, once m t0 t1 p) = false.
Proof.
  intros H. unfold holds_position, Rltb. cbn [snd].
  rewrite once_sorted, once_replay by exact H.
  unfold remaining_shares, sum; simpl.
  destruct (Rlt_dec 0.01 0); [exfalso; lra | reflexivity].
Qed.

Lemma twice_closed (k : group_key) (m : string) (t0 t1 t2 t3 : R) :
  t0 < t1 -> t1 < t2 -> t2 < t3 ->
  holds_position (k, twice m t0 t1 t2 t3) = false.
Proof.
  intros H1 H2 H3. unfold holds_position, Rltb. cbn [snd].
  rewrite twice_sorted, twice_replay by assumption.
  unfold remaining_shares, sum; simpl.
  destruct (Rlt_dec 0.01 0); [exfalso; lra | reflexivity].
Qed.

Lemma example_closed : Forall (fun g => holds_position g = false) (groupby example_df).
Proof.
  rewrite example_groups.
  apply Forall_cons; [apply once_closed; lra|].
  apply Forall_cons; [apply twice_closed; lra|].
  apply Forall_cons; [apply twice_closed; lra|].
  apply Forall_nil.
Qed.

Lemma closed_books_need_no_lookup_witness :
  resolution_cache (calculate_fifo_pnl_with_resolution held_wins [] example_df) = [].
Proof.
  exact (proj1 (closed_books_need_no_lookup held_wins [] example_df example_closed)).
Defined.

(** The checks passed on the way to the final [return], and the locals not
    covered by [analyze_trader_locals_inr]. *)
Lemma analyze_trader_locals_filters (gateway : string -> resolution) (c : cache)
    (now : R) (trades : list RawTrade) (a : Analysis) (c' : cache) :
  analyze_trader_locals gateway c now trades = (inr a, c') ->
  let df := normalized_trades trades in
  let L := calculate_fifo_pnl_with_resolution gateway c df in
  let gaps := np_diff (sorted_values (map timestamp df)) in
  (MIN_TRADES <= List.length df)%nat
  /\ a_unique_markets a = nunique (map market df)
  /\ (MIN_MARKETS <= a_unique_markets a)%nat
  /\ a_avg_buy_price a <= MAX_AVG_BUY_PRICE
  /\ a_avg_trade_size a = mean (map trade_value df)
  /\ a_avg_trade_size a <= MAX_AVG_TRADE_SIZE
  /\ a_capital_deployed a = sum (map trade_value (filter is_buy df))
  /\ 0 < a_capital_deployed a
  /\ (a_profitable_markets a + a_losing_markets a <> 0)%nat
  /\ MIN_WIN_RATE <= a_win_rate a
  /\ (if Rle_dec 0.90 (a_win_rate a) then 0.0
      else if Rle_dec 0.80 (a_win_rate a) then MIN_ROI * 0.25
      else if Rle_dec 0.70 (a_win_rate a) then MIN_ROI * 0.5
      else MIN_ROI) <= a_roi a
  /\ a_active_days a =
     Rmax ((column_max (map timestamp df) - column_min (map timestamp df)) / 86400) 1
  /\ a_annualized_roi a =
     (if Rltb 0 (a_roi a) && Rleb 7 (a_active_days a)
      then Rmin (Rpower (1 + a_roi a) (365 / a_active_days a) - 1) 20
      else a_roi a)
  /\ a_median_gap_seconds a = median gaps
  /\ a_rapid_trade_pct a =
     (if (0 <? List.length gaps)%nat
      then INR (count_if (fun g => Rltb g 60) gaps) / len gaps else 0)
  /\ a_very_rapid_pct a =
     (if (0 <? List.length gaps)%nat
      then INR (count_if (fun g => Rltb g 10) gaps) / len gaps else 0)
  /\ a_latency_risk a =
     (if Rltb 0.10 (a_very_rapid_pct a) || Rltb 0.30 (a_rapid_trade_pct a)
      then "HIGH"
      else if Rltb 0.10 (a_rapid_trade_pct a) then "MEDIUM" else "LOW")
  /\ c' = resolution_cache L
  /\ a_resolution_stats a = resolution_stats L
  /\ a_current_positions a = current_positions L.
Proof.
  unfold analyze_trader_locals. cbv zeta.
  destruct (_ <? MIN_TRADES)%nat eqn:H1; [discriminate|].
  destruct (_ <? MIN_MARKETS)%nat eqn:H2; [discriminate|].
  destruct (Rlt_dec MAX_AVG_BUY_PRICE _) as [?|Hbuy]; [discriminate|].
  destruct (Rlt_dec MAX_AVG_TRADE_SIZE _) as [?|Havg]; [discriminate|].
  destruct (Rle_dec _ 0) as [?|Hcap]; [discriminate|].
  destruct (_ =? 0)%nat eqn:H3; [discriminate|].
  destruct (Rlt_dec _ MIN_WIN_RATE) as [?|Hwin]; [discriminate|].
  destruct (Rlt_dec 0 _) as [Hcap'|?]; [|exfalso; lra].
  destruct (Rlt_dec _ _) as [?|Hroi]; [discriminate|].
  apply Nat.ltb_ge in H1, H2. apply Nat.eqb_neq in H3.
  destruct (1 <? List.length (sorted_values _))%nat eqn:Hlen.
  2:{ exfalso. apply Nat.ltb_ge in Hlen.
      rewrite sorted_values_length, length_map in Hlen.
      unfold MIN_TRADES in H1. lia. }
  cbv beta iota.
  destruct (Rlt_dec _ MIN_SCORE) as [?|Hscore]; [discriminate|].
  intros H; injection H as <- <-.
  cbn [a_normalized a_unique_markets a_avg_buy_price a_avg_trade_size
       a_capital_deployed a_market_pnl a_resolution_stats a_current_positions
       a_profitable_markets a_losing_markets a_win_rate a_roi a_active_days
       a_annualized_roi a_median_gap_seconds a_rapid_trade_pct a_very_rapid_pct
       a_latency_risk].
  split; [exact H1|]. split; [reflexivity|]. split; [exact H2|].
  split; [apply Rnot_lt_le; exact Hbuy|]. split; [reflexivity|].
  split; [apply Rnot_lt_le; exact Havg|]. split; [reflexivity|].
  split; [exact Hcap'|]. split; [exact H3|].
  split; [apply Rnot_lt_le; exact Hwin|].
  split; [apply Rnot_lt_le; exact Hroi|].
  repeat split; reflexivity.
Qed.

Lemma count_if_le_length (p : R -> bool) (xs : list R) :
  (count_if p xs <= List.length xs)%nat.
Proof. unfold count_if. apply filter_length_le. Qed.

Lemma count_if_mono (p q : R -> bool) (xs : list R) :
  (forall x, p x = true -> q x = true) ->
  (count_if p xs <= count_if q xs)%nat.
Proof.
  intros H. unfold count_if. induction xs as [|x xs IH]; simpl; [lia|].
  destruct (p x) eqn:Hp.
  - rewrite (H x Hp). simpl. lia.
  - destruct (q x); simpl; lia.
Qed.

Lemma win_rate_at_most_one (p l : nat) :
  (p + l <> 0)%nat -> INR p / INR (p + l) <= 1.
Proof.
  intros H.
  assert (Hpos : 0 < INR (p + l)) by (apply lt_0_INR; lia).
  apply Rmult_le_reg_r with (INR (p + l)); [exact Hpos|].
  unfold Rdiv. rewrite Rmult_assoc, Rinv_l, Rmult_1_r, Rmult_1_l by lra.
  apply le_INR. lia.
Qed.

(** An accepted trader has at least 10 valid trades in at least 3 markets, an
    average buy price of at most 0.98, an average trade of at most 5000,
    capital deployed, a win rate between 0.5 and 1, a ROI that is never
    negative and at least 0.05, 0.025 or 0.0125 when the win rate is below
    0.7, 0.8 or 0.9, and a score of at least 5. *)
Theorem accepted_trader_meets_thresholds (gateway : string -> resolution)
    (c : cache) (now : R) (trades : list RawTrade) (a : Analysis) (c' : cache) :
  analyze_trader_locals gateway c now trades = (inr a, c') ->
  (10 <= List.length (a_normalized a))%nat
  /\ (3 <= a_unique_markets a)%nat
  /\ a_avg_buy_price a <= 0.98
  /\ a_avg_trade_size a <= 5000
  /\ 0 < a_capital_deployed a
  /\ 0.5 <= a_win_rate a <= 1
  /\ 0 <= a_roi a
  /\ (a_win_rate a < 0.9 -> 0.0125 <= a_roi a)
  /\ (a_win_rate a < 0.8 -> 0.025 <= a_roi a)
  /\ (a_win_rate a < 0.7 -> 0.05 <= a_roi a)
  /\ 5 <= a_score a.
Proof.
  intros H.
  pose proof (analyze_trader_locals_inr _ _ _ _ _ _ H) as Hi.
  pose proof (analyze_trader_locals_filters _ _ _ _ _ _ H) as Hf.
  cbv zeta in Hi, Hf.
  destruct Hi as (Hn & _ & _ & _ & Hw & _ & _ & _ & _ & _ & _ & _ & Hs).
  destruct Hf as (F1 & _ & F3 & F4 & _ & F6 & _ & F8 & F9 & F10 & F11 & _).
  unfold MIN_TRADES, MIN_MARKETS, MAX_AVG_BUY_PRICE, MAX_AVG_TRADE_SIZE,
    MIN_WIN_RATE, MIN_ROI, MIN_SCORE in *.
  rewrite Hn.
  assert (Hone : a_win_rate a <= 1).
  { rewrite Hw. apply win_rate_at_most_one. exact F9. }
  destruct (Rle_dec 0.90 (a_win_rate a));
    [|destruct (Rle_dec 0.80 (a_win_rate a));
      [|destruct (Rle_dec 0.70 (a_win_rate a))]];
    repeat split; try assumption; try lra; intros; lra.
Qed.

Lemma accepted_trader_meets_thresholds_witness :
  exists a,
    analyze_trader_locals no_answer [] 900 example_raw = (inr a, [])
    /\ 0.5 <= a_win_rate a <= 1 /\ 0 <= a_roi a.
Proof.
  destruct (example_accepted_now no_answer []) as [a Ha].
  exists a. split; [exact Ha|].
  destruct (accepted_trader_meets_thresholds no_answer [] 900 example_raw a [] Ha)
    as (_ & _ & _ & _ & _ & Hw & Hr & _).
  split; [exact Hw | exact Hr].
Defined.

(** The five rejections that precede the ledger (too few trades or markets,
    scalper, whale, no capital deployed) are decided without any resolution
    lookup and leave the cache as it was; the four later ones leave the cache
    the ledger built; and the first exit is taken exactly when fewer than 10
    raw records normalize. *)
Theorem cheap_rejections_make_no_lookup (gateway : string -> resolution)
    (c : cache) (now : R) (trades : list RawTrade) (x : Filtered) (c' : cache) :
  analyze_trader_locals gateway c now trades = (inl x, c') ->
  (In x [FewTrades; FewMarkets; Scalper; Whale; NoCapitalDeployed] -> c' = c)
  /\ (In x [NoClosedPositions; LowWinRate; LowRoi; LowScore] ->
      c' = resolution_cache
             (calculate_fifo_pnl_with_resolution gateway c
                (normalized_trades trades)))
  /\ (x = FewTrades <-> (List.length (normalized_trades trades) < 10)%nat).
Proof.
  unfold analyze_trader_locals. cbv zeta.
  assert (Hin : forall (y : Filtered) (l : list Filtered) (P : Prop),
            existsb (fun z => match y, z with
                              | FewTrades, FewTrades | FewMarkets, FewMarkets
                              | Scalper, Scalper | Whale, Whale
                              | NoCapitalDeployed, NoCapitalDeployed
                              | NoClosedPositions, NoClosedPositions
                              | LowWinRate, LowWinRate | LowRoi, LowRoi
                              | LowScore, LowScore => true
                              | _, _ => false end) l = false ->
            In y l -> P).
  { intros y l P Hf Hy. exfalso.
    assert (He : existsb (fun z => match y, z with
                              | FewTrades, FewTrades | FewMarkets, FewMarkets
                              | Scalper, Scalper | Whale, Whale
                              | NoCapitalDeployed, NoCapitalDeployed
                              | NoClosedPositions, NoClosedPositions
                              | LowWinRate, LowWinRate | LowRoi, LowRoi
                              | LowScore, LowScore => true
                              | _, _ => false end) l = true).
    { apply existsb_exists. exists y. split; [exact Hy | destruct y; reflexivity]. }
    congruence. }
  destruct (_ <? MIN_TRADES)%nat eqn:H1.
  { intros H; injection H as <- <-. apply Nat.ltb_lt in H1.
    unfold MIN_TRADES in H1.
    split; [reflexivity|]. split; [apply Hin; reflexivity|].
    split; [intros _; exact H1 | reflexivity]. }
  apply Nat.ltb_ge in H1. unfold MIN_TRADES in H1.
  assert (Hnot : forall y, y <> FewTrades ->
            (y = FewTrades <-> (List.length (normalized_trades trades) < 10)%nat)).
  { intros y Hy. split; [contradiction | lia]. }
  destruct (_ <? MIN_MARKETS)%nat.
  { intros H; injection H as <- <-.
    split; [reflexivity|]. split; [apply Hin; reflexivity|].
    apply Hnot; discriminate. }
  destruct (Rlt_dec MAX_AVG_BUY_PRICE _).
  { intros H; injection H as <- <-.
    split; [reflexivity|]. split; [apply Hin; reflexivity|].
    apply Hnot; discriminate. }
  destruct (Rlt_dec MAX_AVG_TRADE_SIZE _).
  { intros H; injection H as <- <-.
    split; [reflexivity|]. split; [apply Hin; reflexivity|].
    apply Hnot; discriminate. }
  destruct (Rle_dec _ 0).
  { intros H; injection H as <- <-.
    split; [reflexivity|]. split; [apply Hin; reflexivity|].
    apply Hnot; discriminate. }
  destruct (_ =? 0)%nat.
  { intros H; injection H as <- <-.
    split; [apply Hin; reflexivity|]. split; [reflexivity|].
    apply Hnot; discriminate. }
  destruct (Rlt_dec _ MIN_WIN_RATE).
  { intros H; injection H as <- <-.
    split; [apply Hin; reflexivity|]. split; [reflexivity|].
    apply Hnot; discriminate. }
  destruct (Rlt_dec _ _).
  { intros H; injection H as <- <-.
    split; [apply Hin; reflexivity|]. split; [reflexivity|].
    apply Hnot; discriminate. }
  destruct (1 <? List.length (sorted_values _))%nat; cbv beta iota.
  all: destruct (Rlt_dec _ MIN_SCORE); [|discriminate].
  all: intros H; injection H as <- <-.
  all: (split; [apply Hin; reflexivity|]; split; [reflexivity|];
        apply Hnot; discriminate).
Qed.

Lemma cheap_rejections_make_no_lookup_witness :
  snd (analyze_trader_locals held_wins [] 0 []) = [].
Proof.
  assert (H : analyze_trader_locals held_wins [] 0 [] = (inl FewTrades, []))
    by reflexivity.
  rewrite H.
  apply (proj1 (cheap_rejections_make_no_lookup held_wins [] 0 [] FewTrades [] H)).
  left. reflexivity.
Defined.

Lemma ratio_bounds (k n m : nat) :
  (k <= n)%nat -> (n <= m)%nat -> (0 < m)%nat ->
  0 <= INR k / INR m <= INR n / INR m /\ INR n / INR m <= 1.
Proof.
  intros Hk Hn Hm.
  assert (Hpos : 0 < INR m) by (apply lt_0_INR; exact Hm).
  assert (Hi : 0 < / INR m) by (apply Rinv_0_lt_compat; exact Hpos).
  pose proof (pos_INR k) as H0.
  pose proof (le_INR _ _ Hk) as H1.
  pose proof (le_INR _ _ Hn) as H2.
  unfold Rdiv. repeat split.
  - apply Rmult_le_pos; lra.
  - apply Rmult_le_compat_r; lra.
  - apply Rmult_le_reg_r with (INR m); [exact Hpos|].
    rewrite Rmult_assoc, Rinv_l, Rmult_1_r, Rmult_1_l by lra. exact H2.
Qed.

(** For an accepted trader the share of gaps under 10 seconds is at most the
    share of gaps under 60 seconds, both lie between 0 and 1, and the
    latency risk is HIGH when more than 10% of gaps are under 10 s or more
    than 30% under 60 s, MEDIUM when more than 10% are under 60 s, and LOW
    only when at most 10% of the gaps are under 60 s. *)
Theorem latency_risk_classes (gateway : string -> resolution) (c : cache)
    (now : R) (trades : list RawTrade) (a : Analysis) (c' : cache) :
  analyze_trader_locals gateway c now trades = (inr a, c') ->
  0 <= a_very_rapid_pct a <= a_rapid_trade_pct a
  /\ a_rapid_trade_pct a <= 1
  /\ (a_latency_risk a = "HIGH" <->
      0.10 < a_very_rapid_pct a \/ 0.30 < a_rapid_trade_pct a)
  /\ (a_latency_risk a = "MEDIUM" <->
      a_very_rapid_pct a <= 0.10 /\ 0.10 < a_rapid_trade_pct a <= 0.30)
  /\ (a_latency_risk a = "LOW" <-> a_rapid_trade_pct a <= 0.10).
Proof.
  intros H.
  pose proof (analyze_trader_locals_filters _ _ _ _ _ _ H) as Hf.
  cbv zeta in Hf.
  destruct Hf as (_ & _ & _ & _ & _ & _ & _ & _ & _ & _ & _ & _ & _ & _
                  & Hr & Hv & Hl & _).
  set (gaps := np_diff (sorted_values
                 (map timestamp (normalized_trades trades)))) in *.
  assert (Hb : 0 <= a_very_rapid_pct a <= a_rapid_trade_pct a
               /\ a_rapid_trade_pct a <= 1).
  { rewrite Hr, Hv. destruct (0 <? List.length gaps)%nat eqn:Hg; [|lra].
    apply Nat.ltb_lt in Hg. unfold len.
    apply ratio_bounds; [|apply count_if_le_length | exact Hg].
    apply count_if_mono. intros g. unfold Rltb.
    destruct (Rlt_dec g 10); [|discriminate].
    destruct (Rlt_dec g 60); [reflexivity | exfalso; lra]. }
  destruct Hb as [Hb1 Hb2]. split; [exact Hb1|]. split; [exact Hb2|].
  rewrite Hl. unfold Rltb.
  destruct (Rlt_dec 0.10 (a_very_rapid_pct a));
    destruct (Rlt_dec 0.30 (a_rapid_trade_pct a));
    destruct (Rlt_dec 0.10 (a_rapid_trade_pct a)); simpl;
    repeat split; intros; try discriminate; try reflexivity; try lra;
    try tauto;
    try (match goal with H : _ \/ _ |- _ => destruct H; lra end);
    try (match goal with H : _ /\ _ |- _ => destruct H; lra end).
Qed.

Lemma latency_risk_classes_witness :
  exists a,
    analyze_trader_locals no_answer [] 900 example_raw = (inr a, [])
    /\ a_rapid_trade_pct a <= 1.
Proof.
  destruct (example_accepted_now no_answer []) as [a Ha].
  exists a. split; [exact Ha|].
  exact (proj1 (proj2 (latency_risk_classes no_answer [] 900 example_raw a [] Ha))).
Defined.

(** For an accepted trader the active period counts as at least one day; the
    ROI is annualised only when it is positive and the trader has been active
    for at least 7 days, and is then capped at 20 (2000%) and, for a period
    of at most a year, never below the smaller of the ROI and the cap;
    otherwise the plain ROI is reported. *)
Theorem annualized_roi_is_capped (gateway : string -> resolution) (c : cache)
    (now : R) (trades : list RawTrade) (a : Analysis) (c' : cache) :
  analyze_trader_locals gateway c now trades = (inr a, c') ->
  1 <= a_active_days a
  /\ (0 < a_roi a -> 7 <= a_active_days a ->
      a_annualized_roi a =
        Rmin (Rpower (1 + a_roi a) (365 / a_active_days a) - 1) 20
      /\ a_annualized_roi a <= 20
      /\ (a_active_days a <= 365 -> Rmin (a_roi a) 20 <= a_annualized_roi a))
  /\ (a_roi a <= 0 \/ a_active_days a < 7 -> a_annualized_roi a = a_roi a).
Proof.
  intros H.
  pose proof (analyze_trader_locals_filters _ _ _ _ _ _ H) as Hf.
  cbv zeta in Hf.
  destruct Hf as (_ & _ & _ & _ & _ & _ & _ & _ & _ & _ & _ & Hd & Ha & _).
  split; [rewrite Hd; apply Rmax_r|].
  rewrite Ha. unfold Rltb, Rleb.
  destruct (Rlt_dec 0 (a_roi a)) as [Hr|Hr];
    destruct (Rle_dec 7 (a_active_days a)) as [H7|H7]; simpl.
  - split; [|intros [?|?]; exfalso; lra].
    intros _ _. split; [reflexivity|]. split; [apply Rmin_r|].
    intros Hyear. apply Rmin_glb; [|apply Rmin_r].
    eapply Rle_trans; [apply Rmin_l|].
    assert (Hexp : 1 <= 365 / a_active_days a).
    { apply Rmult_le_reg_r with (a_active_days a); [lra|].
      unfold Rdiv. rewrite Rmult_assoc, Rinv_l, Rmult_1_r by lra. lra. }
    pose proof (Rle_Rpower (1 + a_roi a) 1 (365 / a_active_days a)
                  ltac:(lra) Hexp) as Hp.
    rewrite Rpower_1 in Hp by lra. lra.
  - split; [intros; exfalso; lra | reflexivity].
  - split; [intros; exfalso; lra | reflexivity].
  - split; [intros; exfalso; lra | reflexivity].
Qed.

Lemma annualized_roi_is_capped_witness :
  exists a,
    analyze_trader_locals no_answer [] 900 example_raw = (inr a, [])
    /\ 1 <= a_active_days a.
Proof.
  destruct (example_accepted_now no_answer []) as [a Ha].
  exists a. split; [exact Ha|].
  exact (proj1 (annualized_roi_is_capped no_answer [] 900 example_raw a [] Ha)).
Defined.

(** The remaining fields of the recommendation, by the step that sets them. *)
Lemma recommend_fields_more (metrics : Metrics) (portfolio_balance : R) :
  let avg_trade := get (m_avg_trade metrics) 50 in
  let win_rate := get (m_win_rate metrics) 0.5 in
  let sharpe := get (m_sharpe metrics) 0 in
  let order := fst (fst (step_order_type (get (m_latency_risk metrics) "LOW"))) in
  let sizing := step_sizing avg_trade win_rate
                  (get (m_capital_deployed metrics) 1000) portfolio_balance in
  let rec := recommend_copy_strategy metrics portfolio_balance in
  max_position_pct rec = fst (fst (step_max_position sharpe win_rate))
  /\ primary_strategy rec = fst (step_primary order (fst (fst sizing)))
  /\ expected_trades_per_day rec =
     fst (fst (step_usage (get (m_active_days metrics) 30)
                 (get (m_trades metrics) 0) avg_trade portfolio_balance
                 (fst (fst sizing)) (suggested_size rec)))
  /\ expected_capital_usage rec =
     snd (fst (step_usage (get (m_active_days metrics) 30)
                 (get (m_trades metrics) 0) avg_trade portfolio_balance
                 (fst (fst sizing)) (suggested_size rec))).
Proof.
  intros avg_trade win_rate sharpe order sizing rec.
  subst rec order sizing. unfold recommend_copy_strategy.
  fold avg_trade win_rate sharpe.
  destruct (step_order_type _) as [[ot r1] w1].
  destruct (step_sizing _ _ _ _) as [[sm sz] r2].
  cbn [fst snd].
  destruct (step_minimum _ _ _) as [[sz' r3] w3].
  destruct (step_max_position _ _) as [[mp r4] w4].
  destruct (step_usage _ _ _ _ _ _) as [[e1 e2] w5] eqn:Hu.
  destruct (step_primary _ _) as [ps r6].
  destruct (step_compounding _ _ _) as [[cr cp] r7].
  cbn [fst snd max_position_pct primary_strategy expected_trades_per_day
       expected_capital_usage suggested_size].
  rewrite Hu. repeat split.
Qed.

Lemma step_order_type_cases (latency_risk : string) :
  let order := fst (fst (step_order_type latency_risk)) in
  (latency_risk = "HIGH" /\ order = "limit")
  \/ (latency_risk <> "HIGH" /\ latency_risk = "MEDIUM" /\ order = "hybrid")
  \/ (latency_risk <> "HIGH" /\ latency_risk <> "MEDIUM" /\ order = "market").
Proof.
  unfold step_order_type.
  destruct (latency_risk =? "HIGH") eqn:H1.
  - left. apply String.eqb_eq in H1. split; [exact H1 | reflexivity].
  - apply String.eqb_neq in H1.
    destruct (latency_risk =? "MEDIUM") eqn:H2.
    + right; left. apply String.eqb_eq in H2. repeat split; assumption.
    + right; right. apply String.eqb_neq in H2. repeat split; assumption.
Qed.

Lemma step_sizing_method (avg_trade win_rate trader_capital portfolio_balance : R) :
  let sizing := step_sizing avg_trade win_rate trader_capital portfolio_balance in
  fst (fst sizing) = "fixed_amount" \/ fst (fst sizing) = "pct_of_trade".
Proof.
  unfold step_sizing. cbv zeta.
  destruct (Rlt_dec (portfolio_balance * 0.4) avg_trade); [left; reflexivity|].
  destruct (Rltb 0.5 _ && Rltb _ 2.0); [right; reflexivity|].
  destruct (Rlt_dec _ 0.5); [|left; reflexivity].
  destruct (Rlt_dec _ 2.0); [left | right]; reflexivity.
Qed.

(** The suggested size honours the minimum of the order type: with fixed
    amount sizing it is at least 0.01 for limit orders and at least 1 for
    market and hybrid orders; the order type is limit, hybrid or market as
    the latency risk is HIGH, MEDIUM or anything else. *)
Theorem order_minimum_is_respected (metrics : Metrics) (portfolio_balance : R) :
  let rec := recommend_copy_strategy metrics portfolio_balance in
  let latency_risk := get (m_latency_risk metrics) "LOW" in
  (order_type rec = "limit" <-> latency_risk = "HIGH")
  /\ (order_type rec = "hybrid" <-> latency_risk = "MEDIUM")
  /\ (order_type rec = "market" <->
      latency_risk <> "HIGH" /\ latency_risk <> "MEDIUM")
  /\ (sizing_method rec = "fixed_amount" ->
      (order_type rec = "limit" -> 0.01 <= suggested_size rec)
      /\ (order_type rec <> "limit" -> 1 <= suggested_size rec)).
Proof.
  intros rec latency_risk.
  destruct (recommend_fields metrics portfolio_balance) as (Ho & Hm & Hs & _).
  fold rec latency_risk in Ho, Hm, Hs.
  destruct (step_order_type_cases latency_risk) as
    [[Hl Hord]|[(Hn & Hl & Hord)|(Hn1 & Hn2 & Hord)]];
    cbv zeta in Hord; rewrite Hord in Ho, Hs.
  - rewrite Ho.
    split; [split; auto|]. split; [split; [discriminate | congruence]|].
    split; [split; [discriminate | intros [? _]; contradiction]|].
    intros Hfixed. rewrite <- Hm in Hs. rewrite Hfixed in Hs.
    split; [|intros Hc; contradiction].
    intros _. rewrite Hs. unfold step_minimum, Rltb. simpl.
    destruct (Rlt_dec _ 0.01); simpl; lra.
  - rewrite Ho.
    split; [split; [discriminate | congruence]|]. split; [split; auto|].
    split; [split; [discriminate | intros [_ ?]; contradiction]|].
    intros Hfixed. rewrite <- Hm in Hs. rewrite Hfixed in Hs.
    split; [discriminate|].
    intros _. rewrite Hs. unfold step_minimum, Rltb. simpl.
    destruct (Rlt_dec _ 1.0); simpl; lra.
  - rewrite Ho.
    split; [split; [discriminate | intros; contradiction]|].
    split; [split; [discriminate | intros; contradiction]|].
    split; [split; auto|].
    intros Hfixed. rewrite <- Hm in Hs. rewrite Hfixed in Hs.
    split; [discriminate|].
    intros _. rewrite Hs. unfold step_minimum, Rltb. simpl.
    destruct (Rlt_dec _ 1.0); simpl; lra.
Qed.

(** With proportional sizing the recommender never asks to copy more than
    the whole of a trade, nor a share that is zero or negative: for a
    non-negative average trade the suggested share lies in (0, 1]. *)
Theorem proportional_share_is_a_fraction (metrics : Metrics)
    (portfolio_balance : R) :
  0 <= get (m_avg_trade metrics) 50 ->
  sizing_method (recommend_copy_strategy metrics portfolio_balance)
    = "pct_of_trade" ->
  0 < suggested_size (recommend_copy_strategy metrics portfolio_balance) <= 1.
Proof.
  intros Havg.
  destruct (recommend_fields metrics portfolio_balance) as (_ & Hm & Hs & _).
  cbv zeta in Hm, Hs. rewrite Hm, Hs. clear Hm Hs.
  set (avg_trade := get (m_avg_trade metrics) 50) in *.
  set (win_rate := get (m_win_rate metrics) 0.5).
  set (trader_capital := get (m_capital_deployed metrics) 1000).
  unfold step_sizing. cbv zeta.
  set (ratio := if Rlt_dec 0 trader_capital
                then portfolio_balance / trader_capital else 0.01).
  assert (Hmin : forall ot sz,
            fst (fst (step_minimum ot "pct_of_trade" sz)) = sz).
  { intros ot sz. unfold step_minimum.
    destruct (ot =? "limit"); reflexivity. }
  destruct (Rlt_dec (portfolio_balance * 0.4) avg_trade); [discriminate|].
  unfold Rltb.
  destruct (Rlt_dec 0.5 ratio) as [H1|H1];
    [destruct (Rlt_dec ratio 2.0) as [H2|H2]|]; cbn [andb fst snd].
  - intros _. rewrite Hmin. unfold Rmin.
    destruct (Rle_dec 1.0 ratio); lra.
  - destruct (Rlt_dec ratio 0.5); [exfalso; lra | discriminate].
  - destruct (Rlt_dec ratio 0.5) as [H3|H3]; [|discriminate].
    destruct (Rlt_dec (avg_trade * ratio) 2.0) as [H4|H4]; [discriminate|].
    cbn [fst snd]. intros _. rewrite Hmin.
    split; [|lra].
    destruct (Rlt_dec 0 ratio) as [Hp|Hp]; [exact Hp|].
    exfalso. apply H4. nra.
Qed.

Lemma peer_sizing :
  sizing_method (recommend_copy_strategy peer 150) = "pct_of_trade".
Proof.
  destruct (recommend_fields peer 150) as (_ & Hm & _).
  cbv zeta in Hm. rewrite Hm. unfold peer, get, step_sizing, Rltb; simpl.
  rcase (Rlt_dec 0 150). rcase (Rlt_dec (150 * 0.4) 10).
  rcase (Rlt_dec 0.5 (150 / 150)). rcase (Rlt_dec (150 / 150) 2.0).
  reflexivity.
Qed.

Lemma proportional_share_is_a_fraction_witness :
  0 < suggested_size (recommend_copy_strategy peer 150) <= 1.
Proof.
  apply proportional_share_is_a_fraction; [simpl; lra | exact peer_sizing].
Defined.

(** The cap on a position is one of 5, 10, 15, 25 and 30 percent of the
    portfolio; with a win rate above 0.7 it is 30 unless Sharpe is above 1,
    in which case it is 25: the elite tier is tested first and takes
    precedence over the win-rate tier. *)
Theorem max_position_tiers (metrics : Metrics) (portfolio_balance : R) :
  let rec := recommend_copy_strategy metrics portfolio_balance in
  let win_rate := get (m_win_rate metrics) 0.5 in
  let sharpe := get (m_sharpe metrics) 0 in
  In (max_position_pct rec) [5; 10; 15; 25; 30]
  /\ (max_position_pct rec = 25 <-> 1 < sharpe /\ 0.6 < win_rate)
  /\ (max_position_pct rec = 30 <-> sharpe <= 1 /\ 0.7 < win_rate)
  /\ (max_position_pct rec = 5 <->
      win_rate <= 0.52 \/ (sharpe <= 0 /\ win_rate <= 0.7)).
Proof.
  intros rec win_rate sharpe.
  destruct (recommend_fields_more metrics portfolio_balance) as (Hmax & _).
  fold rec win_rate sharpe in Hmax. rewrite Hmax. clear Hmax.
  unfold step_max_position, Rltb.
  destruct (Rlt_dec 1.0 sharpe); destruct (Rlt_dec 0.6 win_rate);
    destruct (Rlt_dec 0.7 win_rate); destruct (Rlt_dec 0.5 sharpe);
    destruct (Rlt_dec 0.55 win_rate); destruct (Rlt_dec 0 sharpe);
    destruct (Rlt_dec 0.52 win_rate); cbn [andb fst];
    try (exfalso; lra);
    (split; [simpl;
             first [ left; lra | right; left; lra | right; right; left; lra
                   | right; right; right; left; lra
                   | right; right; right; right; left; lra ]|]);
    repeat split; intros; try lra;
    try (match goal with H : _ /\ _ |- _ => destruct H; lra end);
    try (match goal with H : _ \/ _ |- _ => destruct H as [?|[? ?]]; lra end);
    try (left; lra); try (right; split; lra).
Qed.

(** The primary strategy is always set, to one of the five codes; it is
    'adaptive' exactly for a MEDIUM latency risk, a limit strategy exactly
    for HIGH, and a market strategy otherwise, fixed or proportional as the
    sizing method says. *)
Theorem primary_strategy_is_always_set (metrics : Metrics)
    (portfolio_balance : R) :
  let rec := recommend_copy_strategy metrics portfolio_balance in
  let latency_risk := get (m_latency_risk metrics) "LOW" in
  (exists s, primary_strategy rec = Some s
     /\ In s ["limit_fixed"; "limit_proportional"; "market_fixed";
              "market_proportional"; "adaptive"])
  /\ (primary_strategy rec = Some "adaptive" <-> latency_risk = "MEDIUM")
  /\ (latency_risk = "HIGH" ->
      primary_strategy rec =
      Some (if (sizing_method rec =? "fixed_amount")
            then "limit_fixed" else "limit_proportional"))
  /\ (latency_risk <> "HIGH" -> latency_risk <> "MEDIUM" ->
      primary_strategy rec =
      Some (if (sizing_method rec =? "fixed_amount")
            then "market_fixed" else "market_proportional")).
Proof.
  intros rec latency_risk.
  destruct (recommend_fields metrics portfolio_balance) as (_ & Hm & _).
  destruct (recommend_fields_more metrics portfolio_balance) as (_ & Hp & _).
  fold rec latency_risk in Hm, Hp. rewrite Hp, Hm. clear Hp Hm.
  destruct (step_sizing_method (get (m_avg_trade metrics) 50)
              (get (m_win_rate metrics) 0.5)
              (get (m_capital_deployed metrics) 1000) portfolio_balance)
    as [Hsz|Hsz]; cbv zeta in Hsz; rewrite Hsz;
  destruct (step_order_type_cases latency_risk) as
    [[Hl Hord]|[(Hn & Hl & Hord)|(Hn1 & Hn2 & Hord)]];
    cbv zeta in Hord; rewrite Hord; cbn;
    (split; [eexists; split; [reflexivity | simpl; tauto]|]);
    repeat split; intros; try reflexivity; try discriminate;
    try congruence; try contradiction.
Qed.

Lemma fetch_loop_rounds (api : page_api) (limit : nat) :
  forall r1 r2 all offset,
    (limit <= r1 + List.length all)%nat -> (limit <= r2 + List.length all)%nat ->
    fetch_loop api limit r1 all offset = fetch_loop api limit r2 all offset.
Proof.
  induction r1 as [|r1 IH]; intros r2 all offset H1 H2.
  - destruct r2 as [|r2]; [reflexivity|]. simpl.
    assert (Hl : (List.length all <? limit)%nat = false)
      by (apply Nat.ltb_ge; lia).
    rewrite Hl. reflexivity.
  - destruct r2 as [|r2].
    + simpl.
      assert (Hl : (List.length all <? limit)%nat = false)
        by (apply Nat.ltb_ge; lia).
      rewrite Hl. reflexivity.
    + simpl. destruct (List.length all <? limit)%nat; [|reflexivity].
      destruct (api _ offset) as [[|d data]|]; try reflexivity.
      destruct (_ <? _)%nat; [reflexivity|].
      apply IH; rewrite length_app; simpl; lia.
Qed.

(** The loop ends within [limit] requests: allowing it more rounds changes
    nothing. *)
Theorem fetch_trade_history_ends (api : page_api) (limit rounds : nat) :
  (limit <= rounds)%nat ->
  fetch_loop api limit rounds [] 0 = fetch_trade_history api limit.
Proof.
  intros H. unfold fetch_trade_history.
  apply fetch_loop_rounds; simpl; lia.
Qed.

Lemma fetch_trade_history_ends_witness :
  fetch_loop (paged example_raw) 3 7 [] 0
  = fetch_trade_history (paged example_raw) 3.
Proof. apply fetch_trade_history_ends. lia. Defined.

Lemma fetch_loop_bounded (api : page_api) (limit : nat) :
  (forall b o data, api b o = Some data -> (List.length data <= b)%nat) ->
  forall rounds all offset,
    (List.length all <= limit)%nat ->
    (List.length (fetch_loop api limit rounds all offset) <= limit)%nat.
Proof.
  intros Hapi. induction rounds as [|rounds IH]; intros all offset Hall.
  - exact Hall.
  - cbn [fetch_loop]. cbv zeta.
    destruct (List.length all <? limit)%nat eqn:Hl; [|exact Hall].
    apply Nat.ltb_lt in Hl.
    destruct (api _ offset) as [[|d data]|] eqn:Ha; try exact Hall.
    apply Hapi in Ha.
    assert (Hnew : (List.length (all ++ d :: data) <= limit)%nat).
    { rewrite length_app. lia. }
    destruct (_ <? _)%nat; [exact Hnew | apply IH; exact Hnew].
Qed.

(** Against an exchange that never returns more trades than a request asks
    for, the history holds at most [limit] trades; when the first request
    fails or comes back empty the history is empty; and a first page shorter
    than requested is the whole history. *)
Theorem fetch_trade_history_is_bounded (api : page_api) (limit : nat) :
  (forall b o data, api b o = Some data -> (List.length data <= b)%nat) ->
  (List.length (fetch_trade_history api limit) <= limit)%nat
  /\ (api (Nat.min 100 limit) 0%nat = None \/ api (Nat.min 100 limit) 0%nat = Some []
      -> fetch_trade_history api limit = [])
  /\ (forall data, api (Nat.min 100 limit) 0%nat = Some data ->
      (List.length data < Nat.min 100 limit)%nat ->
      fetch_trade_history api limit = data).
Proof.
  intros Hapi. split; [|split].
  - apply fetch_loop_bounded; [exact Hapi | simpl; lia].
  - intros H. unfold fetch_trade_history. destruct limit as [|limit]; [reflexivity|].
    cbn [fetch_loop List.length]. change (0 <? S limit)%nat with true. cbv iota zeta.
    rewrite Nat.sub_0_r. destruct H as [-> | ->]; reflexivity.
  - intros data Hd Hshort. unfold fetch_trade_history.
    destruct limit as [|limit]; [simpl in Hshort; lia|].
    cbn [fetch_loop List.length]. change (0 <? S limit)%nat with true. cbv iota zeta.
    rewrite Nat.sub_0_r, Hd.
    destruct data as [|d data].
    + reflexivity.
    + apply Nat.ltb_lt in Hshort. rewrite Hshort. reflexivity.
Qed.

Lemma paged_bounded (h : list RawTrade) :
  forall b o data, paged h b o = Some data -> (List.length data <= b)%nat.
Proof.
  intros b o data H. injection H as <-. apply firstn_le_length.
Qed.

Lemma fetch_trade_history_is_bounded_witness :
  (List.length (fetch_trade_history (paged example_raw) 3) <= 3)%nat.
Proof.
  exact (proj1 (fetch_trade_history_is_bounded (paged example_raw) 3
                  (paged_bounded example_raw))).
Defined.

Lemma firstn_then_page (h : list RawTrade) (n b : nat) :
  (firstn n h ++ firstn b (skipn n h))%list = firstn (n + b) h.
Proof.
  rewrite firstn_skipn_comm.
  replace (firstn n h) with (firstn n (firstn (n + b) h)).
  - apply firstn_skipn.
  - rewrite firstn_firstn. f_equal. lia.
Qed.

Lemma fetch_loop_paged (h : list RawTrade) (limit : nat) :
  forall rounds n,
    (n <= limit)%nat -> (n <= List.length h)%nat -> (limit <= rounds + n)%nat ->
    fetch_loop (paged h) limit rounds (firstn n h) n = firstn limit h.
Proof.
  induction rounds as [|rounds IH]; intros n Hn Hh Hr.
  - simpl. f_equal. lia.
  - cbn [fetch_loop]. rewrite (firstn_length_le h Hh).
    destruct (n <? limit)%nat eqn:Hl.
    2:{ apply Nat.ltb_ge in Hl. f_equal. lia. }
    apply Nat.ltb_lt in Hl. cbv zeta.
    set (b := Nat.min 100 (limit - n)).
    assert (Hb : (1 <= b <= limit - n)%nat) by (unfold b; lia).
    unfold paged at 1.
    pose proof (length_firstn b (skipn n h)) as Hlen.
    rewrite length_skipn in Hlen.
    pose proof (firstn_then_page h n b) as Happ.
    destruct (firstn b (skipn n h)) as [|d data] eqn:Hd.
    + simpl in Hlen.
      assert (Hend : n = List.length h) by lia.
      rewrite (firstn_all2 h) by lia. rewrite (firstn_all2 h) by lia.
      reflexivity.
    + rewrite Happ.
      destruct (List.length (d :: data) <? b)%nat eqn:Hshort.
      * apply Nat.ltb_lt in Hshort.
        rewrite (firstn_all2 h) by lia. rewrite (firstn_all2 h) by lia.
        reflexivity.
      * apply Nat.ltb_ge in Hshort.
        assert (Hfull : List.length (d :: data) = b) by lia.
        rewrite Hfull. apply IH; lia.
Qed.

(** Against an exchange that pages faithfully through a history, the
    function returns exactly the first [limit] trades of that history, in
    order: every request is made at the offset of the trades already
    collected. *)
Theorem fetch_trade_history_pages (h : list RawTrade) (limit : nat) :
  fetch_trade_history (paged h) limit = firstn limit h
  /\ (List.length (fetch_trade_history (paged h) limit)
      = Nat.min limit (List.length h))%nat.
Proof.
  assert (H : fetch_trade_history (paged h) limit = firstn limit h).
  { unfold fetch_trade_history.
    apply (fetch_loop_paged h limit limit 0%nat); lia. }
  split; [exact H|]. rewrite H. apply length_firstn.
Qed.

Lemma ascii_compare_trans (a b c : ascii) :
  Ascii.compare a b = Lt -> Ascii.compare b c = Lt -> Ascii.compare a c = Lt.
Proof.
  unfold Ascii.compare. rewrite !N.compare_lt_iff. apply N.lt_trans.
Qed.

Lemma string_compare_trans (s1 : string) :
  forall s2 s3, String.compare s1 s2 = Lt -> String.compare s2 s3 = Lt ->
  String.compare s1 s3 = Lt.
Proof.
  induction s1 as [|c1 s1 IH]; intros [|c2 s2] [|c3 s3]; simpl;
    try discriminate; try reflexivity.
  destruct (Ascii.compare c1 c2) eqn:H12; try discriminate;
    destruct (Ascii.compare c2 c3) eqn:H23; try discriminate; intros Ha Hb.
  - apply Ascii.compare_eq_iff in H12, H23. subst.
    assert (He : Ascii.compare c3 c3 = Eq).
    { unfold Ascii.compare. apply N.compare_refl. }
    rewrite He. eapply IH; eassumption.
  - apply Ascii.compare_eq_iff in H12. subst. rewrite H23. reflexivity.
  - apply Ascii.compare_eq_iff in H23. subst. rewrite H12. reflexivity.
  - rewrite (ascii_compare_trans _ _ _ H12 H23). reflexivity.
Qed.

Lemma string_compare_refl (s : string) : String.compare s s = Eq.
Proof.
  induction s as [|c s IH]; simpl; [reflexivity|].
  assert (He : Ascii.compare c c = Eq).
  { unfold Ascii.compare. apply N.compare_refl. }
  rewrite He. exact IH.
Qed.

Lemma string_compare_gt (s1 s2 : string) :
  String.compare s1 s2 = Gt -> String.compare s2 s1 = Lt.
Proof.
  intros H. rewrite String.compare_antisym, H. reflexivity.
Qed.

Lemma key_lt_iff (a b : group_key) :
  key_lt a b <->
  String.compare (fst a) (fst b) = Lt
  \/ (fst a = fst b /\ String.compare (snd a) (snd b) = Lt).
Proof.
  destruct a as [a1 a2], b as [b1 b2]. unfold key_lt, key_leb, String.leb. simpl.
  split.
  - intros [Hle Hne].
    destruct (String.compare a1 b1) eqn:H1; try discriminate; [|left; reflexivity].
    apply String.compare_eq_iff in H1. subst. right. split; [reflexivity|].
    destruct (String.compare a2 b2) eqn:H2; try discriminate; [|reflexivity].
    apply String.compare_eq_iff in H2. subst. contradiction.
  - intros [H|[-> H]].
    + rewrite H. split; [reflexivity|].
      intros E. injection E as -> ->. rewrite string_compare_refl in H. discriminate.
    + rewrite string_compare_refl, H. split; [reflexivity|].
      intros E. injection E as ->. rewrite string_compare_refl in H. discriminate.
Qed.

Lemma key_lt_trans (a b c : group_key) : key_lt a b -> key_lt b c -> key_lt a c.
Proof.
  rewrite !key_lt_iff. intros [H1|[E1 H1]] [H2|[E2 H2]].
  - left. eapply string_compare_trans; eassumption.
  - left. rewrite <- E2. exact H1.
  - left. rewrite E1. exact H2.
  - right. split; [congruence|]. eapply string_compare_trans; eassumption.
Qed.

Lemma key_lt_total (k h : group_key) :
  key_eqb k h = false -> key_leb k h = false -> key_lt h k.
Proof.
  intros _ Hle. apply key_lt_iff.
  destruct k as [k1 k2], h as [h1 h2]. unfold key_leb, String.leb in Hle. simpl in *.
  destruct (String.compare k1 h1) eqn:H1; try discriminate.
  - apply String.compare_eq_iff in H1. subst. right. split; [reflexivity|].
    destruct (String.compare k2 h2) eqn:H2; try discriminate.
    apply string_compare_gt. exact H2.
  - left. apply string_compare_gt. exact H1.
Qed.

Lemma insert_key_sorted (k : group_key) (keys : list group_key) :
  StronglySorted key_lt keys -> StronglySorted key_lt (insert_key k keys).
Proof.
  induction 1 as [|h keys Hs IH Hh]; simpl.
  - constructor; constructor.
  - destruct (key_eqb k h) eqn:He; [constructor; assumption|].
    destruct (key_leb k h) eqn:Hl.
    + assert (Hkh : key_lt k h).
      { split; [exact Hl|]. intros ->. rewrite key_eqb_refl in He. discriminate. }
      constructor; [constructor; assumption|].
      constructor; [exact Hkh|].
      eapply Forall_impl; [|exact Hh]. intros x Hx.
      eapply key_lt_trans; eassumption.
    + constructor; [exact IH|].
      apply Forall_forall. intros x Hx.
      apply insert_key_In in Hx. destruct Hx as [->|Hx].
      * apply key_lt_total; assumption.
      * rewrite Forall_forall in Hh. apply Hh, Hx.
Qed.

Lemma group_keys_sorted (df : list Trade) : StronglySorted key_lt (group_keys df).
Proof.
  unfold group_keys. induction (map key_of df) as [|k ks IH]; simpl.
  - constructor.
  - apply insert_key_sorted, IH.
Qed.

Lemma sorted_keys_NoDup (keys : list group_key) :
  StronglySorted key_lt keys -> NoDup keys.
Proof.
  induction 1 as [|h keys Hs IH Hh]; constructor; [|exact IH].
  intros Hin. rewrite Forall_forall in Hh.
  destruct (Hh h Hin) as [_ Hne]. apply Hne. reflexivity.
Qed.

Lemma insert_key_has (k : group_key) (keys : list group_key) :
  In k (insert_key k keys).
Proof.
  induction keys as [|h keys IH]; simpl; [left; reflexivity|].
  destruct (key_eqb k h) eqn:He.
  - destruct k as [k1 k2], h as [h1 h2]. unfold key_eqb in He. simpl in He.
    apply andb_true_iff in He. destruct He as [E1 E2].
    apply String.eqb_eq in E1, E2. subst. left. reflexivity.
  - destruct (key_leb k h); [left; reflexivity | right; exact IH].
Qed.

Lemma insert_key_keeps (k k' : group_key) (keys : list group_key) :
  In k' keys -> In k' (insert_key k keys).
Proof.
  induction keys as [|h keys IH]; simpl; [intros []|].
  intros H. destruct (key_eqb k h); [exact H|].
  destruct (key_leb k h); [right; exact H|].
  destruct H as [->|H]; [left; reflexivity | right; apply IH, H].
Qed.

Lemma group_keys_cover (df : list Trade) (t : Trade) :
  In t df -> In (key_of t) (group_keys df).
Proof.
  unfold group_keys. induction df as [|x df IH]; simpl; [intros []|].
  intros [->|H]; [apply insert_key_has | apply insert_key_keeps, IH, H].
Qed.

Lemma key_eqb_true (a b : group_key) : key_eqb a b = true -> a = b.
Proof.
  destruct a as [a1 a2], b as [b1 b2]. unfold key_eqb; simpl.
  intros H. apply andb_true_iff in H. destruct H as [E1 E2].
  apply String.eqb_eq in E1, E2. subst. reflexivity.
Qed.

Lemma flat_map_split {A B : Type} (s g : A -> list B) (l : list A) :
  Permutation (flat_map (fun k => s k ++ g k) l)%list
              (flat_map s l ++ flat_map g l)%list.
Proof.
  induction l as [|k l IH]; simpl; [reflexivity|].
  rewrite IH. rewrite <- !app_assoc. apply Permutation_app_head.
  rewrite !app_assoc. apply Permutation_app_tail. apply Permutation_app_comm.
Qed.

Lemma one_group_takes (t : Trade) (keys : list group_key) :
  NoDup keys -> In (key_of t) keys ->
  flat_map (fun k => if key_eqb (key_of t) k then [t] else []) keys = [t].
Proof.
  induction 1 as [|h keys Hh Hk IH]; simpl; [intros []|].
  intros [->|Hin].
  - rewrite key_eqb_refl. simpl. f_equal.
    clear IH. induction keys as [|x keys IHk]; simpl; [reflexivity|].
    destruct (key_eqb (key_of t) x) eqn:He.
    + apply key_eqb_true in He. exfalso. apply Hh. left. symmetry. exact He.
    + simpl. apply IHk.
      * intros H. apply Hh. right. exact H.
      * inversion Hk; assumption.
  - destruct (key_eqb (key_of t) h) eqn:He.
    + apply key_eqb_true in He. subst. contradiction.
    + simpl. apply IH, Hin.
Qed.

Lemma groups_partition (keys : list group_key) :
  NoDup keys ->
  forall df, (forall t, In t df -> In (key_of t) keys) ->
  Permutation (flat_map (group_rows df) keys) df.
Proof.
  intros Hnd. induction df as [|t df IH]; intros Hcover.
  - unfold group_rows. simpl. clear Hnd Hcover.
    induction keys as [|k keys IHk]; simpl; [reflexivity | exact IHk].
  - assert (Hstep : flat_map (group_rows (t :: df)) keys =
                    flat_map (fun k => (if key_eqb (key_of t) k then [t] else [])
                                         ++ group_rows df k)%list keys).
    { apply flat_map_ext. intros k. unfold group_rows. simpl.
      destruct (key_eqb (key_of t) k); reflexivity. }
    rewrite Hstep, flat_map_split, one_group_takes.
    + simpl. constructor. apply IH. intros x Hx. apply Hcover. right. exact Hx.
    + exact Hnd.
    + apply Hcover. left. reflexivity.
Qed.

(** Grouping by (market, asset) is a partition: the keys come in strictly
    ascending order without repeats, every group holds exactly the trades
    of its key in their original order and is never empty, and the groups
    together are a rearrangement of all the trades, so that each trade is
    replayed in exactly one group. *)
Theorem groupby_partitions (df : list Trade) :
  StronglySorted key_lt (map fst (groupby df))
  /\ NoDup (map fst (groupby df))
  /\ (forall k g, In (k, g) (groupby df) ->
        g = filter (fun t => key_eqb (key_of t) k) df /\ g <> [])
  /\ Permutation (List.concat (map snd (groupby df))) df.
Proof.
  assert (Hkeys : map fst (groupby df) = group_keys df).
  { unfold groupby. rewrite map_map. simpl. apply map_id. }
  rewrite Hkeys.
  split; [apply group_keys_sorted|].
  split; [apply sorted_keys_NoDup, group_keys_sorted|].
  split.
  - intros k g Hin. split; [|eapply groupby_nonempty; exact Hin].
    unfold groupby in Hin. apply in_map_iff in Hin.
    destruct Hin as (k' & E & _). injection E as <- <-. reflexivity.
  - unfold groupby. rewrite map_map. simpl. rewrite <- flat_map_concat_map.
    apply groups_partition.
    + apply sorted_keys_NoDup, group_keys_sorted.
    + intros t Ht. apply group_keys_cover, Ht.
Qed.

Lemma py_round_ge_grid (x : R) (ndigits : nat) (k : Z) :
  IZR k / 10 ^ ndigits <= x -> IZR k / 10 ^ ndigits <= py_round x ndigits.
Proof.
  intros Hk. unfold py_round.
  assert (Hp : 0 < 10 ^ ndigits) by (apply pow_lt; lra).
  set (y := x * 10 ^ ndigits).
  assert (Hy : IZR k <= y).
  { unfold y. apply Rmult_le_reg_r with (/ 10 ^ ndigits).
    - apply Rinv_0_lt_compat; exact Hp.
    - rewrite Rmult_assoc, Rinv_r, Rmult_1_r by lra. exact Hk. }
  destruct (base_Int_part y) as [Hlo Hhi].
  set (f := Int_part y) in *.
  assert (Hf : (k <= f)%Z).
  { assert (H : (k < f + 1)%Z).
    { apply lt_IZR. rewrite plus_IZR. lra. }
    lia. }
  assert (Hgoal : forall m : Z, (f <= m)%Z ->
            IZR k / 10 ^ ndigits <= IZR m / 10 ^ ndigits).
  { intros m Hm. unfold Rdiv. apply Rmult_le_compat_r.
    - left. apply Rinv_0_lt_compat; exact Hp.
    - apply IZR_le. lia. }
  apply Hgoal.
  destruct (Rlt_dec _ _); [lia|].
  destruct (Rlt_dec _ _); [lia|].
  destruct (Z.even f); lia.
Qed.

Lemma py_round_le_grid (x : R) (ndigits : nat) (k : Z) :
  x <= IZR k / 10 ^ ndigits -> py_round x ndigits <= IZR k / 10 ^ ndigits.
Proof.
  intros Hk. unfold py_round.
  assert (Hp : 0 < 10 ^ ndigits) by (apply pow_lt; lra).
  set (y := x * 10 ^ ndigits).
  assert (Hy : y <= IZR k).
  { unfold y. apply Rmult_le_reg_r with (/ 10 ^ ndigits).
    - apply Rinv_0_lt_compat; exact Hp.
    - rewrite Rmult_assoc, Rinv_r, Rmult_1_r by lra. exact Hk. }
  destruct (base_Int_part y) as [Hlo Hhi].
  set (f := Int_part y) in *.
  assert (Hf : (f <= k)%Z) by (apply le_IZR; lra).
  assert (Hup : IZR f < y -> (f + 1 <= k)%Z).
  { intros H. assert (H' : (f < k)%Z) by (apply lt_IZR; lra). lia. }
  assert (Hgoal : forall m : Z, (m <= k)%Z ->
            IZR m / 10 ^ ndigits <= IZR k / 10 ^ ndigits).
  { intros m Hm. unfold Rdiv. apply Rmult_le_compat_r.
    - left. apply Rinv_0_lt_compat; exact Hp.
    - apply IZR_le. exact Hm. }
  apply Hgoal.
  destruct (Rlt_dec (y - IZR f) (1 / 2)) as [H1|H1]; [exact Hf|].
  destruct (Rlt_dec (1 / 2) (y - IZR f)) as [H2|H2]; [apply Hup; lra|].
  destruct (Z.even f); [exact Hf | apply Hup; lra].
Qed.

(** A trader is not recommended exactly when the rounded score is below 25
    or the rounded win rate below 0.52, whatever the Sharpe ratio; the
    verdict is STRONG exactly when the score is at least 40, the win rate at
    least 0.55 and Sharpe positive. *)
Theorem verdict_thresholds (metrics : TraderMetrics) :
  (verdict metrics = STRONG <->
   40 <= tm_score metrics /\ 0.55 <= tm_win_rate metrics /\ 0 < tm_sharpe metrics)
  /\ (verdict metrics = NOT_RECOMMENDED <->
      tm_score metrics < 25 \/ tm_win_rate metrics < 0.52)
  /\ (verdict metrics = MODERATE <->
      25 <= tm_score metrics /\ 0.52 <= tm_win_rate metrics
      /\ (tm_score metrics < 40 \/ tm_win_rate metrics < 0.55
          \/ tm_sharpe metrics <= 0)).
Proof.
  unfold verdict, Rleb, Rltb, VERDICT_STRONG_MIN_SCORE,
    VERDICT_STRONG_MIN_WIN_RATE, VERDICT_STRONG_MIN_SHARPE,
    VERDICT_MODERATE_MIN_SCORE, VERDICT_MODERATE_MIN_WIN_RATE.
  destruct (Rle_dec 40 (tm_score metrics)) as [S40|S40];
    destruct (Rle_dec 0.55 (tm_win_rate metrics)) as [W55|W55];
    destruct (Rlt_dec 0.0 (tm_sharpe metrics)) as [Sh|Sh];
    destruct (Rle_dec 25 (tm_score metrics)) as [S25|S25];
    destruct (Rle_dec 0.52 (tm_win_rate metrics)) as [W52|W52]; cbn [andb];
    try (exfalso; lra);
    (split; [split; [intros E; first [discriminate | lra]
                    | intros (? & ? & ?); first [reflexivity | exfalso; lra]]|]);
    (split; [split; [intros E; first [discriminate | left; lra | right; lra]
                    | intros [?|?]; first [reflexivity | exfalso; lra]]|]);
    (split; [intros E; first [discriminate
                             | split; [lra|]; split; [lra|];
                               first [left; lra | right; left; lra
                                     | right; right; lra]]
            | intros (? & ? & [?|[?|?]]); first [reflexivity | exfalso; lra]]).
Qed.

Lemma insert_by_score_perm (m : TraderMetrics) (l : list TraderMetrics) :
  Permutation (insert_by_score m l) (m :: l).
Proof.
  induction l as [|h l IH]; simpl; [reflexivity|].
  destruct (Rlt_dec (tm_score h) (tm_score m)); [reflexivity|].
  rewrite IH. apply perm_swap.
Qed.

Lemma sort_by_score_perm (l : list TraderMetrics) :
  Permutation (sort_by_score l) l.
Proof.
  unfold sort_by_score.
  assert (H : forall acc, Permutation
            (fold_left (fun sorted m => insert_by_score m sorted) l acc)
            (l ++ acc)).
  { induction l as [|m l IH]; intros acc; simpl; [reflexivity|].
    rewrite IH, insert_by_score_perm. symmetry. apply Permutation_middle. }
  rewrite H, app_nil_r. reflexivity.
Qed.

Lemma insert_by_score_sorted (m : TraderMetrics) (l : list TraderMetrics) :
  StronglySorted score_ge l -> StronglySorted score_ge (insert_by_score m l).
Proof.
  induction 1 as [|h l Hl IH Hh]; simpl.
  - constructor; constructor.
  - destruct (Rlt_dec (tm_score h) (tm_score m)) as [Hlt|Hge].
    + constructor; [constructor; assumption|].
      constructor; [unfold score_ge; lra|].
      eapply Forall_impl; [|exact Hh]. unfold score_ge; intros; lra.
    + constructor; [exact IH|].
      eapply Permutation_Forall; [symmetry; apply insert_by_score_perm|].
      constructor; [unfold score_ge; lra | exact Hh].
Qed.

Lemma sort_by_score_sorted (l : list TraderMetrics) :
  StronglySorted score_ge (sort_by_score l).
Proof.
  unfold sort_by_score.
  assert (H : forall acc, StronglySorted score_ge acc ->
            StronglySorted score_ge
              (fold_left (fun sorted m => insert_by_score m sorted) l acc)).
  { induction l as [|m l IH]; intros acc Hacc; simpl; [exact Hacc|].
    apply IH, insert_by_score_sorted, Hacc. }
  apply H. constructor.
Qed.

(** What [analyze_trader] returns when it returns metrics. *)
Lemma analyze_trader_some (gateway : string -> resolution) (c : cache)
    (now : R) (address : string) (trades : list RawTrade)
    (metrics : TraderMetrics) (c' : cache) :
  analyze_trader gateway c now address trades = (Some metrics, c') ->
  tm_address metrics = address
  /\ 5 <= tm_score metrics
  /\ 0.5 <= tm_win_rate metrics <= 1
  /\ (10 <= tm_trades metrics)%nat.
Proof.
  unfold analyze_trader.
  destruct (analyze_trader_locals gateway c now trades) as [[x|a] c0] eqn:Ha;
    [discriminate|].
  intros H. injection H as <- <-.
  pose proof (analyze_trader_locals_inr _ _ _ _ _ _ Ha) as Hi.
  pose proof (analyze_trader_locals_filters _ _ _ _ _ _ Ha) as Hf.
  cbv zeta in Hi, Hf.
  destruct Hi as (Hn & _ & _ & _ & Hw & _ & _ & _ & _ & _ & _ & _ & Hs).
  destruct Hf as (F1 & _ & _ & _ & _ & _ & _ & _ & F9 & F10 & _).
  unfold MIN_TRADES, MIN_WIN_RATE, MIN_SCORE in *.
  cbn [metrics_dict tm_address tm_score tm_win_rate tm_trades].
  split; [reflexivity|].
  split.
  { pose proof (py_round_ge_grid (a_score a) 2 500) as H.
    replace (IZR 500 / 10 ^ 2) with 5 in H by (simpl; lra). apply H, Hs. }
  split.
  { split.
    - pose proof (py_round_ge_grid (a_win_rate a) 3 500) as H.
      replace (IZR 500 / 10 ^ 3) with 0.5 in H by (simpl; lra). apply H. lra.
    - pose proof (py_round_le_grid (a_win_rate a) 3 1000) as H.
      replace (IZR 1000 / 10 ^ 3) with 1 in H by (simpl; lra). apply H.
      rewrite Hw. apply win_rate_at_most_one. exact F9. }
  rewrite Hn. exact F1.
Qed.

Lemma accepted_trader_facts (gateway : string -> resolution) (c : cache)
    (now : R) (trades : list RawTrade) (a : Analysis) (c' : cache) :
  analyze_trader_locals gateway c now trades = (inr a, c') ->
  0 <= a_roi a /\ (3 <= a_unique_markets a)%nat.
Proof.
  intros H.
  pose proof (analyze_trader_locals_filters _ _ _ _ _ _ H) as Hf.
  cbv zeta in Hf.
  destruct Hf as (_ & _ & F3 & _ & _ & _ & _ & _ & _ & _ & F11 & _).
  unfold MIN_MARKETS, MIN_ROI in *. split; [|exact F3].
  destruct (Rle_dec 0.90 (a_win_rate a));
    [|destruct (Rle_dec 0.80 (a_win_rate a));
      [|destruct (Rle_dec 0.70 (a_win_rate a))]]; lra.
Qed.

Lemma fold_left_step {A B : Type} (f : A -> B -> A) (x : B) (l : list B) (a : A) :
  fold_left f (x :: l) a = fold_left f l (f a x).
Proof. reflexivity. Qed.

Lemma board_fold (gateway : string -> resolution) (api : string -> page_api)
    (clock : nat -> R) (P : TraderMetrics -> Prop)
    (candidates : list (nat * string)) :
  (forall c now address trades metrics c',
     In address (map snd candidates) ->
     analyze_trader gateway c now address trades = (Some metrics, c') ->
     P metrics) ->
  forall b, Forall P (results b) ->
    let b' := fold_left (board_step gateway api clock) candidates b in
    (List.length (results b') + filtered_count b' + no_data_count b'
     = List.length (results b) + filtered_count b + no_data_count b
       + List.length candidates)%nat
    /\ Forall P (results b').
Proof.
  induction candidates as [|[i addr] candidates IH]; intros HP b Hb.
  - simpl. split; [lia | exact Hb].
  - cbv zeta.
    rewrite !fold_left_step.
    assert (Hstep :
      (List.length (results (board_step gateway api clock b (i, addr)))
       + filtered_count (board_step gateway api clock b (i, addr))
       + no_data_count (board_step gateway api clock b (i, addr))
       = S (List.length (results b) + filtered_count b + no_data_count b))%nat
      /\ Forall P (results (board_step gateway api clock b (i, addr)))).
    { unfold board_step.
      destruct (fetch_trade_history (api addr) 500) as [|t trades] eqn:Ht.
      - simpl. split; [lia | exact Hb].
      - destruct (analyze_trader _ _ _ _ _) as [[metrics|] c'] eqn:Ha; simpl.
        + split; [rewrite length_app; simpl; lia|].
          apply Forall_app. split; [exact Hb|].
          constructor; [|constructor].
          eapply HP; [|exact Ha]. left. reflexivity.
        + split; [lia | exact Hb]. }
    destruct Hstep as [Hcount HP'].
    destruct (IH (fun c now address trades metrics c' Hin =>
                    HP c now address trades metrics c' (or_intror Hin))
                 _ HP') as [I1 I2].
    cbv zeta in I1, I2. split; [|exact I2].
    rewrite I1, Hcount. cbn [List.length]. lia.
Qed.

(** The rounding of the returned dictionary never takes a value across the
    thresholds of the filters: the metrics returned for an address carry
    that address, a reported score of at least 5, a reported win rate
    between 0.5 and 1, a reported ROI percentage that is not negative, at
    least 10 trades, and a score within 0.005 of the unrounded one. *)
Theorem reported_metrics_keep_thresholds (gateway : string -> resolution)
    (c : cache) (now : R) (address : string) (trades : list RawTrade)
    (metrics : TraderMetrics) (c' : cache) :
  analyze_trader gateway c now address trades = (Some metrics, c') ->
  tm_address metrics = address
  /\ 5 <= tm_score metrics
  /\ 0.5 <= tm_win_rate metrics <= 1
  /\ 0 <= tm_roi_pct metrics
  /\ (10 <= tm_trades metrics)%nat
  /\ (3 <= tm_markets metrics)%nat
  /\ exists a, analyze_trader_locals gateway c now trades = (inr a, c')
       /\ metrics = metrics_dict address a
       /\ Rabs (tm_score metrics - a_score a) <= 0.005.
Proof.
  intros H.
  destruct (analyze_trader_some _ _ _ _ _ _ _ H) as (E & Hs & Hw & Ht).
  split; [exact E|]. split; [exact Hs|]. split; [exact Hw|].
  unfold analyze_trader in H.
  destruct (analyze_trader_locals gateway c now trades) as [[x|a] c0] eqn:Ha;
    [discriminate|].
  injection H as <- <-.
  destruct (accepted_trader_facts _ _ _ _ _ _ Ha) as (Hroi & Hm).
  cbn [metrics_dict tm_roi_pct tm_trades tm_markets tm_score] in *.
  split.
  { pose proof (py_round_ge_grid (a_roi a * 100) 2 0) as Hr.
    replace (IZR 0 / 10 ^ 2) with 0 in Hr by (simpl; lra). apply Hr. lra. }
  split; [exact Ht|]. split; [exact Hm|].
  exists a. split; [reflexivity|]. split; [reflexivity|].
  pose proof (py_round_error (a_score a) 2) as Hr.
  replace (/ 2 / 10 ^ 2) with 0.005 in Hr by (simpl; lra). exact Hr.
Qed.

Lemma reported_metrics_keep_thresholds_witness :
  exists metrics,
    analyze_trader no_answer [] 900 "0xabc" example_raw = (Some metrics, [])
    /\ 5 <= tm_score metrics.
Proof.
  destruct (example_accepted_now no_answer []) as [a Ha].
  assert (H : analyze_trader no_answer [] 900 "0xabc" example_raw
              = (Some (metrics_dict "0xabc" a), [])).
  { unfold analyze_trader. rewrite Ha. reflexivity. }
  exists (metrics_dict "0xabc" a). split; [exact H|].
  exact (proj1 (proj2 (reported_metrics_keep_thresholds _ _ _ _ _ _ _ H))).
Defined.

(** Every candidate is counted once: the ranked traders, the filtered ones
    and the ones without trade data add up to the number of candidates.  The
    ranking is in descending order of score, and every ranked trader is one
    of the candidates, with a reported score of at least 5, a reported win
    rate between 0.5 and 1 and at least 10 valid trades. *)
Theorem leaderboard_accounts_for_every_candidate
    (gateway : string -> resolution) (api : string -> page_api)
    (clock : nat -> R) (c : cache) (candidates : list string) :
  let b := run_leaderboard_analysis gateway api clock c candidates in
  (List.length (results b) + filtered_count b + no_data_count b
   = List.length candidates)%nat
  /\ StronglySorted score_ge (results b)
  /\ Forall (fun m => In (tm_address m) candidates
                      /\ 5 <= tm_score m
                      /\ 0.5 <= tm_win_rate m <= 1
                      /\ (10 <= tm_trades m)%nat) (results b).
Proof.
  cbv zeta. unfold run_leaderboard_analysis.
  cbn [results filtered_count no_data_count].
  set (b0 := {| results := []; filtered_count := 0; no_data_count := 0;
                board_cache := c |}).
  assert (Hsnd : map snd (enumerate candidates) = candidates).
  { unfold enumerate. generalize 1%nat.
    induction candidates as [|x l IH]; intros start; simpl; [reflexivity|].
    rewrite IH. reflexivity. }
  assert (Hlen : List.length (enumerate candidates) = List.length candidates).
  { rewrite <- Hsnd at 2. rewrite length_map. reflexivity. }
  destruct (board_fold gateway api clock
              (fun m => In (tm_address m) candidates
                        /\ 5 <= tm_score m
                        /\ 0.5 <= tm_win_rate m <= 1
                        /\ (10 <= tm_trades m)%nat)
              (enumerate candidates)) with (b := b0) as [H1 H2].
  - intros c0 now address trades metrics c' Hin Ha. rewrite Hsnd in Hin.
    destruct (analyze_trader_some _ _ _ _ _ _ _ Ha) as (E & Hs & Hw & Ht).
    rewrite E. repeat split; try assumption; apply Hw.
  - constructor.
  - cbv zeta in H1, H2.
    split; [|split].
    + rewrite (Permutation_length (sort_by_score_perm _)).
      rewrite H1, Hlen. simpl. lia.
    + apply sort_by_score_sorted.
    + eapply Permutation_Forall; [symmetry; apply sort_by_score_perm | exact H2].
Qed.

Lemma upper_ascii_idempotent (c : ascii) :
  upper_ascii (upper_ascii c) = upper_ascii c.
Proof.
  destruct c as [[] [] [] [] [] [] [] []]; reflexivity.
Qed.

Lemma upper_idempotent (s : string) : upper (upper s) = upper s.
Proof.
  induction s as [|c s IH]; simpl; [reflexivity|].
  rewrite upper_ascii_idempotent, IH. reflexivity.
Qed.

Lemma upper_empty (s : string) : upper s = "" -> s = "".
Proof. destruct s; [reflexivity | discriminate]. Qed.

Lemma token_type_cases (asset_id : string) :
  _determine_token_type asset_id =
  if str_in (upper asset_id) ["YES"; "TRUE"; "1"] then "YES"
  else if str_in (upper asset_id) ["NO"; "FALSE"; "0"] then "NO"
  else "UNKNOWN".
Proof.
  unfold _determine_token_type.
  destruct (negb (truthy asset_id) || (asset_id =? "unknown")) eqn:Hg;
    [|reflexivity].
  apply orb_true_iff in Hg. destruct Hg as [Hg|Hg].
  - unfold truthy in Hg. apply negb_true_iff, negb_false_iff in Hg.
    apply String.eqb_eq in Hg. subst. reflexivity.
  - apply String.eqb_eq in Hg. subst. reflexivity.
Qed.

(** The token class depends on the upper-cased asset alone: it is YES
    exactly for a YES-equivalent label (YES, TRUE, 1 in any case), NO exactly
    for a NO-equivalent one, and UNKNOWN otherwise; the early return for an
    empty or 'unknown' asset never changes the answer, and changing the case
    of the asset does not change its class. *)
Theorem token_type_by_label (asset_id : string) :
  (_determine_token_type asset_id = "YES" <-> yes_label asset_id)
  /\ (_determine_token_type asset_id = "NO" <-> no_label asset_id)
  /\ (_determine_token_type asset_id = "UNKNOWN" <->
      ~ yes_label asset_id /\ ~ no_label asset_id)
  /\ _determine_token_type (upper asset_id) = _determine_token_type asset_id.
Proof.
  assert (Hy : str_in (upper asset_id) ["YES"; "TRUE"; "1"] = true
               <-> yes_label asset_id).
  { rewrite str_in_In. unfold yes_label. simpl. tauto. }
  assert (Hn : str_in (upper asset_id) ["NO"; "FALSE"; "0"] = true
               <-> no_label asset_id).
  { rewrite str_in_In. unfold no_label. simpl. tauto. }
  assert (Hex : yes_label asset_id -> no_label asset_id -> False).
  { unfold yes_label, no_label. simpl.
    intros [H|[H|[H|[]]]] [H'|[H'|[H'|[]]]]; rewrite <- H in H'; discriminate. }
  split; [|split; [|split]].
  - rewrite token_type_cases.
    destruct (str_in (upper asset_id) ["YES"; "TRUE"; "1"]) eqn:E1.
    + split; [intros _; apply Hy; reflexivity | reflexivity].
    + assert (Hny : ~ yes_label asset_id).
      { intros H. apply Hy in H. discriminate. }
      destruct (str_in (upper asset_id) ["NO"; "FALSE"; "0"]);
        (split; [discriminate | intros H; contradiction]).
  - rewrite token_type_cases.
    destruct (str_in (upper asset_id) ["YES"; "TRUE"; "1"]) eqn:E1.
    + split; [discriminate|]. intros H. exfalso.
      apply (Hex (proj1 Hy eq_refl) H).
    + destruct (str_in (upper asset_id) ["NO"; "FALSE"; "0"]) eqn:E2.
      * split; [intros _; apply Hn; reflexivity | reflexivity].
      * split; [discriminate|]. intros H. apply Hn in H. discriminate.
  - rewrite token_type_cases.
    destruct (str_in (upper asset_id) ["YES"; "TRUE"; "1"]) eqn:E1.
    + split; [discriminate|]. intros [H _]. exfalso. apply H, Hy. reflexivity.
    + destruct (str_in (upper asset_id) ["NO"; "FALSE"; "0"]) eqn:E2.
      * split; [discriminate|]. intros [_ H]. exfalso. apply H, Hn. reflexivity.
      * split; [|reflexivity]. intros _. split; intros H.
        -- apply Hy in H. discriminate.
        -- apply Hn in H. discriminate.
  - rewrite !token_type_cases, upper_idempotent. reflexivity.
Qed.

Lemma analyze_trader_latency (gateway : string -> resolution) (c : cache)
    (now : R) (address : string) (trades : list RawTrade)
    (metrics : TraderMetrics) (c' : cache) :
  analyze_trader gateway c now address trades = (Some metrics, c') ->
  (tm_latency_risk metrics = "HIGH" \/ tm_latency_risk metrics = "MEDIUM"
   \/ tm_latency_risk metrics = "LOW")
  /\ 1 <= tm_active_days metrics.
Proof.
  unfold analyze_trader.
  destruct (analyze_trader_locals gateway c now trades) as [[x|a] c0] eqn:Ha;
    [discriminate|].
  intros H. injection H as <- <-.
  pose proof (analyze_trader_locals_filters _ _ _ _ _ _ Ha) as Hf.
  cbv zeta in Hf.
  destruct Hf as (_ & _ & _ & _ & _ & _ & _ & _ & _ & _ & _ & Hd & _ & _ & _ & _
                  & Hl & _).
  cbn [metrics_dict tm_latency_risk tm_active_days]. split.
  - rewrite Hl. destruct (_ || _); [left; reflexivity|].
    destruct (Rltb _ _); [right; left | right; right]; reflexivity.
  - pose proof (py_round_ge_grid (a_active_days a) 1 10) as H.
    replace (IZR 10 / 10 ^ 1) with 1 in H by (simpl; lra). apply H.
    rewrite Hd. apply Rmax_r.
Qed.

(** For the metrics of an accepted trader the recommendation uses limit,
    hybrid or market orders exactly as the latency risk is HIGH, MEDIUM or
    LOW, always estimates the trading frequency (the reported active period
    is at least one day) as the number of trades per active day rounded to
    one decimal, which is not negative, and sizes a fixed amount at no more
    than a quarter of the portfolio share before the floor of the order
    type. *)
Theorem recommendation_for_accepted_trader (gateway : string -> resolution)
    (c : cache) (now : R) (address : string) (trades : list RawTrade)
    (metrics : TraderMetrics) (c' : cache) (portfolio_balance : R) :
  analyze_trader gateway c now address trades = (Some metrics, c') ->
  let rec := recommend_copy_strategy (metrics_of metrics) portfolio_balance in
  (order_type rec = "limit" <-> tm_latency_risk metrics = "HIGH")
  /\ (order_type rec = "hybrid" <-> tm_latency_risk metrics = "MEDIUM")
  /\ (order_type rec = "market" <-> tm_latency_risk metrics = "LOW")
  /\ expected_trades_per_day rec =
     py_round (INR (tm_trades metrics) / tm_active_days metrics) 1
  /\ 0 <= expected_trades_per_day rec
  /\ 0.05 <= fixed_size_pct (tm_win_rate metrics) <= 0.25.
Proof.
  intros H rec.
  destruct (analyze_trader_latency _ _ _ _ _ _ _ H) as (Hlat & Hdays).
  destruct (analyze_trader_some _ _ _ _ _ _ _ H) as (_ & _ & Hw & Ht).
  destruct (recommend_fields (metrics_of metrics) portfolio_balance) as (Ho & _).
  destruct (recommend_fields_more (metrics_of metrics) portfolio_balance)
    as (_ & _ & He & _).
  fold rec in Ho, He. cbn [metrics_of get m_latency_risk m_active_days m_trades
                           m_avg_trade m_win_rate m_capital_deployed] in Ho, He.
  assert (Husage : expected_trades_per_day rec =
                   py_round (INR (tm_trades metrics) / tm_active_days metrics) 1).
  { rewrite He. unfold step_usage.
    destruct (Rlt_dec 0 (tm_active_days metrics)); [reflexivity | exfalso; lra]. }
  assert (Hord : forall l, tm_latency_risk metrics = l ->
            order_type rec = fst (fst (step_order_type l))).
  { intros l <-. exact Ho. }
  split; [|split; [|split; [|split; [exact Husage|split]]]].
  - destruct Hlat as [E|[E|E]]; rewrite (Hord _ E), E; simpl;
      split; intros; first [reflexivity | discriminate].
  - destruct Hlat as [E|[E|E]]; rewrite (Hord _ E), E; simpl;
      split; intros; first [reflexivity | discriminate].
  - destruct Hlat as [E|[E|E]]; rewrite (Hord _ E), E; simpl;
      split; intros; first [reflexivity | discriminate].
  - rewrite Husage.
    pose proof (py_round_ge_grid
                  (INR (tm_trades metrics) / tm_active_days metrics) 1 0) as Hr.
    replace (IZR 0 / 10 ^ 1) with 0 in Hr by (simpl; lra). apply Hr.
    apply Rmult_le_pos; [apply pos_INR|].
    left. apply Rinv_0_lt_compat. lra.
  - unfold fixed_size_pct. destruct (Rlt_dec 0.5 (tm_win_rate metrics)); lra.
Qed.

Lemma recommendation_for_accepted_trader_witness :
  exists metrics,
    analyze_trader no_answer [] 900 "0xabc" example_raw = (Some metrics, [])
    /\ 0 <= expected_trades_per_day
              (recommend_copy_strategy (metrics_of metrics) 150).
Proof.
  destruct (example_accepted_now no_answer []) as [a Ha].
  assert (H : analyze_trader no_answer [] 900 "0xabc" example_raw
              = (Some (metrics_dict "0xabc" a), [])).
  { unfold analyze_trader. rewrite Ha. reflexivity. }
  exists (metrics_dict "0xabc" a). split; [exact H|].
  destruct (recommendation_for_accepted_trader _ _ _ _ _ _ _ 150 H)
    as (_ & _ & _ & _ & Hpos & _).
  exact Hpos.
Defined.
